(** * Talon error-prevention API: context builder, scanner and rewrite engine

    A shallow embedding of [src/talon_api.py] (functions
    [analyze_code_context], [detect_errors_with_context],
    [apply_smart_fixes], [find_insertion_point], [get_line_indent] and the
    request handler [analyze_code]) and the properties of its three passes
    and of the handler.

    Text model.  Python [str] values are modelled as [string] (sequences of
    8-bit characters); the development is about ASCII source text.  The
    character classes below are the restrictions of Python's Unicode classes
    to code points below 128 (characters from 128 on are neither word
    characters nor white space here).

    Python sets are [gset], dicts are [gmap] or records with one field per
    key, lists are [list].  Exceptions ([ValueError] of [str.index],
    [IndexError] of [lines[n]], [KeyError] of [fix['var']]) are modelled by
    [None] in the option monad. *)

From Stdlib Require Import Ascii String.
From stdpp Require Import base option list sorting gmap strings.

Local Open Scope stdpp_scope.

(** ** Python string primitives *)

Module Py.

(** Code point of a character. *)
Definition ord (a : ascii) : nat := nat_of_ascii a.

Definition within (lo hi : nat) (a : ascii) : bool :=
  (lo <=? ord a) && (ord a <=? hi).

(** [str.isspace] on one character, which is also the class [\s] of [re]
    for [str] patterns: TAB, LF, VT, FF, CR, FS, GS, RS, US and space. *)
Definition is_space (a : ascii) : bool :=
  within 9 13 a || within 28 32 a.

Definition is_digit (a : ascii) : bool := within 48 57 a.

Definition is_alpha_ (a : ascii) : bool :=
  within 65 90 a || within 97 122 a || (ord a =? 95).

(** The class [\w]. *)
Definition is_word (a : ascii) : bool := is_alpha_ a || is_digit a.

Definition is_char (c a : ascii) : bool := bool_decide (a = c).

Definition not_char (c a : ascii) : bool := negb (is_char c a).

Definition dquote : ascii := ascii_of_nat 34.
Definition squote : ascii := ascii_of_nat 39.
Definition newline : ascii := ascii_of_nat 10.

(** The class of the two quote characters, and its complement. *)
Definition is_quote (a : ascii) : bool := is_char dquote a || is_char squote a.
Definition not_quote (a : ascii) : bool := negb (is_quote a).

(** The class [.]: every character but a newline. *)
Definition is_dot (a : ascii) : bool := not_char newline a.

Definition len (s : string) : nat := String.length s.

(** [s.lstrip()] *)
Fixpoint lstrip (s : string) : string :=
  match s with
  | String a s' => if is_space a then lstrip s' else s
  | EmptyString => EmptyString
  end.

(** [s.rstrip()] *)
Fixpoint rstrip (s : string) : string :=
  match s with
  | String a s' =>
      match rstrip s' with
      | EmptyString => if is_space a then EmptyString else String a EmptyString
      | t => String a t
      end
  | EmptyString => EmptyString
  end.

(** [s.strip()] *)
Definition strip (s : string) : string := rstrip (lstrip s).

(** [s.startswith(p)] *)
Fixpoint startswith (p s : string) : bool :=
  match p, s with
  | EmptyString, _ => true
  | String a p', String b s' => bool_decide (a = b) && startswith p' s'
  | String _ _, EmptyString => false
  end.

(** [sub in s] *)
Fixpoint contains (sub s : string) : bool :=
  startswith sub s ||
  match s with
  | String _ s' => contains sub s'
  | EmptyString => false
  end.

(** [s.index(sub)]; [None] is the [ValueError] of a missing substring. *)
Fixpoint index (sub s : string) : option nat :=
  if startswith sub s then Some 0
  else match s with
       | String _ s' => S <$> index sub s'
       | EmptyString => None
       end.

(** [s.split(sep)] for a one-character separator. *)
Fixpoint split (sep : ascii) (s : string) : list string :=
  match s with
  | EmptyString => [EmptyString]
  | String a s' =>
      if bool_decide (a = sep) then EmptyString :: split sep s'
      else match split sep s' with
           | x :: xs => String a x :: xs
           | [] => [String a EmptyString]
           end
  end.

(** [sep.join(l)] *)
Fixpoint join (sep : string) (l : list string) : string :=
  match l with
  | [] => EmptyString
  | [x] => x
  | x :: l' => x +:+ sep +:+ join sep l'
  end.

(** [c * n] for a character [c]. *)
Fixpoint repeat_char (c : ascii) (n : nat) : string :=
  match n with
  | O => EmptyString
  | S n' => String c (repeat_char c n')
  end.

Fixpoint all_chars (p : ascii → bool) (s : string) : bool :=
  match s with
  | EmptyString => true
  | String a s' => p a && all_chars p s'
  end.

(** [s.isidentifier()] *)
Definition isidentifier (s : string) : bool :=
  match s with
  | EmptyString => false
  | String a s' => is_alpha_ a && all_chars is_word s'
  end.

(** [code.split('\n')] and ['\n'.join(lines)] *)
Definition split_lines (code : string) : list string := split newline code.
Definition join_lines (lines : list string) : string :=
  join (String newline EmptyString) lines.

End Py.

(** ** A backtracking matcher for the regular expressions of the source

    In the comments a pattern of the source is written with its tokens
    separated by blanks.

    The patterns of the source only repeat single-character classes, so the
    syntax has repetition of a class ([Star]), greedy or lazy.  The matcher
    explores alternatives in the order of Python's [re]: the left branch of
    [|] first, the longest repetition first when greedy and the shortest
    first when lazy; the first complete match wins. *)

Module Re.

Inductive regex : Type :=
| Eps                                   (* the empty pattern *)
| Cls (p : ascii → bool)                (* one character of a class *)
| Cat (r1 r2 : regex)                   (* r1r2 *)
| Alt (r1 r2 : regex)                   (* r1|r2 *)
| Star (greedy : bool) (p : ascii → bool) (* p* and p*? *)
| Grp (n : nat) (r : regex)             (* capturing group number n *)
| Bol                                   (* ^ *)
| Wb.                                   (* \b *)

(** Matcher state: the character before the position ([None] at the start
    of the subject), the text from the position on, the groups so far. *)
Record mstate : Type := MState {
  prev : option ascii;
  rest : string;
  caps : gmap nat string
}.

Definition wordish (o : option ascii) : bool :=
  match o with Some a => Py.is_word a | None => false end.

Definition head (s : string) : option ascii :=
  match s with String a _ => Some a | EmptyString => None end.

(** The first [n] characters of [s]. *)
Fixpoint take_str (n : nat) (s : string) : string :=
  match n, s with
  | S n', String a s' => String a (take_str n' s')
  | _, _ => EmptyString
  end.

Section Matcher.
Context {A : Type}.

Fixpoint star_loop (greedy : bool) (p : ascii → bool)
    (pv : option ascii) (s : string) (c : gmap nat string)
    (k : mstate → option A) : option A :=
  match s with
  | String a s' =>
      if p a then
        if greedy then
          match star_loop greedy p (Some a) s' c k with
          | Some res => Some res
          | None => k (MState pv s c)
          end
        else
          match k (MState pv s c) with
          | Some res => Some res
          | None => star_loop greedy p (Some a) s' c k
          end
      else k (MState pv s c)
  | EmptyString => k (MState pv s c)
  end.

Fixpoint run (r : regex) (st : mstate) (k : mstate → option A) : option A :=
  match r with
  | Eps => k st
  | Cls p =>
      match rest st with
      | String a s' => if p a then k (MState (Some a) s' (caps st)) else None
      | EmptyString => None
      end
  | Cat r1 r2 => run r1 st (λ st1, run r2 st1 k)
  | Alt r1 r2 =>
      match run r1 st k with
      | Some res => Some res
      | None => run r2 st k
      end
  | Star greedy p => star_loop greedy p (prev st) (rest st) (caps st) k
  | Grp n r' =>
      run r' st (λ st1,
        let text := take_str (Py.len (rest st) - Py.len (rest st1)) (rest st) in
        k (MState (prev st1) (rest st1) (<[n := text]> (caps st1))))
  | Bol => if prev st is None then k st else None
  | Wb => if xorb (wordish (prev st)) (wordish (head (rest st))) then k st else None
  end.
End Matcher.

(** [p+] *)
Definition Plus (p : ascii → bool) : regex := Cat (Cls p) (Star true p).

(** A literal text. *)
Fixpoint Lit (s : string) : regex :=
  match s with
  | EmptyString => Eps
  | String a s' => Cat (Cls (Py.is_char a)) (Lit s')
  end.

(** The match object: its groups. *)
Abbreviation groups := (gmap nat string).

(** [m.group(n)] of a group that took part in the match. *)
Definition group (n : nat) (g : groups) : string := default EmptyString (g !! n).

(** A match attempt at one position; the result is the final state. *)
Definition attempt (r : regex) (pv : option ascii) (s : string) : option mstate :=
  run r (MState pv s ∅) Some.

(** [re.match(r, s)] *)
Definition rmatch (r : regex) (s : string) : option groups :=
  caps <$> attempt r None s.

(** [re.search(r, s)]: the first position, from the left, with a match. *)
Fixpoint search_from (r : regex) (pv : option ascii) (s : string) : option groups :=
  match attempt r pv s with
  | Some st => Some (caps st)
  | None =>
      match s with
      | String a s' => search_from r (Some a) s'
      | EmptyString => None
      end
  end.

Definition search (r : regex) (s : string) : option groups := search_from r None s.

(** [re.findall(r, s)] for a pattern with one group: group 1 of the
    successive non-overlapping matches.  [skip] counts the characters
    still covered by the previous match.  The source only calls it with a
    pattern whose matches are never empty (see [var_ref_nonempty]); after an
    empty match the scan moves on by one character. *)
Fixpoint findall_from (r : regex) (skip : nat) (pv : option ascii) (s : string)
    : list string :=
  match skip with
  | S n =>
      match s with
      | String a s' => findall_from r n (Some a) s'
      | EmptyString => []
      end
  | O =>
      match attempt r pv s with
      | Some st =>
          group 1 (caps st) ::
          match s with
          | String a s' =>
              findall_from r (Py.len s - Py.len (rest st) - 1) (Some a) s'
          | EmptyString => []
          end
      | None =>
          match s with
          | String a s' => findall_from r 0 (Some a) s'
          | EmptyString => []
          end
      end
  end.

Definition findall (r : regex) (s : string) : list string := findall_from r 0 None s.

(** *** What a match is

    [Matches r pv w post c c']: after the character [pv], the pattern [r]
    matches the text [w], which is followed by [post], and turns the groups
    [c] into [c'].  The matcher [run] searches the derivations of this
    relation in the priority order of [re]. *)

(** The character before the position reached after reading [w]. *)
Fixpoint last_of (pv : option ascii) (w : string) : option ascii :=
  match w with
  | EmptyString => pv
  | String a w' => last_of (Some a) w'
  end.

Inductive Matches : regex → option ascii → string → string →
    gmap nat string → gmap nat string → Prop :=
| M_eps pv post c :
    Matches Eps pv EmptyString post c c
| M_cls p a pv post c :
    p a = true →
    Matches (Cls p) pv (String a EmptyString) post c c
| M_cat r1 r2 pv w1 w2 post c c1 c2 :
    Matches r1 pv w1 (w2 +:+ post) c c1 →
    Matches r2 (last_of pv w1) w2 post c1 c2 →
    Matches (Cat r1 r2) pv (w1 +:+ w2) post c c2
| M_alt_l r1 r2 pv w post c c1 :
    Matches r1 pv w post c c1 →
    Matches (Alt r1 r2) pv w post c c1
| M_alt_r r1 r2 pv w post c c2 :
    Matches r2 pv w post c c2 →
    Matches (Alt r1 r2) pv w post c c2
| M_star greedy p pv w post c :
    Py.all_chars p w = true →
    Matches (Star greedy p) pv w post c c
| M_grp n r pv w post c c1 :
    Matches r pv w post c c1 →
    Matches (Grp n r) pv w post c (<[n := w]> c1)
| M_bol post c :
    Matches Bol None EmptyString post c c
| M_wb pv post c :
    xorb (wordish pv) (wordish (head post)) = true →
    Matches Wb pv EmptyString post c c.

End Re.

(** ** The model of [talon_api.py] *)

Module Talon.
Import Re.

(** [r1 r2 ... rn] *)
Definition Seq (rs : list regex) : regex := foldr Cat Eps rs.

Definition matched {A : Type} (o : option A) : bool :=
  if o is Some _ then true else false.

Definition sp : ascii → bool := Py.is_space.
Definition w : ascii → bool := Py.is_word.

(** *** PYTHON_BUILTINS (lines 23-30) *)
Definition PYTHON_BUILTINS : gset string :=
  list_to_set
    [ "True"; "False"; "None"; "print"; "len"; "str"; "int"; "float"; "bool";
      "list"; "dict"; "set"; "tuple"; "range"; "sum"; "min"; "max"; "abs";
      "round"; "sorted"; "reversed"; "enumerate"; "zip"; "map"; "filter";
      "any"; "all"; "open"; "input"; "type"; "isinstance"; "hasattr";
      "getattr"; "setattr"; "delattr"; "callable"; "iter"; "next";
      "Exception"; "ValueError"; "TypeError"; "KeyError"; "IndexError" ].

(** *** The context dict of [analyze_code_context] (lines 96-104) *)
Record Context : Type := MkContext {
  defined_vars : gset string;
  imported_modules : gset string;
  functions : gset string;
  classes : gset string;
  loop_vars : gmap nat (gset string);      (* line -> set of vars *)
  function_params : gmap string (list string); (* function_name -> params *)
  imports : gmap string nat                (* module -> line *)
}.

Definition empty_context : Context := MkContext ∅ ∅ ∅ ∅ ∅ ∅ ∅.

Definition add_defined_var (x : string) (c : Context) : Context :=
  MkContext ({[x]} ∪ defined_vars c) (imported_modules c) (functions c)
    (classes c) (loop_vars c) (function_params c) (imports c).

Definition add_imported_module (x : string) (c : Context) : Context :=
  MkContext (defined_vars c) ({[x]} ∪ imported_modules c) (functions c)
    (classes c) (loop_vars c) (function_params c) (imports c).

Definition add_function (x : string) (c : Context) : Context :=
  MkContext (defined_vars c) (imported_modules c) ({[x]} ∪ functions c)
    (classes c) (loop_vars c) (function_params c) (imports c).

Definition add_class (x : string) (c : Context) : Context :=
  MkContext (defined_vars c) (imported_modules c) (functions c)
    ({[x]} ∪ classes c) (loop_vars c) (function_params c) (imports c).

(** [if i not in loop_vars: loop_vars[i] = set()] then [loop_vars[i].add(x)] *)
Definition add_loop_var (i : nat) (x : string) (c : Context) : Context :=
  MkContext (defined_vars c) (imported_modules c) (functions c) (classes c)
    (<[i := {[x]} ∪ default ∅ (loop_vars c !! i)]> (loop_vars c))
    (function_params c) (imports c).

Definition set_function_params (f : string) (ps : list string) (c : Context)
    : Context :=
  MkContext (defined_vars c) (imported_modules c) (functions c) (classes c)
    (loop_vars c) (<[f := ps]> (function_params c)) (imports c).

Definition set_import_line (m : string) (i : nat) (c : Context) : Context :=
  MkContext (defined_vars c) (imported_modules c) (functions c) (classes c)
    (loop_vars c) (function_params c) (<[m := i]> (imports c)).

(** *** The patterns of [analyze_code_context] *)

(** Line 119: [^ import \s+ ( \w+ )] *)
Definition re_import : regex :=
  Seq [Bol; Lit "import"; Plus sp; Grp 1 (Plus w)].

(** Line 125: [^ from \s+ ( \w+ ) \s+ import \s+ ( .+ )] *)
Definition re_from_import : regex :=
  Seq [Bol; Lit "from"; Plus sp; Grp 1 (Plus w); Plus sp; Lit "import";
       Plus sp; Grp 2 (Plus Py.is_dot)].

(** Line 134: [^ def \s+ ( \w+ ) \s* \( ( .*? ) \) :] *)
Definition re_func : regex :=
  Seq [Bol; Lit "def"; Plus sp; Grp 1 (Plus w); Star true sp; Lit "(";
       Grp 2 (Star false Py.is_dot); Lit "):"].

(** Line 155: [^ class \s+ ( \w+ )] *)
Definition re_class : regex :=
  Seq [Bol; Lit "class"; Plus sp; Grp 1 (Plus w)].

(** Line 162: [^ for \s+ ( \w+ ) \s+ in \s+] *)
Definition re_for : regex :=
  Seq [Bol; Lit "for"; Plus sp; Grp 1 (Plus w); Plus sp; Lit "in"; Plus sp].

(** Line 171: [^ ( \w+ ) \s* =] *)
Definition re_assign : regex :=
  Seq [Bol; Grp 1 (Plus w); Star true sp; Lit "="].

(** Line 177: [^ ( [^=]+ ) =] *)
Definition re_multi_assign : regex :=
  Seq [Bol; Grp 1 (Plus (Py.not_char "=")); Lit "="].

(** The line filter shared by both passes:
    [if not stripped or stripped.startswith('#'): continue] *)
Definition skipped (line : string) : bool :=
  let stripped := Py.strip line in
  bool_decide (stripped = "") || Py.startswith "#" stripped.

(** One round of the parameter loop (lines 145-151): the state is the
    parameter list so far and the defined names. *)
Definition param_step (acc : list string * gset string) (param : string)
    : list string * gset string :=
  let param := Py.strip param in
  let param :=
    if Py.contains "=" param
    then Py.strip (hd "" (Py.split "=" param))
    else param in
  if bool_decide (param ≠ "") && bool_decide (param ≠ "self")
  then (acc.1 ++ [param], {[param]} ∪ acc.2)
  else acc.

Definition parse_params (params : string) (dv : gset string)
    : list string * gset string :=
  foldl param_step ([], dv) (Py.split "," params).

(** Import statements (lines 119-123). *)
Definition ctx_import (i : nat) (stripped : string) (c : Context) : Context :=
  match rmatch re_import stripped with
  | Some m =>
      let module := group 1 m in
      set_import_line module i (add_imported_module module c)
  | None => c
  end.

(** From-imports (lines 125-131). *)
Definition ctx_from_import (stripped : string) (c : Context) : Context :=
  match rmatch re_from_import stripped with
  | Some m =>
      let module := group 1 m in
      let imports := Py.split "," (group 2 m) in
      foldl (λ c imp, add_defined_var (Py.strip imp) c)
            (add_imported_module module c) imports
  | None => c
  end.

(** Function definitions (lines 134-152). *)
Definition ctx_func (stripped : string) (c : Context) : Context :=
  match rmatch re_func stripped with
  | Some m =>
      let func_name := group 1 m in
      let params := group 2 m in
      let c := add_defined_var func_name (add_function func_name c) in
      if bool_decide (params ≠ "") then
        let '(param_list, dv) := parse_params params (defined_vars c) in
        set_function_params func_name param_list
          (MkContext dv (imported_modules c) (functions c) (classes c)
             (loop_vars c) (function_params c) (imports c))
      else c
  | None => c
  end.

(** Class definitions (lines 155-159). *)
Definition ctx_class (stripped : string) (c : Context) : Context :=
  match rmatch re_class stripped with
  | Some m =>
      let class_name := group 1 m in
      add_defined_var class_name (add_class class_name c)
  | None => c
  end.

(** For loops (lines 162-168). *)
Definition ctx_for (i : nat) (stripped : string) (c : Context) : Context :=
  match rmatch re_for stripped with
  | Some m =>
      let loop_var := group 1 m in
      add_loop_var i loop_var (add_defined_var loop_var c)
  | None => c
  end.

(** Variable assignments (lines 171-174). *)
Definition ctx_assign (stripped : string) (c : Context) : Context :=
  match rmatch re_assign stripped with
  | Some m => add_defined_var (group 1 m) c
  | None => c
  end.

(** Multiple assignments (lines 177-185). *)
Definition ctx_multi_assign (stripped : string) (c : Context) : Context :=
  match rmatch re_multi_assign stripped with
  | Some m =>
      let left_side := group 1 m in
      if Py.contains "," left_side then
        foldl (λ c var,
                 let var := Py.strip var in
                 if bool_decide (var ≠ "") && Py.isidentifier var
                 then add_defined_var var c else c)
              c (Py.split "," left_side)
      else c
  | None => c
  end.

(** The body of the loop over the lines (lines 110-185).  The locals
    [indent], [current_indent] and [in_function] of the source are written
    but never read, and are left out. *)
Definition analyze_line (i : nat) (line : string) (c : Context) : Context :=
  let stripped := Py.strip line in
  if skipped line then c
  else
    ctx_multi_assign stripped
      (ctx_assign stripped
        (ctx_for i stripped
          (ctx_class stripped
            (ctx_func stripped
              (ctx_from_import stripped
                (ctx_import i stripped c)))))).

(** [for i, line in enumerate(lines)], from index [i] on. *)
Fixpoint analyze_loop (i : nat) (lines : list string) (c : Context) : Context :=
  match lines with
  | [] => c
  | line :: lines' => analyze_loop (S i) lines' (analyze_line i line c)
  end.

Definition analyze_code_context (code : string) : Context :=
  analyze_loop 0 (Py.split_lines code) empty_context.

(** *** Diagnostics and fix descriptors

    Both are dicts in the source.  A record field of type [option] is a key
    that a dict may lack; reading a missing key is a [KeyError]. *)
Record Fix : Type := MkFix {
  fix_type : string;
  fix_line : nat;
  fix_new_line : option string;
  fix_var : option string;
  fix_original : option string;
  fix_filename : option string
}.

Record Diagnostic : Type := MkDiagnostic {
  d_type : string;
  d_message : string;
  d_line : nat;
  d_column : nat;
  d_prevention : string;
  d_fix : option Fix
}.

(** *** The patterns of [detect_errors_with_context] *)

(** Line 200: [^ ( \s* ) import \s+ ( \w+ )], matched against the raw line. *)
Definition re_import_line : regex :=
  Seq [Bol; Grp 1 (Star true sp); Lit "import"; Plus sp; Grp 2 (Plus w)].

(** Line 218: [( \w+ ) \. ( \w+ )] *)
Definition re_none_attr : regex :=
  Seq [Grp 1 (Plus w); Lit "."; Grp 2 (Plus w)].

(** Line 239: [\b ( [a-zA-Z_] \w* ) \b] *)
Definition re_var_ref : regex :=
  Seq [Wb; Grp 1 (Cat (Cls Py.is_alpha_) (Star true w)); Wb].

(** Line 251: [\. {var} \b].  [var] is a token of [re_var_ref], made of
    word characters only, so it stands for itself in the pattern. *)
Definition re_method (var : string) : regex :=
  Seq [Lit "."; Lit var; Wb].

(** Line 255: [^ ( def | class ) \s+ {var}] *)
Definition re_def_of (var : string) : regex :=
  Seq [Bol; Grp 1 (Alt (Lit "def") (Lit "class")); Plus sp; Lit var].

(** Line 259: [^ {var} \s* =] and [^ for \s+ {var} \s+ in] *)
Definition re_assign_of (var : string) : regex :=
  Seq [Bol; Lit var; Star true sp; Lit "="].
Definition re_for_of (var : string) : regex :=
  Seq [Bol; Lit "for"; Plus sp; Lit var; Plus sp; Lit "in"].

(** Line 263: [Q .* {var} .* Q], where [Q] is the class of the two quote
    characters. *)
Definition re_quoted (var : string) : regex :=
  Seq [Cls Py.is_quote; Star true Py.is_dot; Lit var; Star true Py.is_dot;
       Cls Py.is_quote].

(** Line 282: [/ \s* ( \w+ | \d+ )] *)
Definition re_div : regex :=
  Seq [Lit "/"; Star true sp; Grp 1 (Alt (Plus w) (Plus Py.is_digit))].

(** Line 300: [open \s* \( \s* Q ( [^Q]+ ) Q], where [Q] is the class of
    the two quote characters. *)
Definition re_open : regex :=
  Seq [Lit "open"; Star true sp; Lit "("; Star true sp; Cls Py.is_quote;
       Grp 1 (Plus Py.not_quote); Cls Py.is_quote].

(** The list of line 203. *)
Definition known_modules : list string :=
  ["pandas"; "numpy"; "requests"; "matplotlib"; "seaborn"; "scipy"; "sklearn"].

(** [any(needle in prev_line for prev_line in lines[:i])] *)
Definition any_earlier (needle : string) (lines : list string) (i : nat) : bool :=
  existsb (Py.contains needle) (take i lines).

(** Import errors (lines 200-215). *)
Definition detect_import (i : nat) (line : string) : list Diagnostic :=
  match rmatch re_import_line line with
  | Some m =>
      let indent := group 1 m in
      let module := group 2 m in
      if bool_decide (module ∈ known_modules) then
        [ MkDiagnostic "ModuleNotFoundError"
            ("Module '" +:+ module +:+ "' might not be installed")
            i (Py.len indent)
            ("Use 'pip install " +:+ module +:+ "'")
            (Some (MkFix "add_comment" i
                     (Some (line +:+ "  # Run: pip install " +:+ module))
                     None None None)) ]
      else []
  | None => []
  end.

(** None attribute access (lines 218-235). *)
Definition detect_none_attr (lines : list string) (i : nat) (line : string)
    : option (list Diagnostic) :=
  match search re_none_attr line with
  | Some m =>
      let var := group 1 m in
      if any_earlier (var +:+ " = None") lines i then
        column ← Py.index var line;
        Some [ MkDiagnostic "AttributeError"
                 ("'" +:+ var +:+ "' might be None")
                 i column
                 "Check if object is None first"
                 (Some (MkFix "wrap_with_check" i None (Some var) (Some line) None)) ]
      else Some []
  | None => Some []
  end.

(** The first test of the token loop (lines 243-247). *)
Definition known_entity (c : Context) (var : string) : bool :=
  bool_decide (var ∈ defined_vars c) ||
  bool_decide (var ∈ imported_modules c) ||
  bool_decide (var ∈ functions c) ||
  bool_decide (var ∈ classes c) ||
  bool_decide (var ∈ PYTHON_BUILTINS).

(** The five [continue] tests of the token loop (lines 243-264). *)
Definition excluded (c : Context) (line stripped var : string) : bool :=
  known_entity c var ||
  matched (search (re_method var) line) ||
  matched (rmatch (re_def_of var) stripped) ||
  (matched (rmatch (re_assign_of var) stripped) ||
   matched (rmatch (re_for_of var) stripped)) ||
  matched (search (re_quoted var) line).

(** [for var in var_refs] (lines 241-279): the first token that passes
    every test is reported, and [break] ends the loop. *)
Fixpoint undefined_loop (c : Context) (i : nat) (line stripped : string)
    (var_refs : list string) : option (list Diagnostic) :=
  match var_refs with
  | [] => Some []
  | var :: var_refs' =>
      if excluded c line stripped var
      then undefined_loop c i line stripped var_refs'
      else
        column ← (if Py.contains var line then Py.index var line else Some 0);
        Some [ MkDiagnostic "NameError"
                 ("'" +:+ var +:+ "' is not defined")
                 i column
                 "Define variable before use"
                 (Some (MkFix "define_variable" i None (Some var) None None)) ]
  end.

(** Undefined variables (lines 239-279). *)
Definition detect_undefined (c : Context) (i : nat) (line : string)
    : option (list Diagnostic) :=
  undefined_loop c i line (Py.strip line) (findall re_var_ref line).

(** Division by zero (lines 282-297). *)
Definition detect_division (lines : list string) (i : nat) (line : string)
    : option (list Diagnostic) :=
  match search re_div line with
  | Some m =>
      let divisor := group 1 m in
      if bool_decide (divisor = "0") || any_earlier (divisor +:+ " = 0") lines i then
        column ← Py.index "/" line;
        Some [ MkDiagnostic "ZeroDivisionError"
                 "Possible division by zero"
                 i column
                 "Check divisor before division"
                 (Some (MkFix "wrap_division" i None None (Some line) None)) ]
      else Some []
  | None => Some []
  end.

(** File operations (lines 300-314). *)
Definition detect_file (i : nat) (line : string) : option (list Diagnostic) :=
  match search re_open line with
  | Some m =>
      let filename := group 1 m in
      column ← Py.index "open" line;
      Some [ MkDiagnostic "FileNotFoundError"
               ("File '" +:+ filename +:+ "' might not exist")
               i column
               "Check file exists before opening"
               (Some (MkFix "safe_file_open" i None None None (Some filename))) ]
  | None => Some []
  end.

(** The body of the loop over the lines (lines 194-314): the diagnostics
    appended for line [i]. *)
Definition detect_line (c : Context) (lines : list string) (i : nat)
    (line : string) : option (list Diagnostic) :=
  if skipped line then Some []
  else
    let e1 := detect_import i line in
    e2 ← detect_none_attr lines i line;
    e3 ← detect_undefined c i line;
    e4 ← detect_division lines i line;
    e5 ← detect_file i line;
    Some (e1 ++ e2 ++ e3 ++ e4 ++ e5).

(** [for i, line in enumerate(lines)], from index [i] on. *)
Fixpoint detect_loop (c : Context) (lines : list string) (i : nat)
    (todo : list string) : option (list Diagnostic) :=
  match todo with
  | [] => Some []
  | line :: todo' =>
      es ← detect_line c lines i line;
      more ← detect_loop c lines (S i) todo';
      Some (es ++ more)
  end.

Definition detect_errors_with_context (code : string) (c : Context)
    : option (list Diagnostic) :=
  let lines := Py.split_lines code in
  detect_loop c lines 0 lines.

(** *** The rewrite engine *)

(** [get_line_indent] (lines 420-422) *)
Definition get_line_indent (line : string) : nat :=
  Py.len line - Py.len (Py.lstrip line).

(** Line 414: [^ ( def | class ) \s+] *)
Definition re_block_header : regex :=
  Seq [Bol; Grp 1 (Alt (Lit "def") (Lit "class")); Plus sp].

(** [for i in range(error_line - 1, -1, -1)] (lines 402-418): [n] is the
    number of lines still to visit, the next one is [lines[n - 1]]. *)
Fixpoint find_insertion_loop (lines : list string) (current_indent n : nat)
    : option nat :=
  match n with
  | O => Some 0
  | S i =>
      line ← lines !! i;
      if bool_decide (Py.strip line = "")
      then find_insertion_loop lines current_indent i
      else
        let line_indent := get_line_indent line in
        if line_indent <? current_indent then Some (i + 1)
        else if (line_indent =? current_indent)
                && matched (rmatch re_block_header (Py.strip line))
        then Some (i + 1)
        else find_insertion_loop lines current_indent i
  end.

(** [find_insertion_point] (lines 397-418) *)
Definition find_insertion_point (lines : list string) (error_line : nat)
    : option nat :=
  line ← lines !! error_line;
  find_insertion_loop lines (get_line_indent line) error_line.

(** [l.insert(n, x)]: an index past the end appends. *)
Definition list_insert_at {A : Type} (n : nat) (x : A) (l : list A) : list A :=
  take n l ++ x :: drop n l.

(** [l[n:n+1] = xs] *)
Definition list_splice {A : Type} (n : nat) (xs : list A) (l : list A) : list A :=
  take n l ++ xs ++ drop (S n) l.

(** [l[n] = x]; [None] is the [IndexError] of an index past the end. *)
Definition list_assign {A : Type} (n : nat) (x : A) (l : list A)
    : option (list A) :=
  if bool_decide (n < length l) then Some (<[n := x]> l) else None.

(** [sorted(errors, key=lambda x: x['line'], reverse=True)] (line 327):
    descending in [line] and stable, so that diagnostics of one line keep
    the order of the scan. *)
Fixpoint insert_by_line (e : Diagnostic) (l : list Diagnostic) : list Diagnostic :=
  match l with
  | [] => [e]
  | e' :: l' =>
      if d_line e' <=? d_line e then e :: l else e' :: insert_by_line e l'
  end.

Definition sort_by_line_desc (errors : list Diagnostic) : list Diagnostic :=
  foldr insert_by_line [] errors.

(** The state of the loop of [apply_smart_fixes]: the line buffer and the
    two sets of lines 323-324. *)
Record FixState : Type := MkFixState {
  buf : list string;
  added_imports : gset string;
  fs_defined_vars : gset string
}.

Definition indent_str_of (original_line : string) : string :=
  Py.repeat_char " " (Py.len original_line - Py.len (Py.lstrip original_line)).

(** The body of the loop (lines 330-393). *)
Definition apply_fix (c : Context) (st : FixState) (error : Diagnostic)
    : option FixState :=
  match d_fix error with
  | None => Some st
  | Some fx =>
      let line_num := d_line error in
      if bool_decide (fix_type fx = "add_comment") then
        new_line ← fix_new_line fx;
        lines ← list_assign line_num new_line (buf st);
        Some (MkFixState lines (added_imports st) (fs_defined_vars st))
      else if bool_decide (fix_type fx = "wrap_with_check") then
        var ← fix_var fx;
        original_line ← buf st !! line_num;
        let indent_str := indent_str_of original_line in
        let new_lines :=
          [ indent_str +:+ "if " +:+ var +:+ " is not None:";
            indent_str +:+ "    " +:+ Py.strip original_line;
            indent_str +:+ "else:";
            indent_str +:+ "    print(f'Error: " +:+ var +:+ " is None')" ] in
        Some (MkFixState (list_splice line_num new_lines (buf st))
                (added_imports st) (fs_defined_vars st))
      else if bool_decide (fix_type fx = "define_variable") then
        var ← fix_var fx;
        if bool_decide (var ∉ fs_defined_vars st)
           && bool_decide (var ∉ defined_vars c) then
          insert_line ← find_insertion_point (buf st) line_num;
          line ← buf st !! line_num;
          let indent := get_line_indent line in
          Some (MkFixState
                  (list_insert_at insert_line
                     (Py.repeat_char " " indent +:+ var
                        +:+ " = None  # TODO: Initialize this variable")
                     (buf st))
                  (added_imports st) ({[var]} ∪ fs_defined_vars st))
        else Some st
      else if bool_decide (fix_type fx = "wrap_division") then
        original_line ← buf st !! line_num;
        let indent_str := indent_str_of original_line in
        let new_lines :=
          [ indent_str +:+ "try:";
            indent_str +:+ "    " +:+ Py.strip original_line;
            indent_str +:+ "except ZeroDivisionError:";
            indent_str +:+ "    result = 0  # Handle division by zero" ] in
        Some (MkFixState (list_splice line_num new_lines (buf st))
                (added_imports st) (fs_defined_vars st))
      else if bool_decide (fix_type fx = "safe_file_open") then
        let st :=
          if bool_decide ("os" ∉ imported_modules c)
             && bool_decide ("os" ∉ added_imports st)
          then MkFixState (list_insert_at 0 "import os" (buf st))
                 ({["os"]} ∪ added_imports st) (fs_defined_vars st)
          else st in
        original_line ← buf st !! line_num;
        let indent_str := indent_str_of original_line in
        filename ← fix_filename fx;
        let safe_lines :=
          [ indent_str +:+ "if os.path.exists('" +:+ filename +:+ "'):";
            indent_str +:+ "    " +:+ Py.strip original_line;
            indent_str +:+ "else:";
            indent_str +:+ "    print(f'File not found: " +:+ filename +:+ "')" ] in
        Some (MkFixState (list_splice line_num safe_lines (buf st))
                (added_imports st) (fs_defined_vars st))
      else Some st
  end.

(** [for error in errors_by_line] *)
Fixpoint apply_loop (c : Context) (st : FixState) (errors : list Diagnostic)
    : option FixState :=
  match errors with
  | [] => Some st
  | error :: errors' =>
      st' ← apply_fix c st error;
      apply_loop c st' errors'
  end.

(** [apply_smart_fixes] (lines 318-395); [None] stands for a raised
    exception. *)
Definition apply_smart_fixes (code : string) (errors : list Diagnostic)
    (c : Context) : option string :=
  let lines := Py.split_lines code in
  let errors_by_line := sort_by_line_desc errors in
  st ← apply_loop c (MkFixState lines ∅ ∅) errors_by_line;
  Some (Py.join_lines (buf st)).

(** The pipeline of [analyze_code] (lines 73-79) with [fix_errors] set:
    build the context, scan, rewrite.  [if fix_errors and errors] keeps the
    text when there is no diagnostic.  The request handling around it (the
    rejection of an empty text on line 51, the usage counter, the JSON
    response) is not part of the model. *)
Definition scan (code : string) : option (list Diagnostic) :=
  detect_errors_with_context code (analyze_code_context code).

Definition analyze_and_fix (code : string) : option string :=
  errors ← scan code;
  if bool_decide (errors = []) then Some code
  else apply_smart_fixes code errors (analyze_code_context code).

End Talon.

(** ** Vocabulary of the properties *)

Module Props.
Import Re Talon.

(** A non-empty run of word characters: what [\w+] matches. *)
Definition is_name (s : string) : Prop :=
  s ≠ "" ∧ Py.all_chars Py.is_word s = true.

(** [line] holds the attribute access [name.attr] right after [pre]. *)
Definition attr_access (line pre name attr post : string) : Prop :=
  line = pre +:+ name +:+ "." +:+ attr +:+ post ∧ is_name name ∧ is_name attr.

(** The identifier a diagnostic is about: the [var] key of its fix. *)
Definition diag_var (d : Diagnostic) : option string := d_fix d ≫= fix_var.

(** The diagnostics of one kind reported for one line. *)
Definition reported (ty : string) (i : nat) (ds : list Diagnostic)
    : list Diagnostic :=
  filter (λ d, d_type d = ty ∧ d_line d = i) ds.

(** The first token of the line, in the order of [re.findall], that passes
    the five tests of the token loop. *)
Definition first_surviving (c : Context) (line : string) : option string :=
  List.find (λ var, negb (excluded c line (Py.strip line) var))
            (findall re_var_ref line).

(** The names a context knows: the four sets the token loop consults. *)
Definition Known (c : Context) (x : string) : Prop :=
  x ∈ defined_vars c ∨ x ∈ imported_modules c ∨ x ∈ functions c ∨ x ∈ classes c.

(** The known names of [c] are known in [c']. *)
Definition ctx_le (c c' : Context) : Prop :=
  defined_vars c ⊆ defined_vars c' ∧ imported_modules c ⊆ imported_modules c' ∧
  functions c ⊆ functions c' ∧ classes c ⊆ classes c'.

(** [BindsStripped stripped x]: one of the recognizers of
    [analyze_code_context] matches the stripped line and binds [x]. *)
Inductive BindsStripped (stripped x : string) : Prop :=
| B_import m :
    rmatch re_import stripped = Some m → x = group 1 m →
    BindsStripped stripped x
| B_from_module m :
    rmatch re_from_import stripped = Some m → x = group 1 m →
    BindsStripped stripped x
| B_from_name m imp :
    rmatch re_from_import stripped = Some m →
    imp ∈ Py.split "," (group 2 m) → x = Py.strip imp →
    BindsStripped stripped x
| B_func m :
    rmatch re_func stripped = Some m → x = group 1 m →
    BindsStripped stripped x
| B_param m :
    rmatch re_func stripped = Some m → group 2 m ≠ "" →
    x ∈ (parse_params (group 2 m) ∅).1 →
    BindsStripped stripped x
| B_class m :
    rmatch re_class stripped = Some m → x = group 1 m →
    BindsStripped stripped x
| B_for m :
    rmatch re_for stripped = Some m → x = group 1 m →
    BindsStripped stripped x
| B_assign m :
    rmatch re_assign stripped = Some m → x = group 1 m →
    BindsStripped stripped x
| B_tuple m seg :
    rmatch re_multi_assign stripped = Some m →
    Py.contains "," (group 1 m) = true →
    seg ∈ Py.split "," (group 1 m) → x = Py.strip seg →
    x ≠ "" → Py.isidentifier x = true →
    BindsStripped stripped x.

(** A line that the context builder reads and that binds [x]. *)
Definition Binds (line x : string) : Prop :=
  skipped line = false ∧ BindsStripped (Py.strip line) x.

(** The fix kinds that [apply_smart_fixes] dispatches on. *)
Definition fix_kinds : list string :=
  ["add_comment"; "wrap_with_check"; "define_variable"; "wrap_division";
   "safe_file_open"].

Definition recognized (fx : Fix) : bool := bool_decide (fix_type fx ∈ fix_kinds).

(** A diagnostic whose fix has none of the five kinds. *)
Definition unrecognized (d : Diagnostic) : bool :=
  match d_fix d with
  | Some fx => negb (recognized fx)
  | None => false
  end.

(** The keys that the branch of a fix kind reads. *)
Definition has_keys (fx : Fix) : Prop :=
  (fix_type fx = "add_comment" → is_Some (fix_new_line fx)) ∧
  (fix_type fx = "wrap_with_check" → is_Some (fix_var fx)) ∧
  (fix_type fx = "define_variable" → is_Some (fix_var fx)) ∧
  (fix_type fx = "safe_file_open" → is_Some (fix_filename fx)).

(** A well-formed diagnostic for a text of [n] lines: a fix of a known
    kind has the keys of its kind and its diagnostic points to a line of
    the text. *)
Definition wf_diag (n : nat) (d : Diagnostic) : Prop :=
  ∀ fx, d_fix d = Some fx → recognized fx = true → d_line d < n ∧ has_keys fx.

(** The diagnostics of kind [ty] for line [i], with a fix of kind [fk]
    that has the keys of its kind. *)
Definition of_kind (ty fk : string) (i : nat) (d : Diagnostic) : Prop :=
  d_type d = ty ∧ d_line d = i ∧
  ∃ fx, d_fix d = Some fx ∧ fix_type fx = fk ∧ has_keys fx.

(** A list of diagnostics in descending order of line. *)
Definition desc_lines (l : list Diagnostic) : Prop :=
  StronglySorted (λ e1 e2, d_line e2 ≤ d_line e1) l.

Definition line_count (code : string) : nat := length (Py.split_lines code).

End Props.

(** ** The request handler [analyze_code] (lines 41-92)

    The handler is modelled on the parsed request: the route accepts the
    methods POST and OPTIONS only, and the outcome of [request.json] is part
    of the request.
    The month of [datetime.now()] is a parameter, and the module-level dict
    [user_db] is passed in and out. *)

Module Api.
Import Talon.

(** The value of [data.get('code', '')]. *)
Inductive CodeField : Type :=
| CodeMissing                  (* no 'code' key: the default '' *)
| CodeText (s : string)        (* a JSON string *)
| CodeOther (truthy : bool).   (* any other JSON value, with its truth value *)

(** The outcome of lines 47-49.  [request.json] raises when the body does
    not parse.  A falsy value ([None], an empty object, [0], ...) is replaced
    by the empty object by [or {}]; a truthy value that is no object has no
    [get] method, and line 48 raises.  On an object the two [get] calls give
    the value of ['code'] and the truth value of ['fix_errors']. *)
Inductive Body : Type :=
| BodyRaises                                 (* line 47 raises *)
| BodyNotObject                              (* line 48 raises *)
| BodyObject (code : CodeField) (fix_flag : bool). (* a JSON object *)

Record Request : Type := MkRequest {
  is_options : bool;               (* request.method == 'OPTIONS' *)
  body : Body;                     (* request.json *)
  remote_addr : string;            (* request.remote_addr *)
  authorization : option string    (* request.headers.get('Authorization') *)
}.

(** Lines 47-48 raise. *)
Definition body_fails (req : Request) : bool :=
  match body req with
  | BodyObject _ _ => false
  | _ => true
  end.

(** [data.get('code', '')] and the truth value of
    [data.get('fix_errors', False)], for a body that is an object. *)
Definition code_field (req : Request) : CodeField :=
  match body req with
  | BodyObject code _ => code
  | _ => CodeMissing
  end.

Definition fix_errors (req : Request) : bool :=
  match body req with
  | BodyObject _ fix_flag => fix_flag
  | _ => false
  end.

(** The responses of the handler: [('', 204)], an error body with its
    status, and the analysis body (status 200). *)
Inductive Response : Type :=
| NoContent
| Failure (status : nat) (error : string) (upgrade_url : option string)
| Analysis (errors : list Diagnostic) (analyzed_lines : nat) (tier : string)
    (usage : nat) (fixed_code : option string) (fixes_applied : nat).

(** [not code] *)
Definition code_is_falsy (cf : CodeField) : bool :=
  match cf with
  | CodeMissing => true
  | CodeText s => bool_decide (s = "")
  | CodeOther truthy => negb truthy
  end.

(** [not auth] *)
Definition auth_is_falsy (auth : option string) : bool :=
  match auth with
  | None => true
  | Some s => bool_decide (s = "")
  end.

Definition upgrade_url : string :=
  "https://marketplace.visualstudio.com/items?itemName=talon.error-prevention".

(** [f"{user_id}:{current_month}"] (line 57) *)
Definition user_key_of (user_id current_month : string) : string :=
  user_id +:+ ":" +:+ current_month.

(** Lines 73-79 on a text: the diagnostics and [fixed_code].  [None] is an
    exception raised by one of the three passes. *)
Definition analyze_text (code : string) (fix_errors : bool)
    : option (list Diagnostic * string) :=
  let context := analyze_code_context code in
  errors ← detect_errors_with_context code context;
  if fix_errors && negb (bool_decide (errors = [])) then
    fixed_code ← apply_smart_fixes code errors context;
    Some (errors, fixed_code)
  else Some (errors, code).

(** Lines 73-88.  A [code] that is not a string has no [split] method: the
    first pass raises. *)
Definition analysis_response (cf : CodeField) (fix_errors : bool) (usage : nat)
    : option Response :=
  match cf with
  | CodeText code =>
      '(errors, fixed_code) ← analyze_text code fix_errors;
      Some (Analysis errors (length (Py.split_lines code)) "free" usage
              (if fix_errors then Some fixed_code else None)
              (if fix_errors then length errors else 0))
  | _ => None
  end.

(** [analyze_code] (lines 42-92): the response and the new [user_db].  An
    exception of lines 47-48 is caught on line 90, before the counter is
    touched. *)
Definition analyze_code (current_month : string) (req : Request)
    (user_db : gmap string nat) : Response * gmap string nat :=
  if is_options req then (NoContent, user_db)
  else if body_fails req
  then (Failure 500 "Analysis failed" None, user_db)
  else if code_is_falsy (code_field req)
  then (Failure 400 "No code provided" None, user_db)
  else
    let user_key := user_key_of (remote_addr req) current_month in
    let user_db :=
      if bool_decide (user_key ∈ dom user_db) then user_db
      else <[user_key := 0]> user_db in
    let count := default 0 (user_db !! user_key) in
    if (100 <=? count) && auth_is_falsy (authorization req)
    then (Failure 429 "Free tier limit reached" (Some upgrade_url), user_db)
    else
      let user_db := <[user_key := count + 1]> user_db in
      match analysis_response (code_field req) (fix_errors req) (count + 1) with
      | Some response => (response, user_db)
      | None => (Failure 500 "Analysis failed" None, user_db)
      end.

(** The handler on a sequence of requests, oldest first, all in one month:
    the responses and the final [user_db]. *)
Fixpoint serve (current_month : string) (reqs : list Request)
    (user_db : gmap string nat) : list Response * gmap string nat :=
  match reqs with
  | [] => ([], user_db)
  | req :: reqs' =>
      let '(response, user_db') := analyze_code current_month req user_db in
      let '(responses, user_db'') := serve current_month reqs' user_db' in
      (response :: responses, user_db'')
  end.

End Api.

(** ** Vocabulary of the further properties *)

Module MoreProps.
Import Re Talon Props Api.

(** The rank of a detector in the body of the scan loop. *)
Definition kind_rank (ty : string) : nat :=
  if bool_decide (ty = "ModuleNotFoundError") then 0
  else if bool_decide (ty = "AttributeError") then 1
  else if bool_decide (ty = "NameError") then 2
  else if bool_decide (ty = "ZeroDivisionError") then 3
  else if bool_decide (ty = "FileNotFoundError") then 4
  else 5.

(** [d1] comes before [d2] in scan order: an earlier line, or the same line
    and an earlier detector. *)
Definition scan_before (d1 d2 : Diagnostic) : Prop :=
  d_line d1 < d_line d2 ∨
  (d_line d1 = d_line d2 ∧ kind_rank (d_type d1) < kind_rank (d_type d2)).

(** The diagnostic types with the fix kind of each. *)
Definition fix_kind_of : list (string * string) :=
  [ ("ModuleNotFoundError", "add_comment");
    ("AttributeError", "wrap_with_check");
    ("NameError", "define_variable");
    ("ZeroDivisionError", "wrap_division");
    ("FileNotFoundError", "safe_file_open") ].

(** [d] is a diagnostic of one of the five detectors for line [i]. *)
Inductive diag_of (c : Context) (lines : list string) (i : nat) (line : string)
    (d : Diagnostic) : Prop :=
| D_import : d ∈ detect_import i line → diag_of c lines i line d
| D_none_attr es : detect_none_attr lines i line = Some es → d ∈ es → diag_of c lines i line d
| D_undefined es : detect_undefined c i line = Some es → d ∈ es → diag_of c lines i line d
| D_division es : detect_division lines i line = Some es → d ∈ es → diag_of c lines i line d
| D_file es : detect_file i line = Some es → d ∈ es → diag_of c lines i line d.

(** The text that the column of a diagnostic points to. *)
Definition anchor (d : Diagnostic) : string :=
  if bool_decide (d_type d = "ModuleNotFoundError") then "import"
  else if bool_decide (d_type d = "ZeroDivisionError") then "/"
  else if bool_decide (d_type d = "FileNotFoundError") then "open"
  else default "" (diag_var d).

(** A line that the context builder reads as a [for] loop over [x], and as
    an [import] of [module]. *)
Definition for_line (line x : string) : Prop :=
  skipped line = false ∧
  ∃ m, rmatch re_for (Py.strip line) = Some m ∧ group 1 m = x.

Definition import_line (line module : string) : Prop :=
  skipped line = false ∧
  ∃ m, rmatch re_import (Py.strip line) = Some m ∧ group 1 m = module.

(** The sets and dicts of a context agree with each other. *)
Definition ctx_consistent (c : Context) : Prop :=
  functions c ⊆ defined_vars c ∧
  classes c ⊆ defined_vars c ∧
  (∀ i vs, loop_vars c !! i = Some vs → vs ⊆ defined_vars c) ∧
  (∀ f pl, function_params c !! f = Some pl →
     f ∈ functions c ∧ ∀ p, p ∈ pl → p ∈ defined_vars c ∧ p ≠ "" ∧ p ≠ "self") ∧
  (∀ m i, imports c !! m = Some i → m ∈ imported_modules c).

(** The test that ends the upward walk of [find_insertion_point] at a line
    (lines 404-415), for the indentation [cur] of the flagged line. *)
Definition walk_stops (cur : nat) (line : string) : bool :=
  negb (bool_decide (Py.strip line = "")) &&
  ((get_line_indent line <? cur) ||
   ((get_line_indent line =? cur) && matched (rmatch re_block_header (Py.strip line)))).

(** The four lines that a wrapping fix puts in place of a line: an opening
    line, the stripped original one level deeper, a middle line and a
    closing line, all behind the indentation of the original. *)
Definition wrap_block (original_line opening middle closing : string)
    : list string :=
  let indent_str := indent_str_of original_line in
  [ indent_str +:+ opening;
    indent_str +:+ "    " +:+ Py.strip original_line;
    indent_str +:+ middle;
    indent_str +:+ closing ].

(** A block of four lines around the statement of [orig]: the first and the
    third line at the indentation of [orig], the second and the fourth four
    columns deeper, the second being the statement of [orig]. *)
Definition is_block_of (orig : string) (block : list string) : Prop :=
  ∃ opening body middle closing,
    block = [opening; body; middle; closing] ∧
    get_line_indent opening = get_line_indent orig ∧
    get_line_indent body = get_line_indent orig + 4 ∧
    get_line_indent middle = get_line_indent orig ∧
    get_line_indent closing = get_line_indent orig + 4 ∧
    Py.strip body = Py.strip orig.

(** A diagnostic whose fix replaces a line by four. *)
Definition is_wrap (e : Diagnostic) : bool :=
  match d_fix e with
  | Some fx =>
      bool_decide (fix_type fx ∈ ["wrap_with_check"; "wrap_division"; "safe_file_open"])
  | None => false
  end.

Definition wrap_count (errors : list Diagnostic) : nat :=
  length (filter (λ e, is_wrap e = true) errors).

(** The name of a [define_variable] fix, and the names of the
    [define_variable] fixes of a list. *)
Definition defined_name (e : Diagnostic) : option string :=
  fx ← d_fix e;
  if bool_decide (fix_type fx = "define_variable") then fix_var fx else None.

Definition defined_names (errors : list Diagnostic) : gset string :=
  list_to_set (omap defined_name errors).

(** The rewrite of a list adds [import os]: the list has a
    [safe_file_open] fix and the context has no import of [os]. *)
Definition is_file_fix (e : Diagnostic) : bool :=
  match d_fix e with
  | Some fx => bool_decide (fix_type fx = "safe_file_open")
  | None => false
  end.

Definition needs_os (c : Context) (errors : list Diagnostic) : bool :=
  bool_decide ("os" ∉ imported_modules c) && existsb is_file_fix errors.

(** A fix of a known kind that lacks the key its branch reads. *)
Definition missing_key (fx : Fix) : Prop :=
  (fix_type fx = "add_comment" ∧ fix_new_line fx = None) ∨
  (fix_type fx = "wrap_with_check" ∧ fix_var fx = None) ∨
  (fix_type fx = "define_variable" ∧ fix_var fx = None) ∨
  (fix_type fx = "safe_file_open" ∧ fix_filename fx = None).

(** The fix kinds that read or assign [lines[line_num]] before any other
    change of the buffer. *)
Definition replaces_line (fx : Fix) : Prop :=
  fix_type fx = "add_comment" ∨ fix_type fx = "wrap_with_check" ∨
  fix_type fx = "wrap_division".

(** A string without a newline, and a diagnostic whose fix has only such
    strings under the keys that the rewrite reads. *)
Definition one_line (s : string) : Prop := Py.all_chars Py.is_dot s = true.

Definition one_line_fix (e : Diagnostic) : Prop :=
  ∀ fx, d_fix e = Some fx →
    (∀ s, fix_new_line fx = Some s → one_line s) ∧
    (∀ s, fix_var fx = Some s → one_line s) ∧
    (∀ s, fix_filename fx = Some s → one_line s).

Definition is_analysis (r : Response) : bool :=
  match r with Analysis _ _ _ _ _ _ => true | _ => false end.

Definition is_rate_limited (r : Response) : bool :=
  match r with Failure 429 _ _ => true | _ => false end.

(** The responses that are returned before the usage counter is
    incremented: 204, 400 and 429. *)
Definition rejected (r : Response) : bool :=
  match r with
  | NoContent => true
  | Failure 400 _ _ => true
  | Failure 429 _ _ => true
  | _ => false
  end.

(** A request that reaches the rate limiting under the key [key]: a POST
    with a truthy [code], from the address of the key. *)
Definition charged (current_month key : string) (req : Request) : bool :=
  negb (is_options req) && negb (code_is_falsy (code_field req)) &&
  bool_decide (user_key_of (remote_addr req) current_month = key).

End MoreProps.

(** * Properties *)

(** ** Facts about the string primitives *)

Module PyFacts.
Import Py.

Lemma sapp_cons a s t : String a s +:+ t = String a (s +:+ t).
Proof. reflexivity. Qed.

Lemma sapp_nil_l s : "" +:+ s = s.
Proof. reflexivity. Qed.

Lemma sapp_nil_r s : s +:+ "" = s.
Proof. induction s as [|a s IH]; [done|]. by rewrite sapp_cons, IH. Qed.

Lemma sapp_assoc s t u : (s +:+ t) +:+ u = s +:+ t +:+ u.
Proof. induction s as [|a s IH]; [done|]. by rewrite !sapp_cons, IH. Qed.

Lemma len_cons a s : len (String a s) = S (len s).
Proof. reflexivity. Qed.

Lemma len_app s t : len (s +:+ t) = len s + len t.
Proof. induction s as [|a s IH]; [done|]. rewrite sapp_cons. simpl. by rewrite IH. Qed.

Lemma startswith_app sub post : startswith sub (sub +:+ post) = true.
Proof.
  induction sub as [|a sub IH]; [done|].
  rewrite sapp_cons. simpl. rewrite IH. by rewrite bool_decide_eq_true_2.
Qed.

Lemma startswith_split sub s :
  startswith sub s = true → ∃ post, s = sub +:+ post.
Proof.
  revert s. induction sub as [|a sub IH]; intros s H.
  - by exists s.
  - destruct s as [|b s]; [done|]. simpl in H.
    apply andb_true_iff in H as [Hab H]. apply bool_decide_eq_true in Hab as ->.
    destruct (IH _ H) as [post ->]. by exists post.
Qed.

Lemma contains_app sub pre post : contains sub (pre +:+ sub +:+ post) = true.
Proof.
  induction pre as [|a pre IH].
  - rewrite sapp_nil_l. pose proof (startswith_app sub post) as H.
    destruct (sub +:+ post); simpl; by rewrite H.
  - rewrite sapp_cons. simpl. rewrite IH. apply orb_true_r.
Qed.

Lemma contains_split sub s :
  contains sub s = true → ∃ pre post, s = pre +:+ sub +:+ post.
Proof.
  induction s as [|a s IH]; simpl; intros H.
  - rewrite orb_false_r in H. apply startswith_split in H as [post ->].
    by exists "", post.
  - apply orb_true_iff in H as [H|H].
    + apply startswith_split in H as [post ->]. by exists "", post.
    + destruct (IH H) as (pre & post & ->). by exists (String a pre), post.
Qed.

Lemma contains_index sub s : contains sub s = true → is_Some (index sub s).
Proof.
  induction s as [|a s IH]; simpl; intros H.
  - rewrite orb_false_r in H. rewrite H. by eexists.
  - destruct (startswith sub (String a s)); [by eexists|]. simpl in H.
    destruct (IH H) as [n ->]. by eexists.
Qed.

Lemma index_app sub pre post : is_Some (index sub (pre +:+ sub +:+ post)).
Proof. apply contains_index, contains_app. Qed.


(** *** Splitting and joining *)

Lemma split_nonempty sep s : split sep s ≠ [].
Proof.
  destruct s as [|a s]; simpl; [done|].
  case_bool_decide; [done|]. by destruct (split sep s).
Qed.

Lemma split_cons_length sep a s :
  a ≠ sep → length (split sep (String a s)) = length (split sep s).
Proof.
  intros Hne. simpl. rewrite bool_decide_eq_false_2 by done.
  pose proof (split_nonempty sep s). by destruct (split sep s).
Qed.

Lemma split_length_pos sep s : 1 ≤ length (split sep s).
Proof.
  pose proof (split_nonempty sep s). destruct (split sep s); [done|]. simpl. lia.
Qed.

Lemma split_app_sep_length sep x t :
  length (split sep (x +:+ String sep t)) = length (split sep x) + length (split sep t).
Proof.
  induction x as [|a x IH].
  - rewrite sapp_nil_l. simpl. by rewrite bool_decide_eq_true_2.
  - rewrite sapp_cons. destruct (decide (a = sep)) as [->|Hne].
    + simpl. rewrite !bool_decide_eq_true_2 by done. simpl. by rewrite IH.
    + by rewrite !split_cons_length.
Qed.

Lemma join_cons_char sep a x xs :
  join sep (String a x :: xs) = String a (join sep (x :: xs)).
Proof. by destruct xs. Qed.

(** Joining the lines of a text gives the text back. *)
Lemma join_split sep s : join (String sep "") (split sep s) = s.
Proof.
  induction s as [|a s IH]; [done|]. simpl. case_bool_decide as Ha.
  - subst a. pose proof (split_nonempty sep s).
    destruct (split sep s) as [|x xs] eqn:Hs; [done|].
    change (join (String sep "") ("" :: x :: xs))
      with (String sep (join (String sep "") (x :: xs))).
    by rewrite IH.
  - pose proof (split_nonempty sep s).
    destruct (split sep s) as [|x xs] eqn:Hs; [done|].
    by rewrite join_cons_char, IH.
Qed.

Lemma join_lines_split_lines code : join_lines (split_lines code) = code.
Proof. apply join_split. Qed.

(** A joined buffer has at least as many lines as the buffer. *)
Lemma split_join_length sep l :
  l ≠ [] → length l ≤ length (split sep (join (String sep "") l)).
Proof.
  induction l as [|x l IH]; [done|]. intros _. destruct l as [|y l].
  - simpl. apply split_length_pos.
  - change (join (String sep "") (x :: y :: l))
      with (x +:+ String sep (join (String sep "") (y :: l))).
    rewrite split_app_sep_length.
    pose proof (split_length_pos sep x). specialize (IH ltac:(done)).
    simpl in *. lia.
Qed.

End PyFacts.

(** ** The matcher against the match relation *)

Module ReFacts.
Import Py PyFacts Re.

Lemma last_of_app pv w1 w2 : last_of pv (w1 +:+ w2) = last_of (last_of pv w1) w2.
Proof. revert pv. induction w1 as [|a w1 IH]; intros pv; [done|]. rewrite sapp_cons. apply IH. Qed.

Lemma take_str_app w post : take_str (len (w +:+ post) - len post) (w +:+ post) = w.
Proof.
  induction w as [|a w IH].
  - rewrite sapp_nil_l, Nat.sub_diag. by destruct post.
  - rewrite sapp_cons, len_cons.
    replace (S (len (w +:+ post)) - len post) with (S (len (w +:+ post) - len post))
      by (rewrite len_app; lia).
    cbn [take_str]. by rewrite IH.
Qed.

Section Soundness.
Context {A : Type}.
Implicit Types k : mstate → option A.

(** Every result of the repetition loop comes from a split of the text
    after a run of characters of the class. *)
Lemma star_loop_sound greedy p s : ∀ pv c k res,
  star_loop greedy p pv s c k = Some res →
  ∃ wd post, s = wd +:+ post ∧ all_chars p wd = true ∧
             k (MState (last_of pv wd) post c) = Some res.
Proof.
  induction s as [|a s IH]; intros pv c k res H; simpl in H.
  - by exists "", "".
  - destruct (p a) eqn:Hp; [|by exists "", (String a s)].
    assert (star_loop greedy p (Some a) s c k = Some res ∨
            k (MState pv (String a s) c) = Some res) as [H'|H'].
    { destruct greedy.
      - destruct (star_loop true p (Some a) s c k); auto.
      - destruct (k (MState pv (String a s) c)); auto. }
    + destruct (IH _ _ _ _ H') as (wd & post & -> & Hall & Hk).
      exists (String a wd), post. simpl. by rewrite Hp.
    + by exists "", (String a s).
Qed.

(** A failure of the repetition loop is a failure at every split. *)
Lemma star_loop_complete greedy p s : ∀ pv c k,
  star_loop greedy p pv s c k = None →
  ∀ wd post, s = wd +:+ post → all_chars p wd = true →
             k (MState (last_of pv wd) post c) = None.
Proof.
  induction s as [|a s IH]; intros pv c k H wd post Hs Hall; simpl in H.
  - destruct wd; [|done]. rewrite sapp_nil_l in Hs. by subst.
  - destruct wd as [|b wd].
    + rewrite sapp_nil_l in Hs. subst post. simpl.
      destruct (p a); [|done].
      destruct greedy.
      * by destruct (star_loop true p (Some a) s c k).
      * by destruct (k (MState pv (String a s) c)).
    + rewrite sapp_cons in Hs. injection Hs as <- ->.
      simpl in Hall. apply andb_true_iff in Hall as [Hp Hall]. rewrite Hp in H.
      simpl. apply (IH (Some a) c k); [|done..].
      destruct greedy.
      * by destruct (star_loop true p (Some a) (wd +:+ post) c k).
      * by destruct (k (MState pv (String a (wd +:+ post)) c)).
Qed.

(** Soundness: a result of the matcher is the continuation's result at
    the end of some match. *)
Lemma run_sound r : ∀ pv s c k res,
  run r (MState pv s c) k = Some res →
  ∃ wd post c', s = wd +:+ post ∧ Matches r pv wd post c c' ∧
                k (MState (last_of pv wd) post c') = Some res.
Proof.
  induction r as [|p|r1 IH1 r2 IH2|r1 IH1 r2 IH2|greedy p|n r IH| |];
    intros pv s c k res H; simpl in H.
  - exists "", s, c. split_and!; [done|constructor|done].
  - destruct s as [|a s]; [done|]. destruct (p a) eqn:Hp; [|done].
    exists (String a ""), s, c. split_and!; [done|by constructor|done].
  - apply IH1 in H as (w1 & post1 & c1 & -> & M1 & H).
    apply IH2 in H as (w2 & post & c2 & -> & M2 & H).
    exists (w1 +:+ w2), post, c2. split_and!.
    + by rewrite sapp_assoc.
    + by econstructor.
    + by rewrite last_of_app.
  - destruct (run r1 (MState pv s c) k) eqn:H1.
    + injection H as ->. apply IH1 in H1 as (wd & post & c' & -> & M & H).
      exists wd, post, c'. split_and!; [done|by apply M_alt_l|done].
    + apply IH2 in H as (wd & post & c' & -> & M & H).
      exists wd, post, c'. split_and!; [done|by apply M_alt_r|done].
  - apply star_loop_sound in H as (wd & post & -> & Hall & H).
    exists wd, post, c. split_and!; [done|by constructor|done].
  - apply IH in H as (wd & post & c1 & -> & M & H). simpl in H.
    rewrite take_str_app in H.
    exists wd, post, (<[n := wd]> c1). split_and!; [done|by constructor|done].
  - destruct pv; [done|]. exists "", s, c. split_and!; [done|constructor|done].
  - destruct (xorb _ _) eqn:Hx; [|done].
    exists "", s, c. split_and!; [done|by constructor|done].
Qed.

(** Completeness: when the matcher fails, the continuation fails at the
    end of every match. *)
Lemma run_complete r : ∀ pv s c k,
  run r (MState pv s c) k = None →
  ∀ wd post c', s = wd +:+ post → Matches r pv wd post c c' →
                k (MState (last_of pv wd) post c') = None.
Proof.
  intros pv s c k H wd post c' Hs M. revert s k H Hs.
  induction M as [pv post c|p a pv post c Hp|r1 r2 pv w1 w2 post c c1 c2 M1 IH1 M2 IH2
                 |r1 r2 pv wd post c c1 M IH|r1 r2 pv wd post c c2 M IH
                 |greedy p pv wd post c Hall|n r pv wd post c c1 M IH|post c|pv post c Hx];
    intros s k H Hs; simpl in H; subst s.
  - done.
  - rewrite sapp_cons, sapp_nil_l in H. by rewrite Hp in H.
  - rewrite last_of_app. eapply IH2; [|done].
    eapply (IH1 _ (λ st1, run r2 st1 k)); [exact H|apply sapp_assoc].
  - eapply IH; [|done]. by destruct (run r1 (MState pv (wd +:+ post) c) k).
  - eapply IH; [|done]. by destruct (run r1 (MState pv (wd +:+ post) c) k).
  - by eapply star_loop_complete.
  - eapply IH in H; [|done]. simpl in H. by rewrite take_str_app in H.
  - done.
  - rewrite sapp_nil_l in H. by rewrite Hx in H.
Qed.
End Soundness.


(** *** Match attempts and searches *)

Lemma attempt_sound r pv s st :
  attempt r pv s = Some st →
  ∃ wd, s = wd +:+ rest st ∧ Matches r pv wd (rest st) ∅ (caps st).
Proof.
  intros H. apply run_sound in H as (wd & post & c' & -> & M & [= <-]).
  by exists wd.
Qed.

Lemma attempt_complete r pv wd post c' :
  Matches r pv wd post ∅ c' → is_Some (attempt r pv (wd +:+ post)).
Proof.
  intros M. destruct (attempt r pv (wd +:+ post)) eqn:H; [by eexists|].
  by eapply run_complete in H.
Qed.

Lemma rmatch_sound r s g :
  rmatch r s = Some g → ∃ wd post, s = wd +:+ post ∧ Matches r None wd post ∅ g.
Proof.
  unfold rmatch. intros H. apply fmap_Some in H as (st & H & ->).
  apply attempt_sound in H as (wd & -> & M). by exists wd, (rest st).
Qed.

Lemma rmatch_complete r wd post c' :
  Matches r None wd post ∅ c' → is_Some (rmatch r (wd +:+ post)).
Proof.
  intros M. unfold rmatch. apply attempt_complete in M as [st ->]. by eexists.
Qed.

(** A search returns a match at the leftmost position that has one. *)
Lemma search_from_sound r s : ∀ pv g,
  search_from r pv s = Some g →
  ∃ pre wd post,
    s = pre +:+ wd +:+ post ∧ Matches r (last_of pv pre) wd post ∅ g ∧
    ∀ pre' wd' post' c',
      s = pre' +:+ wd' +:+ post' → Matches r (last_of pv pre') wd' post' ∅ c' →
      len pre ≤ len pre'.
Proof.
  induction s as [|a s IH]; intros pv g H; simpl in H.
  - destruct (attempt r pv "") as [st|] eqn:Ha; [|done]. injection H as <-.
    apply attempt_sound in Ha as (wd & Hs & M).
    exists "", wd, (rest st). split_and!; [done|done|]. intros. simpl. lia.
  - destruct (attempt r pv (String a s)) as [st|] eqn:Ha.
    + injection H as <-. apply attempt_sound in Ha as (wd & Hs & M).
      exists "", wd, (rest st). split_and!; [done|done|]. intros. simpl. lia.
    + apply IH in H as (pre & wd & post & -> & M & Hleft).
      exists (String a pre), wd, post. split_and!; [done|done|].
      intros pre' wd' post' c' Hs M'. destruct pre' as [|b pre'].
      * rewrite sapp_nil_l in Hs. simpl in M'.
        apply attempt_complete in M' as [st Hst].
        rewrite <- Hs in Hst. congruence.
      * rewrite !sapp_cons in Hs. injection Hs as <- Hs.
        specialize (Hleft _ _ _ _ Hs M'). rewrite !len_cons. lia.
Qed.

Lemma search_sound r s g :
  search r s = Some g →
  ∃ pre wd post,
    s = pre +:+ wd +:+ post ∧ Matches r (last_of None pre) wd post ∅ g ∧
    ∀ pre' wd' post' c',
      s = pre' +:+ wd' +:+ post' → Matches r (last_of None pre') wd' post' ∅ c' →
      len pre ≤ len pre'.
Proof. apply search_from_sound. Qed.

(** *** Inversion and construction of matches of the derived forms *)

Lemma Matches_Eps_inv pv wd post c c' :
  Matches Eps pv wd post c c' → wd = "" ∧ c' = c.
Proof. by inversion 1. Qed.

Lemma Matches_Cls_inv p pv wd post c c' :
  Matches (Cls p) pv wd post c c' → ∃ a, wd = String a "" ∧ p a = true ∧ c' = c.
Proof. inversion 1; subst. by eexists. Qed.

Lemma Matches_Cat_inv r1 r2 pv wd post c c' :
  Matches (Cat r1 r2) pv wd post c c' →
  ∃ w1 w2 c1, wd = w1 +:+ w2 ∧ Matches r1 pv w1 (w2 +:+ post) c c1 ∧
              Matches r2 (last_of pv w1) w2 post c1 c'.
Proof. inversion 1; subst. by eexists _, _, _. Qed.

Lemma Matches_Alt_inv r1 r2 pv wd post c c' :
  Matches (Alt r1 r2) pv wd post c c' →
  Matches r1 pv wd post c c' ∨ Matches r2 pv wd post c c'.
Proof. inversion 1; subst; auto. Qed.

Lemma Matches_Grp_inv n r pv wd post c c' :
  Matches (Grp n r) pv wd post c c' →
  ∃ c1, Matches r pv wd post c c1 ∧ c' = <[n := wd]> c1.
Proof. inversion 1; subst. by eexists. Qed.

Lemma Matches_Bol_inv pv wd post c c' :
  Matches Bol pv wd post c c' → pv = None ∧ wd = "" ∧ c' = c.
Proof. by inversion 1. Qed.

Lemma Matches_Wb_inv pv wd post c c' :
  Matches Wb pv wd post c c' →
  xorb (wordish pv) (wordish (head post)) = true ∧ wd = "" ∧ c' = c.
Proof. by inversion 1. Qed.

Lemma Matches_Lit_inv x : ∀ pv wd post c c',
  Matches (Lit x) pv wd post c c' → wd = x ∧ c' = c.
Proof.
  induction x as [|a x IH]; intros pv wd post c c' M; simpl in M.
  - by inversion M.
  - inversion M as [| |? ? ? w1 w2 ? ? c1 ? M1 M2| | | | | |]; subst.
    inversion M1 as [|? b ? ? ? Hb| | | | | | |]; subst.
    apply bool_decide_eq_true in Hb as ->.
    apply IH in M2 as [-> ->]. done.
Qed.

Lemma Matches_Lit x : ∀ pv post c, Matches (Lit x) pv x post c c.
Proof.
  induction x as [|a x IH]; intros pv post c; simpl.
  - constructor.
  - change (String a x) with (String a "" +:+ x). econstructor.
    + constructor. by apply bool_decide_eq_true.
    + apply IH.
Qed.

Lemma Matches_Star_inv greedy p pv wd post c c' :
  Matches (Star greedy p) pv wd post c c' → all_chars p wd = true ∧ c' = c.
Proof. by inversion 1. Qed.

Lemma Matches_Plus_inv p pv wd post c c' :
  Matches (Plus p) pv wd post c c' → wd ≠ "" ∧ all_chars p wd = true ∧ c' = c.
Proof.
  unfold Plus. intros M.
  inversion M as [| |? ? ? w1 w2 ? ? c1 ? M1 M2| | | | | |]; subst.
  inversion M1 as [|? b ? ? ? Hb| | | | | | |]; subst.
  apply Matches_Star_inv in M2 as [Hall ->].
  rewrite sapp_cons, sapp_nil_l. simpl. by rewrite Hb, Hall.
Qed.

Lemma Matches_Plus p pv wd post c :
  wd ≠ "" → all_chars p wd = true → Matches (Plus p) pv wd post c c.
Proof.
  intros Hne Hall. destruct wd as [|a wd]; [done|]. simpl in Hall.
  apply andb_true_iff in Hall as [Ha Hall].
  unfold Plus. change (String a wd) with (String a "" +:+ wd).
  econstructor; by constructor.
Qed.

(** Inverts the matches of composite patterns found in the context. *)
Ltac inv_matches :=
  repeat match goal with
  | H : Matches (Cat _ _) _ _ _ _ _ |- _ =>
      apply Matches_Cat_inv in H as (? & ? & ? & ? & ? & ?); subst
  | H : Matches (Grp _ _) _ _ _ _ _ |- _ =>
      apply Matches_Grp_inv in H as (? & ? & ?); subst
  | H : Matches Eps _ _ _ _ _ |- _ => apply Matches_Eps_inv in H as [? ?]; subst
  | H : Matches Bol _ _ _ _ _ |- _ => apply Matches_Bol_inv in H as (? & ? & ?); subst
  | H : Matches Wb _ _ _ _ _ |- _ => apply Matches_Wb_inv in H as (? & ? & ?); subst
  | H : Matches (Cls _) _ _ _ _ _ |- _ =>
      apply Matches_Cls_inv in H as (? & ? & ? & ?); subst
  | H : Matches (Lit _) _ _ _ _ _ |- _ => apply Matches_Lit_inv in H as [? ?]; subst
  | H : Matches (Plus _) _ _ _ _ _ |- _ =>
      apply Matches_Plus_inv in H as (? & ? & ?); subst
  | H : Matches (Star _ _) _ _ _ _ _ |- _ =>
      apply Matches_Star_inv in H as [? ?]; subst
  end.

End ReFacts.

(** ** The scanner *)

Module ScanFacts.
Import Py PyFacts Re ReFacts Talon Props.

(** *** The attribute-access pattern *)

Lemma none_attr_inv pv wd post g :
  Matches re_none_attr pv wd post ∅ g →
  ∃ name attr, wd = name +:+ "." +:+ attr ∧ is_name name ∧ is_name attr ∧
               group 1 g = name.
Proof.
  unfold re_none_attr. cbn [Seq foldr]. intros M. inv_matches.
  eexists _, _. rewrite sapp_nil_r. split_and!; [done|by split|by split|].
  unfold group. rewrite lookup_insert_ne by done. by rewrite lookup_insert_eq.
Qed.

Lemma none_attr_intro pv name attr post :
  is_name name → is_name attr →
  ∃ g, Matches re_none_attr pv (name +:+ "." +:+ attr) post ∅ g.
Proof.
  intros [? ?] [? ?]. unfold re_none_attr. cbn [Seq foldr]. eexists.
  econstructor; [constructor; by apply Matches_Plus|].
  econstructor; [apply Matches_Lit|].
  rewrite <- (sapp_nil_r attr) at 1.
  econstructor; [constructor; by apply Matches_Plus|constructor].
Qed.

(** A search for the pattern finds the leftmost attribute access. *)
Lemma search_none_attr line m :
  search re_none_attr line = Some m →
  ∃ pre attr post,
    attr_access line pre (group 1 m) attr post ∧
    ∀ pre' name' attr' post',
      attr_access line pre' name' attr' post' → len pre ≤ len pre'.
Proof.
  intros H. apply search_sound in H as (pre & wd & post & -> & M & Hleft).
  apply none_attr_inv in M as (name & attr & -> & Hn & Ha & Hg).
  exists pre, attr, post. split.
  - rewrite Hg. split; [|done]. by rewrite !sapp_assoc.
  - intros pre' name' attr' post' (Hs & Hn' & Ha').
    destruct (none_attr_intro (last_of None pre') name' attr' post' Hn' Ha') as [g M'].
    eapply Hleft; [|exact M']. rewrite Hs. by rewrite !sapp_assoc.
Qed.

(** A token of line 239 is never empty. *)
Lemma var_ref_nonempty pv wd post c c' :
  Matches re_var_ref pv wd post c c' → wd ≠ "".
Proof.
  unfold re_var_ref. cbn [Seq foldr]. intros M. inv_matches.
  by rewrite sapp_nil_l, sapp_cons.
Qed.

(** A match of a pattern that starts with a literal starts with it. *)
Lemma search_lit_prefix x rs line m :
  search (Seq (Lit x :: rs)) line = Some m → is_Some (index x line).
Proof.
  intros H. apply search_sound in H as (pre & wd & post & -> & M & _).
  cbn [Seq foldr] in M. inv_matches. rewrite sapp_assoc. apply index_app.
Qed.

(** *** The detectors never raise *)

Lemma detect_none_attr_total lines i line : is_Some (detect_none_attr lines i line).
Proof.
  unfold detect_none_attr. destruct (search re_none_attr line) as [m|] eqn:H; [|by eexists].
  destruct (any_earlier _ _ _); [|by eexists].
  apply search_none_attr in H as (pre & attr & post & (-> & _) & _).
  destruct (index_app (group 1 m) pre ("." +:+ attr +:+ post)) as [n ->]. by eexists.
Qed.

Lemma undefined_loop_total c i line stripped var_refs :
  is_Some (undefined_loop c i line stripped var_refs).
Proof.
  induction var_refs as [|var var_refs IH]; simpl; [by eexists|].
  destruct (excluded c line stripped var); [done|].
  destruct (contains var line) eqn:Hc; [|by eexists].
  destruct (contains_index _ _ Hc) as [n ->]. by eexists.
Qed.

Lemma detect_division_total lines i line : is_Some (detect_division lines i line).
Proof.
  unfold detect_division. destruct (search re_div line) as [m|] eqn:H; [|by eexists].
  destruct (_ || _); [|by eexists].
  apply search_lit_prefix in H as [n ->]. by eexists.
Qed.

Lemma detect_file_total i line : is_Some (detect_file i line).
Proof.
  unfold detect_file. destruct (search re_open line) as [m|] eqn:H; [|by eexists].
  apply search_lit_prefix in H as [n ->]. by eexists.
Qed.

Lemma detect_line_total c lines i line : is_Some (detect_line c lines i line).
Proof.
  unfold detect_line. destruct (skipped line); [by eexists|].
  destruct (detect_none_attr_total lines i line) as [e2 ->].
  destruct (detect_undefined c i line) as [e3|] eqn:H3.
  2:{ by destruct (undefined_loop_total c i line (strip line) (findall re_var_ref line)) as [? ?];
        unfold detect_undefined in H3; congruence. }
  destruct (detect_division_total lines i line) as [e4 ->].
  destruct (detect_file_total i line) as [e5 ->]. by eexists.
Qed.

Lemma detect_loop_total c lines todo : ∀ i, is_Some (detect_loop c lines i todo).
Proof.
  induction todo as [|line todo IH]; intros i; simpl; [by eexists|].
  destruct (detect_line_total c lines i line) as [es ->].
  destruct (IH (S i)) as [more ->]. by eexists.
Qed.

(** The scanner returns a list of diagnostics on every input. *)
Lemma detect_errors_total code c : is_Some (detect_errors_with_context code c).
Proof. apply detect_loop_total. Qed.


(** *** What each detector reports *)

Lemma filter_all {A} (P : A → Prop) `{∀ x, Decision (P x)} (l : list A) :
  Forall P l → filter P l = l.
Proof.
  induction 1 as [|x l Hx Hl IH]; [done|]. by rewrite filter_cons_True, IH.
Qed.

Lemma filter_none {A} (P : A → Prop) `{∀ x, Decision (P x)} (l : list A) :
  Forall (λ x, ¬ P x) l → filter P l = [].
Proof.
  induction 1 as [|x l Hx Hl IH]; [done|]. by rewrite filter_cons_False, IH.
Qed.

Lemma filter_ext_elem {A} (P Q : A → Prop)
    `{∀ x, Decision (P x)} `{∀ x, Decision (Q x)} (l : list A) :
  (∀ x, x ∈ l → P x ↔ Q x) → filter P l = filter Q l.
Proof.
  induction l as [|x l IH]; intros HPQ; [done|].
  rewrite !filter_cons, IH by (intros; apply HPQ; by right).
  destruct (HPQ x) as [? ?]; [by left|]. by repeat case_decide; try tauto.
Qed.

Ltac solve_of_kind :=
  repeat constructor; simpl; eexists; split_and!; [done..|];
  unfold has_keys; simpl; split_and!; by eauto.

Lemma detect_import_kind i line :
  Forall (of_kind "ModuleNotFoundError" "add_comment" i) (detect_import i line).
Proof.
  unfold detect_import. destruct (rmatch re_import_line line); [|done].
  case_bool_decide; [|done]. solve_of_kind.
Qed.

Lemma detect_none_attr_kind lines i line es :
  detect_none_attr lines i line = Some es →
  Forall (of_kind "AttributeError" "wrap_with_check" i) es.
Proof.
  unfold detect_none_attr. intros H.
  destruct (search re_none_attr line); [|by injection H as <-].
  destruct (any_earlier _ _ _); [|by injection H as <-].
  destruct (index _ _); [|done]. injection H as <-. solve_of_kind.
Qed.

Lemma detect_undefined_kind c i line es :
  detect_undefined c i line = Some es →
  Forall (of_kind "NameError" "define_variable" i) es.
Proof.
  unfold detect_undefined. generalize (findall re_var_ref line) as vars.
  induction vars as [|var vars IH]; simpl; intros H; [by injection H as <-|].
  destruct (excluded _ _ _ _); [by apply IH|].
  destruct (if contains var line then _ else _); [|done].
  injection H as <-. solve_of_kind.
Qed.

Lemma detect_division_kind lines i line es :
  detect_division lines i line = Some es →
  Forall (of_kind "ZeroDivisionError" "wrap_division" i) es.
Proof.
  unfold detect_division. intros H.
  destruct (search re_div line); [|by injection H as <-].
  destruct (_ || _); [|by injection H as <-].
  destruct (index _ _); [|done]. injection H as <-. solve_of_kind.
Qed.

Lemma detect_file_kind i line es :
  detect_file i line = Some es →
  Forall (of_kind "FileNotFoundError" "safe_file_open" i) es.
Proof.
  unfold detect_file. intros H.
  destruct (search re_open line); [|by injection H as <-].
  destruct (index _ _); [|done]. injection H as <-. solve_of_kind.
Qed.

(** The diagnostics of a line, detector by detector. *)
Lemma detect_line_inv c lines i line es :
  detect_line c lines i line = Some es →
  skipped line = true ∧ es = [] ∨
  skipped line = false ∧
  ∃ e2 e3 e4 e5,
    detect_none_attr lines i line = Some e2 ∧
    detect_undefined c i line = Some e3 ∧
    detect_division lines i line = Some e4 ∧
    detect_file i line = Some e5 ∧
    es = detect_import i line ++ e2 ++ e3 ++ e4 ++ e5.
Proof.
  unfold detect_line. intros H. destruct (skipped line); [left; by injection H as <-|].
  right. split; [done|].
  destruct (detect_none_attr lines i line) as [e2|]; [|done].
  destruct (detect_undefined c i line) as [e3|]; [|done].
  destruct (detect_division lines i line) as [e4|]; [|done].
  destruct (detect_file i line) as [e5|]; [|done].
  injection H as <-. by exists e2, e3, e4, e5.
Qed.

(** Every diagnostic of line [i] points to line [i] and carries a fix
    with the keys of its kind. *)
Lemma detect_line_wf c lines i line es :
  detect_line c lines i line = Some es →
  Forall (λ d, d_line d = i ∧ ∃ fx, d_fix d = Some fx ∧ has_keys fx) es.
Proof.
  intros H. apply detect_line_inv in H as [[_ ->]|[_ (e2 & e3 & e4 & e5 & H2 & H3 & H4 & H5 & ->)]];
    [done|].
  pose proof (detect_import_kind i line) as H1.
  apply detect_none_attr_kind in H2. apply detect_undefined_kind in H3.
  apply detect_division_kind in H4. apply detect_file_kind in H5.
  rewrite !Forall_app. split_and!;
    (eapply Forall_impl; [eassumption|]); intros d (_ & ? & fx & ? & _ & ?); eauto.
Qed.

(** *** The diagnostics of the whole text, line by line *)

Lemma detect_loop_elem c lines todo : ∀ i ds,
  detect_loop c lines i todo = Some ds →
  ∀ d, d ∈ ds →
    ∃ j line es, todo !! j = Some line ∧
                 detect_line c lines (i + j) line = Some es ∧ d ∈ es.
Proof.
  induction todo as [|line todo IH]; intros i ds H d Hd; simpl in H.
  - injection H as <-. by apply elem_of_nil in Hd.
  - destruct (detect_line c lines i line) as [es|] eqn:Hl; [|done]. simpl in H.
    destruct (detect_loop c lines (S i) todo) as [more|] eqn:Hm; [|done].
    injection H as <-. apply elem_of_app in Hd as [Hd|Hd].
    + exists 0, line, es. by rewrite Nat.add_0_r.
    + destruct (IH _ _ Hm _ Hd) as (j & line' & es' & Hj & He & Hd').
      exists (S j), line', es'. by rewrite Nat.add_succ_r.
Qed.

Lemma detect_loop_lines c lines todo i ds :
  detect_loop c lines i todo = Some ds →
  Forall (λ d, i ≤ d_line d < i + length todo) ds.
Proof.
  intros H. apply Forall_forall. intros d Hd.
  destruct (detect_loop_elem _ _ _ _ _ H _ Hd) as (j & line & es & Hj & He & Hd').
  apply detect_line_wf in He. rewrite Forall_forall in He.
  destruct (He _ Hd') as [-> _]. apply lookup_lt_Some in Hj. lia.
Qed.

(** The diagnostics reported for a line are those of its own round of
    the loop. *)
Lemma detect_loop_reported c lines ty todo : ∀ i ds j line,
  detect_loop c lines i todo = Some ds →
  todo !! j = Some line →
  ∃ es, detect_line c lines (i + j) line = Some es ∧
        reported ty (i + j) ds = filter (λ d, d_type d = ty) es.
Proof.
  induction todo as [|line0 todo IH]; intros i ds j line H Hj; [done|]. simpl in H.
  destruct (detect_line c lines i line0) as [es|] eqn:Hl; [|done]. simpl in H.
  destruct (detect_loop c lines (S i) todo) as [more|] eqn:Hm; [|done].
  injection H as <-. unfold reported. rewrite filter_app.
  pose proof (detect_line_wf _ _ _ _ _ Hl) as Hes.
  pose proof (detect_loop_lines _ _ _ _ _ Hm) as Hmore.
  destruct j as [|j]; simpl in Hj.
  - injection Hj as ->. rewrite Nat.add_0_r. exists es. split; [done|].
    rewrite (filter_none _ more).
    2:{ eapply Forall_impl; [exact Hmore|]. simpl. intros d ? [_ ?]. lia. }
    rewrite app_nil_r. apply filter_ext_elem.
    rewrite Forall_forall in Hes. intros d Hd. destruct (Hes _ Hd) as [-> _]. tauto.
  - destruct (IH (S i) more j line Hm Hj) as (es' & He' & Hr).
    rewrite Nat.add_succ_r. exists es'. split; [done|].
    rewrite (filter_none _ es).
    2:{ eapply Forall_impl; [exact Hes|]. simpl. intros d [? _] [_ ?]. lia. }
    exact Hr.
Qed.


Lemma of_kind_filter_other ty fk i ty' es :
  Forall (of_kind ty fk i) es → ty ≠ ty' →
  filter (λ d, d_type d = ty') es = [].
Proof.
  intros H Hne. apply filter_none. eapply Forall_impl; [exact H|].
  intros d (Ht & _) Ht'. congruence.
Qed.

Lemma of_kind_filter_same ty fk i es :
  Forall (of_kind ty fk i) es → filter (λ d, d_type d = ty) es = es.
Proof.
  intros H. apply filter_all. eapply Forall_impl; [exact H|]. by intros d (Ht & _).
Qed.

(** The token loop reports the first token that passes the tests, if any. *)
Lemma undefined_loop_spec c i line stripped vars : ∀ es,
  undefined_loop c i line stripped vars = Some es →
  match List.find (λ var, negb (excluded c line stripped var)) vars with
  | Some var => ∃ d, es = [d] ∧ diag_var d = Some var
  | None => es = []
  end.
Proof.
  induction vars as [|var vars IH]; simpl; intros es H; [by injection H as <-|].
  destruct (excluded c line stripped var); simpl; [by apply IH|].
  destruct (if contains var line then _ else _); [|done].
  injection H as <-. by eexists.
Qed.

(** The undefined-name diagnostics among those of a line. *)
Lemma detect_line_undefined c lines i line es :
  detect_line c lines i line = Some es →
  match (if skipped line then None else first_surviving c line) with
  | Some var => ∃ d, filter (λ d, d_type d = "NameError") es = [d] ∧
                     diag_var d = Some var
  | None => filter (λ d, d_type d = "NameError") es = []
  end.
Proof.
  intros H.
  apply detect_line_inv in H as [[-> ->]|[-> (e2 & e3 & e4 & e5 & H2 & H3 & H4 & H5 & ->)]];
    [done|].
  rewrite !filter_app.
  rewrite (of_kind_filter_other _ _ _ _ _ (detect_import_kind i line)) by done.
  rewrite (of_kind_filter_other _ _ _ _ _ (detect_none_attr_kind _ _ _ _ H2)) by done.
  rewrite (of_kind_filter_same _ _ _ _ (detect_undefined_kind _ _ _ _ H3)).
  rewrite (of_kind_filter_other _ _ _ _ _ (detect_division_kind _ _ _ _ H4)) by done.
  rewrite (of_kind_filter_other _ _ _ _ _ (detect_file_kind _ _ _ H5)) by done.
  rewrite app_nil_r. simpl. by apply undefined_loop_spec in H3.
Qed.

(** The attribute diagnostic of a line comes from the search of line 218. *)
Lemma detect_none_attr_inv lines i line es :
  detect_none_attr lines i line = Some es →
  es = [] ∨
  ∃ m d, search re_none_attr line = Some m ∧
         any_earlier (group 1 m +:+ " = None") lines i = true ∧
         es = [d] ∧ diag_var d = Some (group 1 m).
Proof.
  unfold detect_none_attr. intros H.
  destruct (search re_none_attr line) as [m|]; [|left; by injection H as <-].
  destruct (any_earlier _ _ _) eqn:Hany; [|left; by injection H as <-].
  destruct (index _ _); [|done]. injection H as <-. right. by eexists m, _.
Qed.

Lemma detect_line_none_attr c lines i line es :
  detect_line c lines i line = Some es →
  filter (λ d, d_type d = "AttributeError") es = [] ∨
  ∃ m d, search re_none_attr line = Some m ∧
         any_earlier (group 1 m +:+ " = None") lines i = true ∧
         filter (λ d, d_type d = "AttributeError") es = [d] ∧
         diag_var d = Some (group 1 m).
Proof.
  intros H.
  apply detect_line_inv in H as [[_ ->]|[_ (e2 & e3 & e4 & e5 & H2 & H3 & H4 & H5 & ->)]];
    [by left|].
  rewrite !filter_app.
  rewrite (of_kind_filter_other _ _ _ _ _ (detect_import_kind i line)) by done.
  rewrite (of_kind_filter_same _ _ _ _ (detect_none_attr_kind _ _ _ _ H2)).
  rewrite (of_kind_filter_other _ _ _ _ _ (detect_undefined_kind _ _ _ _ H3)) by done.
  rewrite (of_kind_filter_other _ _ _ _ _ (detect_division_kind _ _ _ _ H4)) by done.
  rewrite (of_kind_filter_other _ _ _ _ _ (detect_file_kind _ _ _ H5)) by done.
  rewrite !app_nil_r. simpl.
  apply detect_none_attr_inv in H2 as [->|(m & d & ? & ? & -> & ?)]; [by left|].
  right. by exists m, d.
Qed.

Lemma any_earlier_elem needle lines i :
  any_earlier needle lines i = true →
  ∃ j prev_line, j < i ∧ lines !! j = Some prev_line ∧
                 contains needle prev_line = true.
Proof.
  unfold any_earlier. intros H. apply existsb_exists in H as (prev_line & Hin & Hc).
  apply list_elem_of_In, list_elem_of_lookup in Hin as [j Hj].
  exists j, prev_line. apply lookup_take_Some in Hj as [? ?]. done.
Qed.

(** No diagnostic is reported for a line that the text does not have. *)
Lemma reported_out_of_range c lines ty i ds :
  detect_loop c lines 0 lines = Some ds → length lines ≤ i →
  reported ty i ds = [].
Proof.
  intros H Hi. apply filter_none. apply detect_loop_lines in H.
  eapply Forall_impl; [exact H|]. simpl. intros d ? [_ ?]. lia.
Qed.

End ScanFacts.

(** ** Claims about the scanner *)

Import Py PyFacts Re ReFacts Talon Props ScanFacts.


(** X23.  A possible-null-attribute-access diagnostic ([AttributeError]) is
    produced for a line only if the line holds a match [name.attr] of the
    pattern of line 218, the diagnostic being about [name], and a strictly
    earlier line of the input contains the text [name = None].  Here [name]
    and [attr] are non-empty runs of word characters: [name] need not be an
    identifier, the digits before the point of a float literal are one.  The
    scanner returns on every input and every context. *)
Theorem none_attr_only_after_none_assignment (code : string) (c : Context) :
  ∃ ds, detect_errors_with_context code c = Some ds ∧
    ∀ d, d ∈ ds → d_type d = "AttributeError" →
      ∃ line pre name attr post j prev_line,
        split_lines code !! d_line d = Some line ∧
        attr_access line pre name attr post ∧
        diag_var d = Some name ∧
        j < d_line d ∧
        split_lines code !! j = Some prev_line ∧
        contains (name +:+ " = None") prev_line = true.
Proof.
  destruct (detect_errors_total code c) as [ds Hds]. exists ds. split; [done|].
  intros d Hd Hty. unfold detect_errors_with_context in Hds.
  destruct (detect_loop_elem _ _ _ _ _ Hds _ Hd) as (i & line & es & Hi & Hes & Hdes).
  simpl in Hes.
  pose proof (detect_line_wf _ _ _ _ _ Hes) as Hwf. rewrite Forall_forall in Hwf.
  destruct (Hwf _ Hdes) as [Hline _].
  assert (d ∈ filter (λ d, d_type d = "AttributeError") es) as Hf
    by by apply list_elem_of_filter.
  destruct (detect_line_none_attr _ _ _ _ _ Hes) as [Hnil|(m & d' & Hs & Hany & Hone & Hvar)].
  { rewrite Hnil in Hf. by apply elem_of_nil in Hf. }
  rewrite Hone in Hf. apply list_elem_of_singleton in Hf as ->.
  apply search_none_attr in Hs as (pre & attr & post & Hacc & _).
  apply any_earlier_elem in Hany as (j & prev_line & Hj & Hprev & Hc).
  exists line, pre, (group 1 m), attr, post, j, prev_line.
  rewrite Hline. done.
Qed.

(** X24.  For every line, the scanner produces at most one
    possible-null-attribute-access diagnostic, and that diagnostic is about
    the receiver of the leftmost match [name.attr] of the pattern of line
    218 in the line, however many the line has.  Here [name] and [attr] are
    non-empty runs of word characters, so that the leftmost match may be a
    float literal. *)
Theorem none_attr_at_most_one_leftmost (code : string) (c : Context) :
  ∃ ds, detect_errors_with_context code c = Some ds ∧
    ∀ i,
      reported "AttributeError" i ds = [] ∨
      ∃ line d pre name attr post,
        split_lines code !! i = Some line ∧
        reported "AttributeError" i ds = [d] ∧
        diag_var d = Some name ∧
        attr_access line pre name attr post ∧
        ∀ pre' name' attr' post',
          attr_access line pre' name' attr' post' → len pre ≤ len pre'.
Proof.
  destruct (detect_errors_total code c) as [ds Hds]. exists ds. split; [done|].
  intros i. unfold detect_errors_with_context in Hds.
  destruct (split_lines code !! i) as [line|] eqn:Hi.
  2:{ left. eapply reported_out_of_range; [done|]. by apply lookup_ge_None. }
  destruct (detect_loop_reported _ _ "AttributeError" _ _ _ _ _ Hds Hi) as (es & Hes & Hrep).
  simpl in Hes, Hrep. rewrite Hrep.
  destruct (detect_line_none_attr _ _ _ _ _ Hes) as [Hnil|(m & d & Hs & _ & Hone & Hvar)];
    [by left|].
  right. apply search_none_attr in Hs as (pre & attr & post & Hacc & Hleft).
  by exists line, d, pre, (group 1 m), attr, post.
Qed.

(** C7 (defect of the code).  The pattern of line 218 takes any run of word
    characters before a point as the receiver of an attribute access, so the
    digits around the point of a float literal count as one.

    On the two lines [x0 = None] and [ratio = 0.5] the scan reports a
    possible-null-attribute-access diagnostic for line 1, about [0]: the
    literal [0.5] matches the pattern, and [0 = None] is a part of
    [x0 = None].  Line 1 holds no attribute access of a name: no identifier
    in it is followed by a point.  The rewrite then guards the assignment by
    [if 0 is not None:]. *)
Theorem none_attr_reported_for_float_literal :
  map (λ d, (d_type d, d_line d, diag_var d))
    <$> scan (join_lines ["x0 = None"; "ratio = 0.5"])
    = Some [("AttributeError", 1, Some "0")] ∧
  isidentifier "0" = false ∧
  (¬ ∃ pre name attr post,
       "ratio = 0.5" = pre +:+ name +:+ "." +:+ attr +:+ post ∧
       isidentifier name = true) ∧
  analyze_and_fix (join_lines ["x0 = None"; "ratio = 0.5"])
    = Some (join_lines
        [ "x0 = None";
          "if 0 is not None:";
          "    ratio = 0.5";
          "else:";
          "    print(f'Error: 0 is None')" ]).
Proof.
  split_and!; [by vm_compute|by vm_compute| |by vm_compute].
  intros (pre & name & attr & post & Heq & Hid).
  destruct name as [|a name]; [done|]. simpl in Hid.
  apply andb_true_iff in Hid as [Ha Hw].
  repeat (destruct pre as [|? pre];
          [ rewrite ?sapp_nil_l, ?sapp_cons in Heq; injection Heq as <- Heq;
            try (by vm_compute in Ha);
            repeat (destruct name as [|? name];
                    [ rewrite ?sapp_nil_l, ?sapp_cons in Heq; try discriminate
                    | rewrite ?sapp_cons in Heq; try discriminate;
                      injection Heq as <- Heq;
                      try (by vm_compute in Hw) ])
          | rewrite ?sapp_cons in Heq; try discriminate; injection Heq as <- Heq ]).
  destruct pre; discriminate.
Qed.

(** C9 (defect of the code).  The defect is that of C7: the receiver of the
    pattern of line 218 may be a run of digits.

    On the three lines [x1 = None], [b = None] and [y = 1.5 + b.z] the only
    attribute access of a name on line 2 is [b.z], and [b] is set to [None]
    on line 1.  The one diagnostic of line 2 is not about [b] but about [1],
    the digit before the point of the literal [1.5], since [1 = None] is a
    part of [x1 = None]; the rewrite guards line 2 by [if 1 is not None:]. *)
Theorem none_attr_keyed_to_float_literal :
  map (λ d, (d_type d, d_line d, diag_var d))
    <$> scan (join_lines ["x1 = None"; "b = None"; "y = 1.5 + b.z"])
    = Some [("AttributeError", 2, Some "1")] ∧
  isidentifier "1" = false ∧
  (∀ pre name attr post,
     "y = 1.5 + b.z" = pre +:+ name +:+ "." +:+ attr +:+ post →
     isidentifier name = true → name = "b") ∧
  analyze_and_fix (join_lines ["x1 = None"; "b = None"; "y = 1.5 + b.z"])
    = Some (join_lines
        [ "x1 = None";
          "b = None";
          "if 1 is not None:";
          "    y = 1.5 + b.z";
          "else:";
          "    print(f'Error: 1 is None')" ]).
Proof.
  split_and!; [by vm_compute|by vm_compute| |by vm_compute].
  intros pre name attr post Heq Hid.
  destruct name as [|a name]; [done|]. simpl in Hid.
  apply andb_true_iff in Hid as [Ha Hw].
  repeat (destruct pre as [|? pre];
          [ rewrite ?sapp_nil_l, ?sapp_cons in Heq; injection Heq as <- Heq;
            try (by vm_compute in Ha);
            repeat (destruct name as [|? name];
                    [ rewrite ?sapp_nil_l, ?sapp_cons in Heq; try discriminate; try done
                    | rewrite ?sapp_cons in Heq; try discriminate;
                      injection Heq as <- Heq;
                      try (by vm_compute in Hw) ])
          | rewrite ?sapp_cons in Heq; try discriminate; injection Heq as <- Heq ]).
  destruct pre; discriminate.
Qed.

(** C5, as amended.  For every line, the scanner produces at most one
    possible-undefined-name diagnostic ([NameError]).  For a line that the
    scanner reads (neither blank nor a comment), if a token of the line
    passes all the tests of the token loop, exactly one such diagnostic is
    produced, and it is about the first such token; without such a token,
    and for every blank or comment line, none is produced. *)
Theorem undefined_name_first_surviving (code : string) (c : Context) :
  ∃ ds, detect_errors_with_context code c = Some ds ∧
    ∀ i line, split_lines code !! i = Some line →
      length (reported "NameError" i ds) ≤ 1 ∧
      (skipped line = false → ∀ var, first_surviving c line = Some var →
         ∃ d, reported "NameError" i ds = [d] ∧ diag_var d = Some var) ∧
      (skipped line = true ∨ first_surviving c line = None →
         reported "NameError" i ds = []).
Proof.
  destruct (detect_errors_total code c) as [ds Hds]. exists ds. split; [done|].
  intros i line Hi. unfold detect_errors_with_context in Hds.
  destruct (detect_loop_reported _ _ "NameError" _ _ _ _ _ Hds Hi) as (es & Hes & Hrep).
  simpl in Hes, Hrep. rewrite Hrep.
  pose proof (detect_line_undefined _ _ _ _ _ Hes) as Hu.
  destruct (skipped line).
  - rewrite Hu. split_and!; [simpl; lia|done|done].
  - destruct (first_surviving c line) as [var|].
    + destruct Hu as (d & -> & Hvar). split_and!; [simpl; lia| |by intros [?|?]].
      intros _ var' [= <-]. by exists d.
    + rewrite Hu. split_and!; [simpl; lia|done|done].
Qed.

(** C5, as stated, fails on a comment line: the token [foo] of ["# foo"]
    passes every test of the token loop, and yet the line, which the scanner
    skips, gets no diagnostic. *)
Lemma undefined_name_comment_line_counterexample :
  split_lines "# foo" = ["# foo"] ∧
  first_surviving (analyze_code_context "# foo") "# foo" = Some "foo" ∧
  scan "# foo" = Some [] ∧
  ¬ ∃ d, reported "NameError" 0 [] = [d].
Proof. split_and!; [by vm_compute..|]. by intros [d ?]. Qed.

(** ** The context builder *)

Module ContextFacts.
Import Py PyFacts Re ReFacts Talon Props.

(** *** The parameter loop *)

Lemma param_step_inv acc param dv0 :
  ("self" ∉ fst acc) → snd acc = list_to_set (fst acc) ∪ dv0 →
  ("self" ∉ fst (param_step acc param)) ∧
  snd (param_step acc param) = list_to_set (fst (param_step acc param)) ∪ dv0.
Proof.
  intros Hself Hdv. unfold param_step.
  destruct (bool_decide _ && bool_decide _) eqn:Hc; [|done]. simpl.
  apply andb_true_iff in Hc as [_ Hne]. apply bool_decide_eq_true in Hne.
  split.
  - rewrite elem_of_app, list_elem_of_singleton. by intros [?|?].
  - rewrite Hdv, list_to_set_app_L. apply set_eq. intros x. set_unfold. tauto.
Qed.

Lemma parse_params_loop_inv l : ∀ acc dv0,
  ("self" ∉ fst acc) → snd acc = list_to_set (fst acc) ∪ dv0 →
  ("self" ∉ fst (foldl param_step acc l)) ∧
  snd (foldl param_step acc l) = list_to_set (fst (foldl param_step acc l)) ∪ dv0.
Proof.
  induction l as [|param l IH]; intros acc dv0 Hself Hdv; simpl; [done|].
  destruct (param_step_inv acc param dv0 Hself Hdv). by apply IH.
Qed.

(** The parameter list leaves [self] out, and the names added to the defined
    names are those of the list. *)
Lemma parse_params_spec params dv :
  ("self" ∉ fst (parse_params params dv)) ∧
  snd (parse_params params dv) = list_to_set (fst (parse_params params dv)) ∪ dv.
Proof.
  unfold parse_params. apply parse_params_loop_inv; simpl.
  - apply not_elem_of_nil.
  - by rewrite union_empty_l_L.
Qed.

Lemma param_step_fst acc acc' param :
  fst acc = fst acc' → fst (param_step acc param) = fst (param_step acc' param).
Proof.
  intros H. unfold param_step. destruct (bool_decide _ && bool_decide _); simpl; by rewrite ?H.
Qed.

(** The parameter list does not depend on the names defined before. *)
Lemma parse_params_fst params dv dv' :
  fst (parse_params params dv) = fst (parse_params params dv').
Proof.
  unfold parse_params.
  assert (∀ l acc acc', fst acc = fst acc' →
            fst (foldl param_step acc l) = fst (foldl param_step acc' l)) as H.
  { induction l as [|p l IH]; intros acc acc' Hacc; simpl; [done|].
    apply IH. by apply param_step_fst. }
  by apply H.
Qed.

(** What the function-definition branch records. *)
Lemma ctx_func_matched stripped c m :
  rmatch re_func stripped = Some m → group 2 m ≠ "" →
  function_params (ctx_func stripped c) !! group 1 m
    = Some (fst (parse_params (group 2 m) ∅)) ∧
  defined_vars (ctx_func stripped c)
    = list_to_set (fst (parse_params (group 2 m) ∅)) ∪ ({[group 1 m]} ∪ defined_vars c) ∧
  functions (ctx_func stripped c) = {[group 1 m]} ∪ functions c.
Proof.
  intros Hm Hp. unfold ctx_func. rewrite Hm.
  rewrite bool_decide_eq_true_2 by done.
  destruct (parse_params_spec (group 2 m)
              (defined_vars (add_defined_var (group 1 m) (add_function (group 1 m) c))))
    as [_ Hdv].
  rewrite (parse_params_fst _ _ ∅) in Hdv.
  destruct (parse_params (group 2 m) (defined_vars _)) as [pl dv] eqn:Hpp. simpl in *.
  rewrite lookup_insert_eq.
  pose proof (parse_params_fst (group 2 m) ({[group 1 m]} ∪ defined_vars c) ∅) as Hf.
  rewrite Hpp in Hf. simpl in Hf. by subst pl.
Qed.


(** *** The known names only grow *)

Lemma ctx_le_refl c : ctx_le c c.
Proof. by split_and!. Qed.

Lemma ctx_le_trans c1 c2 c3 : ctx_le c1 c2 → ctx_le c2 c3 → ctx_le c1 c3.
Proof.
  intros (? & ? & ? & ?) (? & ? & ? & ?). split_and!; by etrans.
Qed.

Lemma Known_le c c' x : ctx_le c c' → Known c x → Known c' x.
Proof.
  intros (H1 & H2 & H3 & H4) [?|[?|[?|?]]]; unfold Known;
    [left; by apply H1|right; left; by apply H2
    |right; right; left; by apply H3|right; right; right; by apply H4].
Qed.

Lemma add_defined_var_le x c : ctx_le c (add_defined_var x c).
Proof. split_and!; simpl; [apply union_subseteq_r|done..]. Qed.

Lemma add_imported_module_le x c : ctx_le c (add_imported_module x c).
Proof. split_and!; simpl; [done|apply union_subseteq_r|done..]. Qed.

Lemma add_function_le x c : ctx_le c (add_function x c).
Proof. split_and!; simpl; [done|done|apply union_subseteq_r|done]. Qed.

Lemma add_class_le x c : ctx_le c (add_class x c).
Proof. split_and!; simpl; [done|done|done|apply union_subseteq_r]. Qed.

Lemma foldl_le {A} (f : Context → A → Context) l :
  (∀ c a, ctx_le c (f c a)) → ∀ c, ctx_le c (foldl f c l).
Proof.
  intros Hf. induction l as [|a l IH]; intros c; simpl; [apply ctx_le_refl|].
  eapply ctx_le_trans; [apply Hf|apply IH].
Qed.

Lemma ctx_import_le i s c : ctx_le c (ctx_import i s c).
Proof.
  unfold ctx_import. destruct (rmatch re_import s); [|apply ctx_le_refl].
  apply (add_imported_module_le _ c).
Qed.

Lemma ctx_from_import_le s c : ctx_le c (ctx_from_import s c).
Proof.
  unfold ctx_from_import. destruct (rmatch re_from_import s); [|apply ctx_le_refl].
  eapply ctx_le_trans; [apply add_imported_module_le|].
  apply foldl_le. intros. apply add_defined_var_le.
Qed.

Lemma ctx_func_le s c : ctx_le c (ctx_func s c).
Proof.
  unfold ctx_func. destruct (rmatch re_func s) as [m|]; [|apply ctx_le_refl].
  assert (ctx_le c (add_defined_var (group 1 m) (add_function (group 1 m) c))) as Hle.
  { eapply ctx_le_trans; [apply add_function_le|apply add_defined_var_le]. }
  case_bool_decide; [|done].
  destruct (parse_params_spec (group 2 m)
              (defined_vars (add_defined_var (group 1 m) (add_function (group 1 m) c))))
    as [_ Hdv].
  destruct (parse_params _ _) as [pl dv]. simpl in Hdv.
  eapply ctx_le_trans; [exact Hle|]. split_and!; simpl; [|done..].
  rewrite Hdv. apply union_subseteq_r.
Qed.

Lemma ctx_class_le s c : ctx_le c (ctx_class s c).
Proof.
  unfold ctx_class. destruct (rmatch re_class s); [|apply ctx_le_refl].
  eapply ctx_le_trans; [apply add_class_le|apply add_defined_var_le].
Qed.

Lemma ctx_for_le i s c : ctx_le c (ctx_for i s c).
Proof.
  unfold ctx_for. destruct (rmatch re_for s); [|apply ctx_le_refl].
  apply (add_defined_var_le _ c).
Qed.

Lemma ctx_assign_le s c : ctx_le c (ctx_assign s c).
Proof.
  unfold ctx_assign. destruct (rmatch re_assign s); [|apply ctx_le_refl].
  apply add_defined_var_le.
Qed.

Lemma ctx_multi_assign_le s c : ctx_le c (ctx_multi_assign s c).
Proof.
  unfold ctx_multi_assign. destruct (rmatch re_multi_assign s); [|apply ctx_le_refl].
  destruct (contains _ _); [|apply ctx_le_refl].
  apply foldl_le. intros c' var. destruct (_ && _); [apply add_defined_var_le|apply ctx_le_refl].
Qed.

Lemma analyze_line_le i line c : ctx_le c (analyze_line i line c).
Proof.
  unfold analyze_line. destruct (skipped line); [apply ctx_le_refl|].
  repeat (eapply ctx_le_trans;
    [|first [apply ctx_multi_assign_le|apply ctx_assign_le|apply ctx_for_le
            |apply ctx_class_le|apply ctx_func_le|apply ctx_from_import_le]]).
  apply ctx_import_le.
Qed.

Lemma analyze_loop_le lines : ∀ i c, ctx_le c (analyze_loop i lines c).
Proof.
  induction lines as [|line lines IH]; intros i c; simpl; [apply ctx_le_refl|].
  eapply ctx_le_trans; [apply analyze_line_le|apply IH].
Qed.


(** *** Every recognizer records the name it binds *)

Lemma ctx_import_binds i s c m :
  rmatch re_import s = Some m → Known (ctx_import i s c) (group 1 m).
Proof.
  intros Hm. unfold ctx_import. rewrite Hm. right; left. simpl.
  apply elem_of_union_l. by apply elem_of_singleton.
Qed.

Lemma foldl_add_defined_elem (f : string → string) l : ∀ c imp,
  imp ∈ l →
  f imp ∈ defined_vars (foldl (λ c imp, add_defined_var (f imp) c) c l).
Proof.
  induction l as [|a l IH]; intros c imp Hin; [by apply elem_of_nil in Hin|]. simpl.
  apply elem_of_cons in Hin as [->|Hin]; [|by apply IH].
  eapply (foldl_le (λ c imp, add_defined_var (f imp) c)).
  - intros. apply add_defined_var_le.
  - simpl. apply elem_of_union_l. by apply elem_of_singleton.
Qed.

Lemma ctx_from_import_binds_module s c m :
  rmatch re_from_import s = Some m → Known (ctx_from_import s c) (group 1 m).
Proof.
  intros Hm. unfold ctx_from_import. rewrite Hm.
  eapply Known_le; [apply foldl_le; intros; apply add_defined_var_le|].
  right; left. simpl. apply elem_of_union_l. by apply elem_of_singleton.
Qed.

Lemma ctx_from_import_binds_name s c m imp :
  rmatch re_from_import s = Some m → imp ∈ split "," (group 2 m) →
  Known (ctx_from_import s c) (strip imp).
Proof.
  intros Hm Hin. unfold ctx_from_import. rewrite Hm. left.
  by apply (foldl_add_defined_elem strip).
Qed.

Lemma ctx_func_binds_name s c m :
  rmatch re_func s = Some m → Known (ctx_func s c) (group 1 m).
Proof.
  intros Hm. right; right; left. unfold ctx_func. rewrite Hm.
  case_bool_decide.
  - destruct (parse_params _ _). simpl. apply elem_of_union_l. by apply elem_of_singleton.
  - simpl. apply elem_of_union_l. by apply elem_of_singleton.
Qed.

Lemma ctx_func_binds_param s c m x :
  rmatch re_func s = Some m → group 2 m ≠ "" →
  x ∈ fst (parse_params (group 2 m) ∅) → Known (ctx_func s c) x.
Proof.
  intros Hm Hp Hx. left.
  destruct (ctx_func_matched s c m Hm Hp) as (_ & -> & _).
  apply elem_of_union_l. by apply elem_of_list_to_set.
Qed.

Lemma ctx_class_binds s c m :
  rmatch re_class s = Some m → Known (ctx_class s c) (group 1 m).
Proof.
  intros Hm. unfold ctx_class. rewrite Hm. left. simpl.
  apply elem_of_union_l. by apply elem_of_singleton.
Qed.

Lemma ctx_for_binds i s c m :
  rmatch re_for s = Some m → Known (ctx_for i s c) (group 1 m).
Proof.
  intros Hm. unfold ctx_for. rewrite Hm. left. simpl.
  apply elem_of_union_l. by apply elem_of_singleton.
Qed.

Lemma ctx_assign_binds s c m :
  rmatch re_assign s = Some m → Known (ctx_assign s c) (group 1 m).
Proof.
  intros Hm. unfold ctx_assign. rewrite Hm. left. simpl.
  apply elem_of_union_l. by apply elem_of_singleton.
Qed.

Lemma ctx_multi_assign_binds s c m seg :
  rmatch re_multi_assign s = Some m → contains "," (group 1 m) = true →
  seg ∈ split "," (group 1 m) → strip seg ≠ "" → isidentifier (strip seg) = true →
  Known (ctx_multi_assign s c) (strip seg).
Proof.
  intros Hm Hc Hin Hne Hid. unfold ctx_multi_assign. rewrite Hm, Hc. left.
  revert c. induction (split "," (group 1 m)) as [|a l IH]; intros c;
    [by apply elem_of_nil in Hin|]. simpl.
  apply elem_of_cons in Hin as [<-|Hin]; [|by apply IH].
  rewrite bool_decide_eq_true_2, Hid by done. simpl.
  eapply (foldl_le (λ c var, if bool_decide (strip var ≠ "") && isidentifier (strip var)
                             then add_defined_var (strip var) c else c)).
  - intros c' var. destruct (_ && _); [apply add_defined_var_le|apply ctx_le_refl].
  - simpl. apply elem_of_union_l. by apply elem_of_singleton.
Qed.

(** A line that is read and binds [x] makes [x] known. *)
Lemma analyze_line_binds i line c x :
  Binds line x → Known (analyze_line i line c) x.
Proof.
  intros [Hskip HB]. unfold analyze_line. rewrite Hskip.
  destruct HB as [m Hm ->|m Hm ->|m imp Hm Himp ->|m Hm ->|m Hm Hp Hx|m Hm ->
                 |m Hm ->|m Hm ->|m seg Hm Hc Hseg -> Hne Hid];
    repeat first
      [ by eapply ctx_import_binds
      | by eapply ctx_from_import_binds_module
      | by eapply ctx_from_import_binds_name
      | by eapply ctx_func_binds_name
      | by eapply ctx_func_binds_param
      | by eapply ctx_class_binds
      | by eapply ctx_for_binds
      | by eapply ctx_assign_binds
      | by eapply ctx_multi_assign_binds
      | eapply Known_le;
          [first [apply ctx_multi_assign_le|apply ctx_assign_le|apply ctx_for_le
                 |apply ctx_class_le|apply ctx_func_le|apply ctx_from_import_le]|] ].
Qed.

Lemma analyze_loop_binds lines : ∀ i c j line x,
  lines !! j = Some line → Binds line x → Known (analyze_loop i lines c) x.
Proof.
  induction lines as [|line0 lines IH]; intros i c j line x Hj HB; [done|]. simpl.
  destruct j as [|j]; simpl in Hj.
  - injection Hj as ->. eapply Known_le; [apply analyze_loop_le|].
    by apply analyze_line_binds.
  - by eapply IH.
Qed.

(** The context of a text knows every name bound by one of its lines. *)
Lemma analyze_code_context_binds code j line x :
  split_lines code !! j = Some line → Binds line x →
  Known (analyze_code_context code) x.
Proof. apply analyze_loop_binds. Qed.


(** *** Known names are never reported *)

Lemma Known_known_entity c x : Known c x → known_entity c x = true.
Proof.
  unfold known_entity. intros [H|[H|[H|H]]];
    rewrite (bool_decide_eq_true_2 _ H); by rewrite ?orb_true_r.
Qed.

Lemma known_never_reported code c ds x :
  Known c x → detect_errors_with_context code c = Some ds →
  ∀ d, d ∈ ds → d_type d = "NameError" → diag_var d ≠ Some x.
Proof.
  intros HK Hds d Hd Hty Hvar. unfold detect_errors_with_context in Hds.
  destruct (detect_loop_elem _ _ _ _ _ Hds _ Hd) as (i & line & es & Hi & Hes & Hdes).
  assert (d ∈ filter (λ d, d_type d = "NameError") es) as Hf
    by by apply list_elem_of_filter.
  pose proof (detect_line_undefined _ _ _ _ _ Hes) as Hu.
  destruct (skipped line); [rewrite Hu in Hf; by apply elem_of_nil in Hf|].
  destruct (first_surviving c line) as [var|] eqn:Hfs;
    [|rewrite Hu in Hf; by apply elem_of_nil in Hf].
  destruct Hu as (d' & Hone & Hvar'). rewrite Hone in Hf.
  apply list_elem_of_singleton in Hf as ->.
  assert (var = x) as -> by congruence.
  apply find_some in Hfs as [_ Hex]. unfold excluded in Hex.
  by rewrite (Known_known_entity _ _ HK) in Hex.
Qed.

(** *** The recorded parameter lists *)

Lemma ctx_func_params_inv stripped c f pl :
  function_params (ctx_func stripped c) !! f = Some pl →
  function_params c !! f = Some pl ∨ "self" ∉ pl.
Proof.
  unfold ctx_func. destruct (rmatch re_func stripped) as [m|]; [|by left].
  case_bool_decide; [|by left].
  destruct (parse_params_spec (group 2 m)
    (defined_vars (add_defined_var (group 1 m) (add_function (group 1 m) c)))) as [Hs _].
  destruct (parse_params _ _) as [pl' dv]. simpl in *.
  destruct (decide (group 1 m = f)) as [->|Hne].
  - rewrite lookup_insert_eq. intros [= <-]. by right.
  - rewrite lookup_insert_ne by done. by left.
Qed.

Lemma foldl_params {A} (f : Context → A → Context) l :
  (∀ c a, function_params (f c a) = function_params c) →
  ∀ c, function_params (foldl f c l) = function_params c.
Proof.
  intros Hf. induction l as [|a l IH]; intros c; simpl; [done|]. by rewrite IH, Hf.
Qed.

Lemma analyze_line_params_inv i line c f pl :
  function_params (analyze_line i line c) !! f = Some pl →
  function_params c !! f = Some pl ∨ "self" ∉ pl.
Proof.
  unfold analyze_line. destruct (skipped line); [by left|].
  assert (∀ s c, function_params (ctx_multi_assign s c) = function_params c) as H7.
  { intros s c0. unfold ctx_multi_assign. destruct (rmatch _ _); [|done].
    destruct (contains _ _); [|done]. apply foldl_params.
    intros c1 a. by destruct (_ && _). }
  assert (∀ s c, function_params (ctx_assign s c) = function_params c) as H6.
  { intros s c0. unfold ctx_assign. by destruct (rmatch _ _). }
  assert (∀ s c, function_params (ctx_for i s c) = function_params c) as H5.
  { intros s c0. unfold ctx_for. by destruct (rmatch _ _). }
  assert (∀ s c, function_params (ctx_class s c) = function_params c) as H4.
  { intros s c0. unfold ctx_class. by destruct (rmatch _ _). }
  assert (∀ s c, function_params (ctx_from_import s c) = function_params c) as H2.
  { intros s c0. unfold ctx_from_import. destruct (rmatch _ _); [|done].
    by rewrite foldl_params. }
  assert (∀ s c, function_params (ctx_import i s c) = function_params c) as H1.
  { intros s c0. unfold ctx_import. by destruct (rmatch _ _). }
  rewrite H7, H6, H5, H4. intros H. apply ctx_func_params_inv in H as [H|H]; [|by right].
  left. by rewrite H2, H1 in H.
Qed.

(** No parameter list of the context holds [self]. *)
Lemma analyze_code_context_no_self code f pl :
  function_params (analyze_code_context code) !! f = Some pl → "self" ∉ pl.
Proof.
  unfold analyze_code_context. generalize 0.
  assert (∀ lines i c,
            function_params (analyze_loop i lines c) !! f = Some pl →
            function_params c !! f = Some pl ∨ "self" ∉ pl) as H.
  { induction lines as [|line lines IH]; intros i c Hl; simpl in Hl; [by left|].
    apply IH in Hl as [Hl|Hl]; [|by right]. by apply analyze_line_params_inv in Hl. }
  intros n Hl. by apply H in Hl as [Hl|Hl].
Qed.

End ContextFacts.

(** ** Claims about the context builder *)

Import ContextFacts.


(** C3, as amended.  For every function-definition line that the context
    builder recognizes (with a non-empty parameter text), the parameter list
    recorded in [function_params] leaves out the literal name [self], and the
    names added to [defined_vars] by the line are the function name and the
    names of that list.  Only [self] is left out: [cls] is recorded like any
    other parameter. *)
Theorem func_params_exclude_self (stripped : string) (c : Context) (m : groups) :
  rmatch re_func stripped = Some m → group 2 m ≠ "" →
  ∃ pl, function_params (ctx_func stripped c) !! group 1 m = Some pl ∧
        ("self" ∉ pl) ∧
        defined_vars (ctx_func stripped c)
          = list_to_set pl ∪ ({[group 1 m]} ∪ defined_vars c).
Proof.
  intros Hm Hp. destruct (ctx_func_matched stripped c m Hm Hp) as (Hfp & Hdv & _).
  exists (fst (parse_params (group 2 m) ∅)). split_and!; [done| |done].
  apply parse_params_spec.
Qed.

Lemma func_params_exclude_self_witness :
  ∃ pl, function_params (ctx_func "def f(self, x, y=2):" empty_context) !! "f" = Some pl ∧
        ("self" ∉ pl) ∧
        defined_vars (ctx_func "def f(self, x, y=2):" empty_context)
          = list_to_set pl ∪ ({["f"]} ∪ ∅).
Proof.
  apply (func_params_exclude_self "def f(self, x, y=2):" empty_context
           (default ∅ (rmatch re_func "def f(self, x, y=2):"))).
  - vm_compute. reflexivity.
  - vm_compute. discriminate.
Defined.

(** C3, as stated, fails for [cls]: the line [def f(cls, x):] records the
    parameter list [cls, x] and adds [cls] to the defined names. *)
Lemma func_params_keep_cls_counterexample :
  function_params (analyze_code_context "def f(cls, x):") !! "f"
    = Some ["cls"; "x"] ∧
  "cls" ∈ defined_vars (analyze_code_context "def f(cls, x):").
Proof.
  split; [by vm_compute|]. apply (bool_decide_unpack _). by vm_compute.
Qed.

(** C4, as amended.  Every identifier bound by a line that the context
    builder recognizes (the target of a simple or tuple assignment at the
    start of the line, the module of [import], the module and the names of
    [from ... import], the variable of [for], the name of [class] or [def],
    and every parameter of a [def] line that is recorded, which leaves out
    the literal [self]) is never the subject of a possible-undefined-name
    diagnostic, on any line, when the scanner runs with the context of the
    same text. *)
Theorem bound_names_never_undefined (code : string) (j : nat) (line x : string) :
  split_lines code !! j = Some line → Binds line x →
  ∃ ds, scan code = Some ds ∧
    ∀ d, d ∈ ds → d_type d = "NameError" → diag_var d ≠ Some x.
Proof.
  intros Hj HB. unfold scan.
  destruct (detect_errors_total code (analyze_code_context code)) as [ds Hds].
  exists ds. split; [done|].
  eapply known_never_reported; [|done]. by eapply analyze_code_context_binds.
Qed.

Lemma bound_names_never_undefined_witness :
  ∃ ds, scan (join_lines ["total = 1"; "print(total)"]) = Some ds ∧
    ∀ d, d ∈ ds → d_type d = "NameError" → diag_var d ≠ Some "total".
Proof.
  apply (bound_names_never_undefined (join_lines ["total = 1"; "print(total)"])
           0 "total = 1" "total").
  - vm_compute. reflexivity.
  - split; [vm_compute; reflexivity|].
    apply (B_assign _ _ (default ∅ (rmatch re_assign "total = 1"))); vm_compute; reflexivity.
Defined.

(** C4, as stated, fails for names bound in a form that the context builder
    does not record.  The parameter [self] is left out by the test of line
    149.  The other forms have no recognizer: the alias of [import ... as]
    and of [from ... import ... as], the second module of an [import], a
    parameter with an annotation or a star, the second target of a [for], a
    function whose header carries a return annotation, an assignment that
    does not start its line.  In each of the texts the name is bound on
    line 0, and line 1 gets a possible-undefined-name diagnostic about it. *)
Lemma unrecognized_bindings_counterexample :
  group 2 <$> rmatch re_func "def f(self):" = Some "self" ∧
  (map diag_var ∘ reported "NameError" 1)
    <$> scan (join_lines ["def f(self):"; "    print(self)"])
  = Some [Some "self"] ∧
  (map diag_var ∘ reported "NameError" 1)
    <$> scan (join_lines ["import numpy as np"; "print(np)"])
  = Some [Some "np"] ∧
  (map diag_var ∘ reported "NameError" 1)
    <$> scan (join_lines ["from m import a as b"; "print(b)"])
  = Some [Some "b"] ∧
  (map diag_var ∘ reported "NameError" 1)
    <$> scan (join_lines ["import os, sys"; "print(sys)"])
  = Some [Some "sys"] ∧
  (map diag_var ∘ reported "NameError" 1)
    <$> scan (join_lines ["def f(a: int):"; "    print(a)"])
  = Some [Some "a"] ∧
  (map diag_var ∘ reported "NameError" 1)
    <$> scan (join_lines ["def f(*args):"; "    print(args)"])
  = Some [Some "args"] ∧
  (map diag_var ∘ reported "NameError" 1)
    <$> scan (join_lines ["for i, j in pairs:"; "    print(j)"])
  = Some [Some "j"] ∧
  (map diag_var ∘ reported "NameError" 1)
    <$> scan (join_lines ["def f(x) -> int:"; "print(f)"])
  = Some [Some "f"] ∧
  (map diag_var ∘ reported "NameError" 1)
    <$> scan (join_lines ["if c: x = 1"; "print(x)"])
  = Some [Some "x"].
Proof. split_and!; by vm_compute. Qed.

(** ** The rewrite engine *)

Module FixFacts.
Import Py PyFacts Re ReFacts Talon Props.

(** *** The sort of line 327 *)

Lemma insert_by_line_perm e l : insert_by_line e l ≡ₚ e :: l.
Proof.
  induction l as [|e' l IH]; simpl; [done|].
  destruct (d_line e' <=? d_line e); [done|]. rewrite IH. apply Permutation_swap.
Qed.

(** The sorted list is a rearrangement of the list. *)
Lemma sort_by_line_desc_perm errors : sort_by_line_desc errors ≡ₚ errors.
Proof.
  induction errors as [|e l IH]; simpl; [done|].
  rewrite insert_by_line_perm. by rewrite IH.
Qed.

Lemma sort_by_line_desc_Forall (P : Diagnostic → Prop) errors :
  Forall P errors → Forall P (sort_by_line_desc errors).
Proof. intros H. by rewrite sort_by_line_desc_perm. Qed.

Lemma insert_by_line_head e l :
  Forall (λ e', d_line e' ≤ d_line e) l → insert_by_line e l = e :: l.
Proof.
  destruct 1 as [|e' l Hle _]; simpl; [done|].
  apply Nat.leb_le in Hle. by rewrite Hle.
Qed.

Lemma insert_by_line_sorted e l : desc_lines l → desc_lines (insert_by_line e l).
Proof.
  unfold desc_lines. induction 1 as [|e' l Hl IH Hall]; simpl.
  - by repeat constructor.
  - destruct (d_line e' <=? d_line e) eqn:Hle.
    + apply Nat.leb_le in Hle. constructor; [by constructor|].
      constructor; [done|]. eapply Forall_impl; [exact Hall|]. simpl. intros. lia.
    + apply Nat.leb_gt in Hle. constructor; [done|].
      rewrite insert_by_line_perm. constructor; [lia|done].
Qed.

(** The sorted list is in descending order of line. *)
Lemma sort_by_line_desc_sorted errors : desc_lines (sort_by_line_desc errors).
Proof.
  induction errors as [|e l IH]; simpl; [constructor|]. by apply insert_by_line_sorted.
Qed.

Lemma insert_by_line_filter (P : Diagnostic → Prop) `{∀ d, Decision (P d)} e l :
  desc_lines l →
  filter P (insert_by_line e l)
  = if decide (P e) then insert_by_line e (filter P l) else filter P l.
Proof.
  unfold desc_lines. induction 1 as [|e' l Hl IH Hall]; simpl.
  - rewrite filter_cons. by destruct (decide (P e)).
  - destruct (d_line e' <=? d_line e) eqn:Hle.
    + rewrite filter_cons. destruct (decide (P e)); [|done].
      rewrite insert_by_line_head; [done|].
      apply Nat.leb_le in Hle. apply Forall_forall. intros x Hx.
      apply list_elem_of_filter in Hx as [_ Hx].
      apply elem_of_cons in Hx as [->|Hx]; [done|].
      rewrite Forall_forall in Hall. specialize (Hall _ Hx). simpl in Hall. lia.
    + rewrite !filter_cons, IH.
      destruct (decide (P e)), (decide (P e')); simpl; by rewrite ?Hle.
Qed.

(** Sorting commutes with dropping diagnostics. *)
Lemma sort_by_line_desc_filter (P : Diagnostic → Prop) `{∀ d, Decision (P d)} errors :
  filter P (sort_by_line_desc errors) = sort_by_line_desc (filter P errors).
Proof.
  induction errors as [|e l IH]; simpl; [done|].
  rewrite insert_by_line_filter by apply sort_by_line_desc_sorted.
  rewrite filter_cons. destruct (decide (P e)); simpl; by rewrite IH.
Qed.

(** The sort is stable: the diagnostics of one line keep their order. *)
Lemma sort_by_line_desc_stable errors k :
  filter (λ d, d_line d = k) (sort_by_line_desc errors)
  = filter (λ d, d_line d = k) errors.
Proof.
  rewrite sort_by_line_desc_filter.
  assert (∀ l, Forall (λ d, d_line d = k) l → sort_by_line_desc l = l) as Hsame.
  { induction 1 as [|e l He Hl IH]; simpl; [done|]. rewrite IH.
    apply insert_by_line_head. eapply Forall_impl; [exact Hl|]. simpl. intros. lia. }
  apply Hsame. apply Forall_forall. intros d Hd. by apply list_elem_of_filter in Hd as [? _].
Qed.


(** *** What a change of the buffer does to the other lines *)

(** Replacing line [n] by a block leaves the earlier lines in place: this is
    what the descending order relies on. *)
Lemma list_splice_earlier {A} n (xs l : list A) j :
  j < n → n < length l → list_splice n xs l !! j = l !! j.
Proof.
  intros Hj Hn. unfold list_splice.
  rewrite lookup_app_l by (rewrite length_take; lia).
  apply lookup_take_lt. lia.
Qed.

(** Inserting a line at [n] moves every line from [n] on one place down,
    whatever the order of the diagnostics. *)
Lemma list_insert_at_later {A} n (x : A) l j :
  n ≤ j → n ≤ length l → list_insert_at n x l !! S j = l !! j.
Proof.
  intros Hj Hn. unfold list_insert_at.
  rewrite lookup_app_r by (rewrite length_take; lia).
  rewrite length_take. replace (n `min` length l) with n by lia.
  replace (S j - n) with (S (j - n)) by lia. simpl.
  rewrite lookup_drop. f_equal. lia.
Qed.

(** *** One round of the rewrite loop *)

Lemma length_list_insert_at {A} n (x : A) l :
  length (list_insert_at n x l) = S (length l).
Proof.
  unfold list_insert_at. rewrite length_app. simpl.
  rewrite length_take, length_drop. lia.
Qed.

Lemma length_list_splice {A} n (xs : list A) l :
  n < length l → length (list_splice n xs l) = length l + length xs - 1.
Proof.
  intros Hn. unfold list_splice. rewrite !length_app, length_take, length_drop. lia.
Qed.

Lemma find_insertion_loop_total lines current_indent n :
  n ≤ length lines → is_Some (find_insertion_loop lines current_indent n).
Proof.
  induction n as [|i IH]; intros Hn; simpl; [by eexists|].
  destruct (lookup_lt_is_Some_2 lines i ltac:(lia)) as [line ->]. simpl.
  case_bool_decide; [apply IH; lia|].
  destruct (_ <? _); [by eexists|].
  destruct (_ && _); [by eexists|apply IH; lia].
Qed.

(** [find_insertion_point] returns for every line of the buffer. *)
Lemma find_insertion_point_total lines error_line :
  error_line < length lines → is_Some (find_insertion_point lines error_line).
Proof.
  intros Hn. unfold find_insertion_point.
  destruct (lookup_lt_is_Some_2 lines error_line Hn) as [line ->]. simpl.
  apply find_insertion_loop_total. lia.
Qed.

(** A diagnostic without a fix leaves the state as it is. *)
Lemma apply_fix_no_fix c st e : d_fix e = None → apply_fix c st e = Some st.
Proof. intros H. unfold apply_fix. by rewrite H. Qed.

(** A fix of an unknown kind leaves the state as it is. *)
Lemma apply_fix_unrecognized c st e :
  unrecognized e = true → apply_fix c st e = Some st.
Proof.
  unfold unrecognized, apply_fix. destruct (d_fix e) as [fx|]; [|done].
  unfold recognized, fix_kinds. intros H. apply negb_true_iff, bool_decide_eq_false in H.
  repeat (case_bool_decide as Hk;
          [exfalso; apply H; rewrite Hk; repeat first [by left|right]|clear Hk]).
  done.
Qed.

(** A well-formed diagnostic is applied without an exception, and the
    buffer does not shrink. *)
Lemma apply_fix_ok c n st e :
  wf_diag n e → n ≤ length (buf st) →
  ∃ st', apply_fix c st e = Some st' ∧ length (buf st) ≤ length (buf st').
Proof.
  intros Hwf Hn. unfold apply_fix. destruct (d_fix e) as [fx|] eqn:Hfx; [|by exists st].
  specialize (Hwf fx Hfx).
  assert (fix_type fx ∈ fix_kinds → d_line e < length (buf st) ∧ has_keys fx) as Hwf'.
  { intros Hk. destruct Hwf as [? ?]; [by apply bool_decide_eq_true|]. split; [lia|done]. }
  clear Hwf. unfold fix_kinds, has_keys in Hwf'.
  case_bool_decide as H1.
  { destruct Hwf' as [Hl (Hk & _)]; [rewrite H1; by left|].
    destruct (Hk H1) as [new_line ->]. simpl. unfold list_assign.
    rewrite bool_decide_eq_true_2 by lia. simpl. eexists. split; [done|]. simpl.
    by rewrite length_insert. }
  case_bool_decide as H2.
  { destruct Hwf' as [Hl (_ & Hk & _)]; [rewrite H2; right; by left|].
    destruct (Hk H2) as [var ->]. simpl.
    destruct (lookup_lt_is_Some_2 (buf st) (d_line e) Hl) as [ol ->]. simpl.
    eexists. split; [done|]. simpl. rewrite length_list_splice by lia. simpl. lia. }
  case_bool_decide as H3.
  { destruct Hwf' as [Hl (_ & _ & Hk & _)]; [rewrite H3; right; right; by left|].
    destruct (Hk H3) as [var ->]. simpl.
    destruct (_ && _); [|by exists st].
    destruct (find_insertion_point_total (buf st) (d_line e) Hl) as [il ->]. simpl.
    destruct (lookup_lt_is_Some_2 (buf st) (d_line e) Hl) as [ol ->]. simpl.
    eexists. split; [done|]. simpl. rewrite length_list_insert_at. lia. }
  case_bool_decide as H4.
  { destruct Hwf' as [Hl _]; [rewrite H4; right; right; right; by left|].
    destruct (lookup_lt_is_Some_2 (buf st) (d_line e) Hl) as [ol ->]. simpl.
    eexists. split; [done|]. simpl. rewrite length_list_splice by lia. simpl. lia. }
  case_bool_decide as H5; [|by exists st].
  destruct Hwf' as [Hl (_ & _ & _ & Hk)]; [rewrite H5; right; right; right; right; by left|].
  destruct (Hk H5) as [filename Hfn].
  destruct (_ && _); simpl.
  - assert (d_line e < length (list_insert_at 0 "import os" (buf st))) as Hl'
      by (rewrite length_list_insert_at; lia).
    destruct (lookup_lt_is_Some_2 _ _ Hl') as [ol ->]. simpl. rewrite Hfn. simpl.
    eexists. split; [done|]. simpl.
    rewrite length_list_splice by done. rewrite length_list_insert_at. simpl. lia.
  - destruct (lookup_lt_is_Some_2 (buf st) (d_line e) Hl) as [ol ->]. simpl.
    rewrite Hfn. simpl.
    eexists. split; [done|]. simpl. rewrite length_list_splice by lia. simpl. lia.
Qed.

Lemma apply_loop_ok c n errors : ∀ st,
  Forall (wf_diag n) errors → n ≤ length (buf st) →
  ∃ st', apply_loop c st errors = Some st' ∧ length (buf st) ≤ length (buf st').
Proof.
  induction errors as [|e errors IH]; intros st Hwf Hn; simpl; [by exists st|].
  apply Forall_cons in Hwf as [He Hwf].
  destruct (apply_fix_ok c n st e He Hn) as (st1 & -> & Hlen). simpl.
  destruct (IH st1 Hwf ltac:(lia)) as (st' & -> & Hlen'). exists st'. split; [done|lia].
Qed.

(** Diagnostics that leave the state as it is can be dropped from the loop. *)
Lemma apply_loop_filter c (P : Diagnostic → Prop) `{∀ d, Decision (P d)} errors :
  (∀ st e, ¬ P e → apply_fix c st e = Some st) →
  ∀ st, apply_loop c st errors = apply_loop c st (filter P errors).
Proof.
  intros Hnop. induction errors as [|e errors IH]; intros st; simpl; [done|].
  rewrite filter_cons. destruct (decide (P e)) as [HP|HP]; simpl.
  - destruct (apply_fix c st e); simpl; [apply IH|done].
  - rewrite Hnop by done. simpl. apply IH.
Qed.

(** Without any fix the loop leaves the state as it is. *)
Lemma apply_loop_no_fix c errors : ∀ st,
  Forall (λ e, d_fix e = None) errors → apply_loop c st errors = Some st.
Proof.
  induction errors as [|e errors IH]; intros st Hall; simpl; [done|].
  apply Forall_cons in Hall as [He Hall]. rewrite apply_fix_no_fix by done. simpl.
  by apply IH.
Qed.


(** The diagnostics of the scanner are well formed for the scanned text. *)
Lemma detect_errors_wf code c ds :
  detect_errors_with_context code c = Some ds →
  Forall (wf_diag (line_count code)) ds.
Proof.
  intros Hds. apply Forall_forall. intros d Hd fx Hfx _.
  unfold detect_errors_with_context in Hds.
  destruct (detect_loop_elem _ _ _ _ _ Hds _ Hd) as (j & line & es & Hj & Hes & Hdes).
  apply detect_line_wf in Hes. rewrite Forall_forall in Hes.
  destruct (Hes _ Hdes) as (Hline & fx' & Hfx' & Hkeys).
  apply lookup_lt_Some in Hj. split; [unfold line_count; simpl in Hline; lia|].
  congruence.
Qed.

(** The rewrite of a well-formed list returns a text with at least as many
    lines as the input. *)
Lemma apply_smart_fixes_ok code errors c :
  Forall (wf_diag (line_count code)) errors →
  ∃ out, apply_smart_fixes code errors c = Some out ∧
         line_count code ≤ line_count out.
Proof.
  intros Hwf. unfold apply_smart_fixes.
  destruct (apply_loop_ok c (line_count code) (sort_by_line_desc errors)
              (MkFixState (split_lines code) ∅ ∅)) as (st & -> & Hlen).
  { by apply sort_by_line_desc_Forall. }
  { done. }
  simpl in *. eexists. split; [done|]. unfold line_count in *.
  etrans; [exact Hlen|]. apply split_join_length.
  intros Hnil. rewrite Hnil in Hlen. simpl in Hlen.
  pose proof (split_length_pos newline code). unfold split_lines in Hlen. lia.
Qed.

End FixFacts.

(** ** Claims about the rewrite engine *)

Import FixFacts.


(** C6.  For every input, and every context, the scanner returns a list of
    diagnostics, the rewrite of the input with that list returns a text, and
    that text has at least as many lines as the input. *)
Theorem fixes_never_drop_lines (code : string) (c1 c2 : Context) :
  ∃ errors out,
    detect_errors_with_context code c1 = Some errors ∧
    apply_smart_fixes code errors c2 = Some out ∧
    line_count code ≤ line_count out.
Proof.
  destruct (detect_errors_total code c1) as [errors Herr].
  destruct (apply_smart_fixes_ok code errors c2) as (out & Hout & Hlen).
  { by eapply detect_errors_wf. }
  by exists errors, out.
Qed.

(** C8.  On a well-formed list of diagnostics (every fix of a known kind
    has the keys of its kind and belongs to a diagnostic of a line of the
    text) the rewrite returns a text.  A diagnostic whose fix has an unknown
    kind leaves the line buffer and the rest of the state unchanged, and the
    result is the one obtained without such diagnostics: the other fixes are
    applied all the same. *)
Theorem unknown_fix_kinds_ignored (code : string) (errors : list Diagnostic)
    (c : Context) :
  Forall (wf_diag (line_count code)) errors →
  (∀ st e, unrecognized e = true → apply_fix c st e = Some st) ∧
  ∃ out,
    apply_smart_fixes code errors c = Some out ∧
    apply_smart_fixes code (filter (λ e, unrecognized e = false) errors) c = Some out.
Proof.
  intros Hwf. split; [intros; by apply apply_fix_unrecognized|].
  destruct (apply_smart_fixes_ok code errors c Hwf) as (out & Hout & _).
  exists out. split; [done|]. rewrite <- Hout. unfold apply_smart_fixes.
  rewrite <- sort_by_line_desc_filter.
  rewrite <- (apply_loop_filter c (λ e, unrecognized e = false)); [done|].
  intros st e He. apply apply_fix_unrecognized. by destruct (unrecognized e).
Qed.

Lemma unknown_fix_kinds_ignored_witness :
  let future := MkDiagnostic "FutureError" "from a later detector" 7 0 ""
                  (Some (MkFix "future_fix" 7 None None None None)) in
  let module := MkDiagnostic "ModuleNotFoundError" "" 0 0 ""
                  (Some (MkFix "add_comment" 0
                     (Some "import pandas  # Run: pip install pandas")
                     None None None)) in
  (∀ st e, unrecognized e = true → apply_fix empty_context st e = Some st) ∧
  ∃ out,
    apply_smart_fixes "import pandas" [future; module] empty_context = Some out ∧
    apply_smart_fixes "import pandas"
      (filter (λ e, unrecognized e = false) [future; module]) empty_context = Some out.
Proof.
  intros future module.
  apply (unknown_fix_kinds_ignored "import pandas" [future; module] empty_context).
  constructor; [|constructor; [|constructor]];
    intros fx Hfx Hrec; vm_compute in Hfx; injection Hfx as <-.
  - vm_compute in Hrec. discriminate.
  - split; [vm_compute; lia|]. unfold has_keys. simpl. split_and!; by eauto.
Defined.

(** C10.  When no diagnostic of the list carries a fix (the empty list in
    particular), the rewrite returns the input text as it is. *)
Theorem no_fix_identity (code : string) (errors : list Diagnostic) (c : Context) :
  Forall (λ e, d_fix e = None) errors →
  apply_smart_fixes code errors c = Some code.
Proof.
  intros Hall. unfold apply_smart_fixes.
  rewrite apply_loop_no_fix by by apply sort_by_line_desc_Forall.
  simpl. by rewrite join_lines_split_lines.
Qed.

Lemma no_fix_identity_witness :
  apply_smart_fixes (join_lines ["x = 1"; ""; "print(x)"])
    [MkDiagnostic "NameError" "'y' is not defined" 2 0 "Define variable before use" None]
    empty_context
  = Some (join_lines ["x = 1"; ""; "print(x)"]).
Proof.
  apply (no_fix_identity (join_lines ["x = 1"; ""; "print(x)"])).
  repeat constructor.
Defined.


(** C1 (defect of the code).  The descending order does not keep the line
    indices of the pending diagnostics valid.

    On the two lines [x = 1 / 0] and [y = z] the scan flags the division on
    line 0 and the name [z] on line 1.  The fix of line 1 comes first and
    inserts the definition of [z] at line 0; the fix of line 0 then reads
    line 0 of the buffer and wraps the inserted definition, not the
    division, which is left as it was.

    On ["f = open('a.txt')"] the only fix first inserts [import os] at
    line 0 and then reads line 0, so the existence check is wrapped around
    the inserted import.  On ["x = y / 0"] the two diagnostics of line 0 are
    applied in scan order: the definition of [y] is inserted at line 0, and
    the division fix wraps that inserted line. *)
Theorem fix_applied_to_shifted_line :
  map (λ d, (d_type d, d_line d)) <$> scan (join_lines ["x = 1 / 0"; "y = z"])
    = Some [("ZeroDivisionError", 0); ("NameError", 1)] ∧
  analyze_and_fix (join_lines ["x = 1 / 0"; "y = z"])
    = Some (join_lines
        [ "try:";
          "    z = None  # TODO: Initialize this variable";
          "except ZeroDivisionError:";
          "    result = 0  # Handle division by zero";
          "x = 1 / 0";
          "y = z" ]) ∧
  map (λ d, (d_type d, d_line d)) <$> scan "f = open('a.txt')"
    = Some [("FileNotFoundError", 0)] ∧
  analyze_and_fix "f = open('a.txt')"
    = Some (join_lines
        [ "if os.path.exists('a.txt'):";
          "    import os";
          "else:";
          "    print(f'File not found: a.txt')";
          "f = open('a.txt')" ]) ∧
  map (λ d, (d_type d, d_line d)) <$> scan "x = y / 0"
    = Some [("NameError", 0); ("ZeroDivisionError", 0)] ∧
  analyze_and_fix "x = y / 0"
    = Some (join_lines
        [ "try:";
          "    y = None  # TODO: Initialize this variable";
          "except ZeroDivisionError:";
          "    result = 0  # Handle division by zero";
          "x = y / 0" ]).
Proof. split_and!; by vm_compute. Qed.

(** C2 (defect of the code).  On ["import pandas"] the scan reports two
    diagnostics, not one: the unresolved-module diagnostic and a
    possible-undefined-name diagnostic about the keyword [import], which no
    test of the token loop excludes.  The rewrite then inserts a definition
    of [import] at line 0, and the commented import ends up on line 1. *)
Theorem import_pandas_two_diagnostics :
  map (λ d, (d_type d, d_line d, diag_var d)) <$> scan "import pandas"
    = Some [("ModuleNotFoundError", 0, None); ("NameError", 0, Some "import")] ∧
  analyze_and_fix "import pandas"
    = Some (join_lines
        [ "import = None  # TODO: Initialize this variable";
          "import pandas  # Run: pip install pandas" ]).
Proof. split; by vm_compute. Qed.

(** *** The scenarios of the specification *)

(** The attribute scenario: one diagnostic, on line 1, and a four-line
    guard in place of line 1. *)
Example scenario_none_attribute :
  let code := join_lines ["data = None"; "result = data.process()"] in
  map (λ d, (d_type d, d_line d, diag_var d)) <$> scan code
    = Some [("AttributeError", 1, Some "data")] ∧
  analyze_and_fix code
    = Some (join_lines
        [ "data = None";
          "if data is not None:";
          "    result = data.process()";
          "else:";
          "    print(f'Error: data is None')" ]).
Proof. split; by vm_compute. Qed.

(** The undefined-name scenario: the definition is inserted at line 0. *)
Example scenario_undefined_name :
  map (λ d, (d_type d, d_line d, diag_var d)) <$> scan "x = undefined_variable"
    = Some [("NameError", 0, Some "undefined_variable")] ∧
  analyze_and_fix "x = undefined_variable"
    = Some (join_lines
        [ "undefined_variable = None  # TODO: Initialize this variable";
          "x = undefined_variable" ]).
Proof. split; by vm_compute. Qed.

(** ** More on the scanner *)

Module MoreScanFacts.
Import Py PyFacts Re ReFacts Talon Props ScanFacts ContextFacts FixFacts Api MoreProps.

(** *** More on the string primitives *)

Lemma startswith_len sub s : startswith sub s = true → len sub ≤ len s.
Proof.
  intros H. apply startswith_split in H as [post ->]. rewrite len_app. lia.
Qed.

(** [s.index(sub)] is the offset of the first occurrence of [sub]. *)
Lemma index_spec sub s : ∀ n,
  index sub s = Some n →
  ∃ pre post, s = pre +:+ sub +:+ post ∧ len pre = n ∧
    ∀ pre' post', s = pre' +:+ sub +:+ post' → n ≤ len pre'.
Proof.
  induction s as [|a s IH]; intros n H; simpl in H.
  - destruct (startswith sub "") eqn:Hs; [|done]. injection H as <-.
    apply startswith_split in Hs as [post Hs]. exists "", post.
    split_and!; [done|done|]. intros. lia.
  - destruct (startswith sub (String a s)) eqn:Hs.
    + injection H as <-. apply startswith_split in Hs as [post Hs].
      exists "", post. split_and!; [done|done|]. intros. lia.
    + apply fmap_Some in H as (k & Hk & ->).
      destruct (IH _ Hk) as (pre & post & Hs' & Hlen & Hleft). subst s.
      exists (String a pre), post. split_and!; [done|by rewrite len_cons, Hlen|].
      intros pre' post' Heq. destruct pre' as [|b pre'].
      * rewrite sapp_nil_l in Heq. rewrite Heq, startswith_app in Hs. done.
      * rewrite !sapp_cons in Heq. injection Heq as <- Heq.
        specialize (Hleft _ _ Heq). rewrite len_cons. lia.
Qed.

(** *** The tokens of [re.findall] *)

Lemma findall_from_sound r s : ∀ skip pv x,
  x ∈ findall_from r skip pv s →
  ∃ pre wd post g,
    s = pre +:+ wd +:+ post ∧ Matches r (last_of pv pre) wd post ∅ g ∧
    group 1 g = x.
Proof.
  induction s as [|a s IH]; intros skip pv x Hx.
  - destruct skip as [|n]; simpl in Hx; [|by apply elem_of_nil in Hx].
    destruct (attempt r pv "") as [st|] eqn:Ha; [|by apply elem_of_nil in Hx].
    apply list_elem_of_singleton in Hx as ->.
    apply attempt_sound in Ha as (wd & Hs & M). by exists "", wd, (rest st), (caps st).
  - assert (∀ n pv', x ∈ findall_from r n pv' s → pv' = Some a →
              ∃ pre wd post g, String a s = pre +:+ wd +:+ post ∧
                Matches r (last_of pv pre) wd post ∅ g ∧ group 1 g = x) as Hrec.
    { intros n pv' Hin ->. destruct (IH _ _ _ Hin) as (pre & wd & post & g & -> & M & Hg).
      by exists (String a pre), wd, post, g. }
    destruct skip as [|n]; simpl in Hx; [|by eapply Hrec].
    destruct (attempt r pv (String a s)) as [st|] eqn:Ha; [|by eapply Hrec].
    apply elem_of_cons in Hx as [->|Hx]; [|by eapply Hrec].
    apply attempt_sound in Ha as (wd & Hs & M). by exists "", wd, (rest st), (caps st).
Qed.

Lemma findall_sound r s x :
  x ∈ findall r s →
  ∃ pre wd post g,
    s = pre +:+ wd +:+ post ∧ Matches r (last_of None pre) wd post ∅ g ∧
    group 1 g = x.
Proof. apply findall_from_sound. Qed.

(** A token of line 239 is an identifier that occurs in the line. *)
Lemma var_ref_token line var :
  var ∈ findall re_var_ref line →
  isidentifier var = true ∧ ∃ pre post, line = pre +:+ var +:+ post.
Proof.
  intros H. apply findall_sound in H as (pre & wd & post & g & -> & M & <-).
  unfold re_var_ref in M. cbn [Seq foldr] in M. inv_matches.
  unfold group. rewrite lookup_insert_eq. simpl.
  split.
  - rewrite sapp_nil_l, H2. exact H1.
  - exists pre, post. by rewrite !sapp_nil_l, !sapp_nil_r.
Qed.


(** *** The diagnostics of each detector, field by field *)

Lemma detect_import_elem i line d :
  d ∈ detect_import i line →
  ∃ m, rmatch re_import_line line = Some m ∧ group 2 m ∈ known_modules ∧
    d = MkDiagnostic "ModuleNotFoundError"
          ("Module '" +:+ group 2 m +:+ "' might not be installed")
          i (len (group 1 m))
          ("Use 'pip install " +:+ group 2 m +:+ "'")
          (Some (MkFix "add_comment" i
                   (Some (line +:+ "  # Run: pip install " +:+ group 2 m))
                   None None None)).
Proof.
  unfold detect_import. destruct (rmatch re_import_line line) as [m|]; [|by intros ?%elem_of_nil].
  case_bool_decide; [|by intros ?%elem_of_nil].
  intros ->%list_elem_of_singleton. by exists m.
Qed.

Lemma detect_none_attr_elem lines i line es d :
  detect_none_attr lines i line = Some es → d ∈ es →
  ∃ m column, search re_none_attr line = Some m ∧
    any_earlier (group 1 m +:+ " = None") lines i = true ∧
    index (group 1 m) line = Some column ∧
    d = MkDiagnostic "AttributeError" ("'" +:+ group 1 m +:+ "' might be None")
          i column "Check if object is None first"
          (Some (MkFix "wrap_with_check" i None (Some (group 1 m)) (Some line) None)).
Proof.
  unfold detect_none_attr. intros H Hd.
  destruct (search re_none_attr line) as [m|];
    [|injection H as <-; by apply elem_of_nil in Hd].
  destruct (any_earlier _ _ _) eqn:Hany;
    [|injection H as <-; by apply elem_of_nil in Hd].
  destruct (index _ _) as [column|] eqn:Hcol; [|done]. injection H as <-.
  apply list_elem_of_singleton in Hd as ->. by exists m, column.
Qed.

Lemma undefined_loop_elem c i line stripped vars : ∀ es d,
  undefined_loop c i line stripped vars = Some es → d ∈ es →
  ∃ var column, var ∈ vars ∧ excluded c line stripped var = false ∧
    (if contains var line then index var line else Some 0) = Some column ∧
    d = MkDiagnostic "NameError" ("'" +:+ var +:+ "' is not defined")
          i column "Define variable before use"
          (Some (MkFix "define_variable" i None (Some var) None None)).
Proof.
  induction vars as [|var vars IH]; simpl; intros es d H Hd.
  - injection H as <-. by apply elem_of_nil in Hd.
  - destruct (excluded c line stripped var) eqn:Hex.
    + destruct (IH _ _ H Hd) as (var' & column & Hin & ?). exists var', column.
      split; [by right|done].
    + destruct (if contains var line then _ else _) as [column|] eqn:Hcol; [|done].
      injection H as <-. apply list_elem_of_singleton in Hd as ->.
      exists var, column. split; [by left|done].
Qed.

(** In the scan the tokens come from the line: the [else 0] of line 271 is
    never taken. *)
Lemma detect_undefined_elem c i line es d :
  detect_undefined c i line = Some es → d ∈ es →
  ∃ var column, var ∈ findall re_var_ref line ∧
    excluded c line (strip line) var = false ∧
    index var line = Some column ∧
    d = MkDiagnostic "NameError" ("'" +:+ var +:+ "' is not defined")
          i column "Define variable before use"
          (Some (MkFix "define_variable" i None (Some var) None None)).
Proof.
  intros H Hd. unfold detect_undefined in H.
  destruct (undefined_loop_elem _ _ _ _ _ _ _ H Hd) as (var & column & Hin & Hex & Hcol & ->).
  exists var, column. split_and!; [done|done| |done].
  destruct (var_ref_token _ _ Hin) as [_ (pre & post & ->)].
  by rewrite contains_app in Hcol.
Qed.

Lemma detect_division_elem lines i line es d :
  detect_division lines i line = Some es → d ∈ es →
  ∃ m column, search re_div line = Some m ∧
    (group 1 m = "0" ∨ any_earlier (group 1 m +:+ " = 0") lines i = true) ∧
    index "/" line = Some column ∧
    d = MkDiagnostic "ZeroDivisionError" "Possible division by zero"
          i column "Check divisor before division"
          (Some (MkFix "wrap_division" i None None (Some line) None)).
Proof.
  unfold detect_division. intros H Hd.
  destruct (search re_div line) as [m|];
    [|injection H as <-; by apply elem_of_nil in Hd].
  destruct (_ || _) eqn:Hor; [|injection H as <-; by apply elem_of_nil in Hd].
  destruct (index _ _) as [column|] eqn:Hcol; [|done]. injection H as <-.
  apply list_elem_of_singleton in Hd as ->. exists m, column.
  split_and!; [done| |done|done].
  apply orb_true_iff in Hor as [?%bool_decide_eq_true|?]; auto.
Qed.

Lemma detect_file_elem i line es d :
  detect_file i line = Some es → d ∈ es →
  ∃ m column, search re_open line = Some m ∧
    index "open" line = Some column ∧
    d = MkDiagnostic "FileNotFoundError"
          ("File '" +:+ group 1 m +:+ "' might not exist")
          i column "Check file exists before opening"
          (Some (MkFix "safe_file_open" i None None None (Some (group 1 m)))).
Proof.
  unfold detect_file. intros H Hd.
  destruct (search re_open line) as [m|];
    [|injection H as <-; by apply elem_of_nil in Hd].
  destruct (index _ _) as [column|] eqn:Hcol; [|done]. injection H as <-.
  apply list_elem_of_singleton in Hd as ->. by exists m, column.
Qed.


Lemma detect_line_elem c lines i line es d :
  detect_line c lines i line = Some es → d ∈ es →
  skipped line = false ∧ diag_of c lines i line d.
Proof.
  intros H Hd.
  apply detect_line_inv in H as [[_ ->]|[Hsk (e2 & e3 & e4 & e5 & H2 & H3 & H4 & H5 & ->)]];
    [by apply elem_of_nil in Hd|].
  split; [done|]. rewrite !elem_of_app in Hd.
  destruct Hd as [?|[?|[?|[?|?]]]];
    [by apply D_import|by eapply D_none_attr|by eapply D_undefined
    |by eapply D_division|by eapply D_file].
Qed.

(** Every diagnostic of a scan is a diagnostic of one detector for one line
    that the scan reads. *)
Lemma scan_elem code c ds d :
  detect_errors_with_context code c = Some ds → d ∈ ds →
  ∃ i line, split_lines code !! i = Some line ∧ skipped line = false ∧
            diag_of c (split_lines code) i line d.
Proof.
  intros Hds Hd. unfold detect_errors_with_context in Hds.
  destruct (detect_loop_elem _ _ _ _ _ Hds _ Hd) as (i & line & es & Hi & Hes & Hdes).
  simpl in Hes. destruct (detect_line_elem _ _ _ _ _ _ Hes Hdes). by exists i, line.
Qed.

(** *** The patterns of the detectors *)

Lemma all_space_lstrip g s : all_chars is_space g = true → lstrip (g +:+ s) = lstrip s.
Proof.
  induction g as [|a g IH]; [done|]. intros H. simpl in H.
  apply andb_true_iff in H as [Ha Hg].
  rewrite sapp_cons. simpl. rewrite Ha. by apply IH.
Qed.

Lemma import_line_inv pv wd post g :
  Matches re_import_line pv wd post ∅ g →
  ∃ name, wd = group 1 g +:+ "import" +:+ name ∧
          all_chars is_space (group 1 g) = true ∧
          group 2 g ≠ "" ∧ all_chars is_word (group 2 g) = true.
Proof.
  unfold re_import_line. cbn [Seq foldr]. intros M. inv_matches.
  unfold group. rewrite lookup_insert_eq.
  rewrite lookup_insert_ne, lookup_insert_eq by done. simpl.
  eexists. split_and!; [|done..]. rewrite !sapp_nil_l. reflexivity.
Qed.

(** The column of an import diagnostic is the indentation of its line. *)
Lemma import_line_column line m :
  rmatch re_import_line line = Some m →
  len (group 1 m) = get_line_indent line ∧
  ∃ post, line = group 1 m +:+ "import" +:+ post.
Proof.
  intros H. apply rmatch_sound in H as (wd & post & -> & M).
  apply import_line_inv in M as (name & -> & Hsp & _).
  split.
  - unfold get_line_indent. rewrite !sapp_assoc, all_space_lstrip by done.
    change (lstrip ("import" +:+ name +:+ post)) with ("import" +:+ name +:+ post).
    rewrite len_app. lia.
  - exists (name +:+ post). by rewrite !sapp_assoc.
Qed.

Lemma open_inv pv wd post g :
  Matches re_open pv wd post ∅ g →
  group 1 g ≠ "" ∧ all_chars not_quote (group 1 g) = true.
Proof.
  unfold re_open. cbn [Seq foldr]. intros M. inv_matches.
  unfold group. rewrite lookup_insert_eq. by simpl.
Qed.


(** *** The order of the diagnostics *)

Lemma StronglySorted_app_2 {A} (R : A → A → Prop) l1 l2 :
  StronglySorted R l1 → StronglySorted R l2 →
  (∀ x y, x ∈ l1 → y ∈ l2 → R x y) →
  StronglySorted R (l1 ++ l2).
Proof.
  induction 1 as [|x l1 Hl1 IH Hx]; intros Hl2 Hcross; simpl; [done|].
  constructor.
  - apply IH; [done|]. intros. apply Hcross; [by right|done].
  - apply Forall_app. split; [done|].
    apply Forall_forall. intros y Hy. apply Hcross; [by left|done].
Qed.

Lemma StronglySorted_short {A} (R : A → A → Prop) l :
  length l ≤ 1 → StronglySorted R l.
Proof.
  destruct l as [|x [|y l]]; simpl; intros; [constructor|by repeat constructor|lia].
Qed.

Lemma detect_import_length i line : length (detect_import i line) ≤ 1.
Proof.
  unfold detect_import. destruct (rmatch _ _); [|simpl; lia].
  case_bool_decide; simpl; lia.
Qed.

Lemma detect_none_attr_length lines i line es :
  detect_none_attr lines i line = Some es → length es ≤ 1.
Proof.
  intros H. apply detect_none_attr_inv in H as [->|(m & d & _ & _ & -> & _)]; simpl; lia.
Qed.

Lemma detect_undefined_length c i line es :
  detect_undefined c i line = Some es → length es ≤ 1.
Proof.
  intros H. apply undefined_loop_spec in H.
  destruct (find _ _); [destruct H as (d & -> & _)|subst es]; simpl; lia.
Qed.

Lemma detect_division_length lines i line es :
  detect_division lines i line = Some es → length es ≤ 1.
Proof.
  unfold detect_division. intros H. destruct (search _ _); [|injection H as <-; simpl; lia].
  destruct (_ || _); [|injection H as <-; simpl; lia].
  destruct (index _ _); [|done]. injection H as <-. simpl. lia.
Qed.

Lemma detect_file_length i line es :
  detect_file i line = Some es → length es ≤ 1.
Proof.
  unfold detect_file. intros H. destruct (search _ _); [|injection H as <-; simpl; lia].
  destruct (index _ _); [|done]. injection H as <-. simpl. lia.
Qed.

Lemma of_kind_before ty1 fk1 ty2 fk2 i e1 e2 :
  kind_rank ty1 < kind_rank ty2 →
  Forall (of_kind ty1 fk1 i) e1 → Forall (of_kind ty2 fk2 i) e2 →
  ∀ x y, x ∈ e1 → y ∈ e2 → scan_before x y.
Proof.
  intros Hr H1 H2 x y Hx Hy. rewrite Forall_forall in H1, H2.
  destruct (H1 _ Hx) as (Hx1 & Hx2 & _). destruct (H2 _ Hy) as (Hy1 & Hy2 & _).
  right. rewrite Hx1, Hx2, Hy1, Hy2. done.
Qed.

Lemma detect_line_sorted c lines i line es :
  detect_line c lines i line = Some es → StronglySorted scan_before es.
Proof.
  intros H.
  apply detect_line_inv in H as [[_ ->]|[_ (e2 & e3 & e4 & e5 & H2 & H3 & H4 & H5 & ->)]];
    [constructor|].
  pose proof (detect_import_kind i line) as K1.
  pose proof (detect_none_attr_kind _ _ _ _ H2) as K2.
  pose proof (detect_undefined_kind _ _ _ _ H3) as K3.
  pose proof (detect_division_kind _ _ _ _ H4) as K4.
  pose proof (detect_file_kind _ _ _ H5) as K5.
  assert (∀ l : list Diagnostic, length l ≤ 1 → StronglySorted scan_before l) as Hshort
    by apply StronglySorted_short.
  apply StronglySorted_app_2; [apply Hshort, detect_import_length| |].
  2:{ intros x y Hx Hy. rewrite !elem_of_app in Hy.
      destruct Hy as [Hy|[Hy|[Hy|Hy]]];
        [refine (of_kind_before _ _ _ _ _ _ _ _ K1 K2 x y Hx Hy)
        |refine (of_kind_before _ _ _ _ _ _ _ _ K1 K3 x y Hx Hy)
        |refine (of_kind_before _ _ _ _ _ _ _ _ K1 K4 x y Hx Hy)
        |refine (of_kind_before _ _ _ _ _ _ _ _ K1 K5 x y Hx Hy)]; vm_compute; lia. }
  apply StronglySorted_app_2; [by eapply Hshort, detect_none_attr_length| |].
  2:{ intros x y Hx Hy. rewrite !elem_of_app in Hy.
      destruct Hy as [Hy|[Hy|Hy]];
        [refine (of_kind_before _ _ _ _ _ _ _ _ K2 K3 x y Hx Hy)
        |refine (of_kind_before _ _ _ _ _ _ _ _ K2 K4 x y Hx Hy)
        |refine (of_kind_before _ _ _ _ _ _ _ _ K2 K5 x y Hx Hy)]; vm_compute; lia. }
  apply StronglySorted_app_2; [by eapply Hshort, detect_undefined_length| |].
  2:{ intros x y Hx Hy. rewrite !elem_of_app in Hy.
      destruct Hy as [Hy|Hy];
        [refine (of_kind_before _ _ _ _ _ _ _ _ K3 K4 x y Hx Hy)
        |refine (of_kind_before _ _ _ _ _ _ _ _ K3 K5 x y Hx Hy)]; vm_compute; lia. }
  apply StronglySorted_app_2; [by eapply Hshort, detect_division_length
                              |by eapply Hshort, detect_file_length|].
  intros x y Hx Hy.
  refine (of_kind_before _ _ _ _ _ _ _ _ K4 K5 x y Hx Hy); vm_compute; lia.
Qed.

Lemma detect_loop_sorted c lines todo : ∀ i ds,
  detect_loop c lines i todo = Some ds → StronglySorted scan_before ds.
Proof.
  induction todo as [|line todo IH]; intros i ds H; simpl in H.
  - injection H as <-. constructor.
  - destruct (detect_line c lines i line) as [es|] eqn:Hl; [|done]. simpl in H.
    destruct (detect_loop c lines (S i) todo) as [more|] eqn:Hm; [|done].
    injection H as <-. apply StronglySorted_app_2.
    + by eapply detect_line_sorted.
    + by eapply IH.
    + intros x y Hx Hy. left.
      apply detect_line_wf in Hl. rewrite Forall_forall in Hl. destruct (Hl _ Hx) as [-> _].
      apply detect_loop_lines in Hm. rewrite Forall_forall in Hm. specialize (Hm _ Hy).
      simpl in Hm. lia.
Qed.


Lemma detect_loop_line_filter c lines todo : ∀ i ds j line,
  detect_loop c lines i todo = Some ds →
  todo !! j = Some line →
  ∃ es, detect_line c lines (i + j) line = Some es ∧
        filter (λ d, d_line d = i + j) ds = es.
Proof.
  induction todo as [|line0 todo IH]; intros i ds j line H Hj; [done|]. simpl in H.
  destruct (detect_line c lines i line0) as [es|] eqn:Hl; [|done]. simpl in H.
  destruct (detect_loop c lines (S i) todo) as [more|] eqn:Hm; [|done].
  injection H as <-. rewrite filter_app.
  pose proof (detect_line_wf _ _ _ _ _ Hl) as Hes.
  pose proof (detect_loop_lines _ _ _ _ _ Hm) as Hmore.
  destruct j as [|j]; simpl in Hj.
  - injection Hj as ->. rewrite Nat.add_0_r. exists es. split; [done|].
    rewrite (filter_none _ more).
    2:{ eapply Forall_impl; [exact Hmore|]. simpl. intros d ? ?. lia. }
    rewrite app_nil_r. apply filter_all.
    eapply Forall_impl; [exact Hes|]. by intros d [? _].
  - destruct (IH (S i) more j line Hm Hj) as (es' & He' & Hr).
    rewrite Nat.add_succ_r. exists es'. split; [done|].
    rewrite (filter_none _ es).
    2:{ eapply Forall_impl; [exact Hes|]. simpl. intros d [? _] ?. lia. }
    exact Hr.
Qed.

Lemma detect_line_length c lines i line es :
  detect_line c lines i line = Some es → length es ≤ 5.
Proof.
  intros H.
  apply detect_line_inv in H as [[_ ->]|[_ (e2 & e3 & e4 & e5 & H2 & H3 & H4 & H5 & ->)]];
    [simpl; lia|].
  rewrite !length_app.
  pose proof (detect_import_length i line).
  apply detect_none_attr_length in H2. apply detect_undefined_length in H3.
  apply detect_division_length in H4. apply detect_file_length in H5. lia.
Qed.

(** In a list in strict scan order, a line has at most one diagnostic of
    each type. *)
Lemma sorted_one_per_kind ty i ds :
  StronglySorted scan_before ds → length (reported ty i ds) ≤ 1.
Proof.
  unfold reported. induction 1 as [|x l Hl IH Hall]; [simpl; lia|].
  rewrite filter_cons. case_decide as Hx; [|done].
  rewrite (filter_none _ l); [simpl; lia|].
  eapply Forall_impl; [exact Hall|]. simpl. intros y Hxy [Hy1 Hy2].
  destruct Hx as [Hx1 Hx2]. unfold scan_before in Hxy.
  rewrite Hx1, Hx2, Hy1, Hy2 in Hxy. lia.
Qed.

Lemma space_prefix_first g : ∀ s pre' a t,
  all_chars is_space g = true → is_space a = false →
  g +:+ s = pre' +:+ String a t → len g ≤ len pre'.
Proof.
  induction g as [|b g IH]; intros s pre' a t Hg Ha Heq; [simpl; lia|].
  simpl in Hg. apply andb_true_iff in Hg as [Hb Hg].
  destruct pre' as [|b' pre'].
  - rewrite sapp_cons, sapp_nil_l in Heq. injection Heq as -> _. congruence.
  - rewrite !sapp_cons in Heq. injection Heq as _ Heq.
    rewrite !len_cons. specialize (IH _ _ _ _ Hg Ha Heq). lia.
Qed.

End MoreScanFacts.

(** ** Further properties of the scanner *)

Import Api MoreProps MoreScanFacts.


(** X1.  The diagnostics of a scan come in scan order: by line, and within
    a line in the order of the detectors (module, attribute, name, division,
    file).  The order is strict, and every diagnostic points to a line of
    the text. *)
Theorem scan_order (code : string) (c : Context) :
  ∃ ds, detect_errors_with_context code c = Some ds ∧
        StronglySorted scan_before ds ∧
        Forall (λ d, d_line d < line_count code) ds.
Proof.
  destruct (detect_errors_total code c) as [ds Hds]. exists ds. split; [done|].
  unfold detect_errors_with_context in Hds. split.
  - by eapply detect_loop_sorted.
  - apply detect_loop_lines in Hds. eapply Forall_impl; [exact Hds|].
    simpl. unfold line_count. intros d ?. lia.
Qed.

(** X2.  For every line index, a scan reports at most one diagnostic of each
    type and at most five diagnostics in all; for an index past the end of
    the text it reports none. *)
Theorem scan_at_most_one_per_kind (code : string) (c : Context) :
  ∃ ds, detect_errors_with_context code c = Some ds ∧
    ∀ i, (∀ ty, length (reported ty i ds) ≤ 1) ∧
         length (filter (λ d, d_line d = i) ds) ≤ 5 ∧
         (line_count code ≤ i → filter (λ d, d_line d = i) ds = []).
Proof.
  destruct (detect_errors_total code c) as [ds Hds]. exists ds. split; [done|].
  unfold detect_errors_with_context in Hds. intros i. split_and!.
  - intros ty. apply sorted_one_per_kind. by eapply detect_loop_sorted.
  - destruct (split_lines code !! i) as [line|] eqn:Hi.
    + destruct (detect_loop_line_filter _ _ _ _ _ _ _ Hds Hi) as (es & Hes & Hf).
      simpl in Hf. rewrite Hf. by eapply detect_line_length.
    + rewrite filter_none; [simpl; lia|]. apply detect_loop_lines in Hds.
      apply lookup_ge_None in Hi. eapply Forall_impl; [exact Hds|]. simpl. intros. lia.
  - intros Hi. apply filter_none. apply detect_loop_lines in Hds.
    eapply Forall_impl; [exact Hds|]. simpl. unfold line_count in Hi. intros. lia.
Qed.

(** X3.  Every diagnostic of a scan belongs to a line that the scan reads
    and carries a fix for that same line, of the kind of its type, with the
    keys that the rewrite reads for that kind.  The [original] key holds the
    flagged line, the [new_line] key the flagged line followed by the install
    comment of a listed module, and the [filename] key a non-empty text
    without quote characters. *)
Theorem scan_diagnostic_shape (code : string) (c : Context) :
  ∃ ds, detect_errors_with_context code c = Some ds ∧
    ∀ d, d ∈ ds →
      ∃ line fx,
        split_lines code !! d_line d = Some line ∧ skipped line = false ∧
        d_fix d = Some fx ∧ fix_line fx = d_line d ∧
        (d_type d, fix_type fx) ∈ fix_kind_of ∧ has_keys fx ∧
        (∀ o, fix_original fx = Some o → o = line) ∧
        (∀ nl, fix_new_line fx = Some nl →
           ∃ module, module ∈ known_modules ∧
                     nl = line +:+ "  # Run: pip install " +:+ module) ∧
        (∀ f, fix_filename fx = Some f → f ≠ "" ∧ all_chars not_quote f = true).
Proof.
  destruct (detect_errors_total code c) as [ds Hds]. exists ds. split; [done|].
  intros d Hd. destruct (scan_elem _ _ _ _ Hds Hd) as (i & line & Hi & Hsk & Hof).
  exists line. unfold has_keys, fix_kind_of.
  destruct Hof as [H|es He H|es He H|es He H|es He H].
  - apply detect_import_elem in H as (m & Hm & Hmod & ->). simpl.
    eexists. split_and!; try done; simpl.
    + apply list_elem_of_here.
    + intros nl [= <-]. by exists (group 2 m).
  - destruct (detect_none_attr_elem _ _ _ _ _ He H) as (m & col & _ & _ & _ & ->). simpl.
    eexists. split_and!; try done; simpl.
    + do 1 apply list_elem_of_further. apply list_elem_of_here.
    + by intros o [= <-].
  - destruct (detect_undefined_elem _ _ _ _ _ He H) as (var & col & _ & _ & _ & ->). simpl.
    eexists. split_and!; try done; simpl.
    do 2 apply list_elem_of_further. apply list_elem_of_here.
  - destruct (detect_division_elem _ _ _ _ _ He H) as (m & col & _ & _ & _ & ->). simpl.
    eexists. split_and!; try done; simpl.
    + do 3 apply list_elem_of_further. apply list_elem_of_here.
    + by intros o [= <-].
  - destruct (detect_file_elem _ _ _ _ He H) as (m & col & Hs & _ & ->). simpl.
    eexists. split_and!; try done; simpl.
    + do 4 apply list_elem_of_further. apply list_elem_of_here.
    + intros f [= <-]. apply search_sound in Hs as (pre & wd & post & _ & M & _).
      by apply open_inv in M.
Qed.


(** X4.  The column of a diagnostic is the offset of the first occurrence,
    in the flagged line, of the text it is anchored to: the word [import]
    (behind the indentation only) for a module diagnostic, the name for an
    attribute or undefined-name diagnostic, the first [/] for a division
    diagnostic and the first [open] for a file diagnostic.  The column is
    therefore inside the line. *)
Theorem scan_column_first_occurrence (code : string) (c : Context) :
  ∃ ds, detect_errors_with_context code c = Some ds ∧
    ∀ d, d ∈ ds →
      ∃ line pre post,
        split_lines code !! d_line d = Some line ∧
        line = pre +:+ anchor d +:+ post ∧ len pre = d_column d ∧
        anchor d ≠ "" ∧ d_column d < len line ∧
        ∀ pre' post', line = pre' +:+ anchor d +:+ post' → d_column d ≤ len pre'.
Proof.
  destruct (detect_errors_total code c) as [ds Hds]. exists ds. split; [done|].
  intros d Hd. destruct (scan_elem _ _ _ _ Hds Hd) as (i & line & Hi & Hsk & Hof).
  assert (∀ tok col, tok ≠ "" → index tok line = Some col →
            ∃ pre post, split_lines code !! i = Some line ∧
              line = pre +:+ tok +:+ post ∧ len pre = col ∧ tok ≠ "" ∧
              col < len line ∧
              ∀ pre' post', line = pre' +:+ tok +:+ post' → col ≤ len pre') as Hidx.
  { intros tok col Hne Hcol. destruct (index_spec _ _ _ Hcol) as (pre & post & Hl & Hlen & Hleft).
    exists pre, post. split_and!; [done..| |done].
    rewrite Hl, !len_app, Hlen. destruct tok; [done|]. rewrite len_cons. lia. }
  exists line.
  destruct Hof as [H|es He H|es He H|es He H|es He H].
  - apply detect_import_elem in H as (m & Hm & Hmod & ->).
    destruct (import_line_column _ _ Hm) as [Hcol [post Hl]].
    apply rmatch_sound in Hm as (wd & post0 & Hl0 & M).
    apply import_line_inv in M as (name & _ & Hsp & _).
    exists (group 1 m), post. unfold anchor. simpl.
    split_and!; [done|done|done|done| |].
    + rewrite Hl, !len_app. simpl. lia.
    + intros pre' post' Heq. rewrite Hl in Heq.
      by eapply (space_prefix_first _ _ _ "i" _ Hsp).
  - destruct (detect_none_attr_elem _ _ _ _ _ He H) as (m & col & Hs & _ & Hcol & ->).
    unfold anchor, diag_var. simpl. apply Hidx; [|done].
    apply search_none_attr in Hs as (pre & attr & post & (_ & [Hne _] & _) & _). done.
  - destruct (detect_undefined_elem _ _ _ _ _ He H) as (var & col & Hin & _ & Hcol & ->).
    unfold anchor, diag_var. simpl. apply Hidx; [|done].
    apply var_ref_token in Hin as [Hid _]. by destruct var.
  - destruct (detect_division_elem _ _ _ _ _ He H) as (m & col & _ & _ & Hcol & ->).
    unfold anchor. simpl. by apply Hidx.
  - destruct (detect_file_elem _ _ _ _ He H) as (m & col & _ & Hcol & ->).
    unfold anchor. simpl. by apply Hidx.
Qed.

(** X5.  The name of a possible-undefined-name diagnostic is an identifier
    that occurs in the flagged line, is not recorded in any of the four sets
    of the context and is not in the builtin list; it is the first token of
    the line that passes the tests of the token loop. *)
Theorem undefined_name_is_unknown_identifier (code : string) (c : Context) :
  ∃ ds, detect_errors_with_context code c = Some ds ∧
    ∀ d, d ∈ ds → d_type d = "NameError" →
      ∃ var line,
        diag_var d = Some var ∧ split_lines code !! d_line d = Some line ∧
        isidentifier var = true ∧ contains var line = true ∧
        (¬ Known c var) ∧ (var ∉ PYTHON_BUILTINS) ∧
        first_surviving c line = Some var.
Proof.
  destruct (detect_errors_total code c) as [ds Hds]. exists ds. split; [done|].
  intros d Hd Hty. unfold detect_errors_with_context in Hds.
  destruct (detect_loop_elem _ _ _ _ _ Hds _ Hd) as (i & line & es & Hi & Hes & Hdes).
  simpl in Hes.
  pose proof (detect_line_wf _ _ _ _ _ Hes) as Hwf. rewrite Forall_forall in Hwf.
  destruct (Hwf _ Hdes) as [Hline _].
  assert (d ∈ filter (λ d, d_type d = "NameError") es) as Hf
    by by apply list_elem_of_filter.
  pose proof (detect_line_undefined _ _ _ _ _ Hes) as Hu.
  destruct (skipped line); [rewrite Hu in Hf; by apply elem_of_nil in Hf|].
  destruct (first_surviving c line) as [var|] eqn:Hfs;
    [|rewrite Hu in Hf; by apply elem_of_nil in Hf].
  destruct Hu as (d' & Hone & Hvar). rewrite Hone in Hf.
  apply list_elem_of_singleton in Hf as ->.
  exists var, line. rewrite Hline.
  pose proof Hfs as Hfs'. apply find_some in Hfs' as [Hin Hex].
  apply list_elem_of_In in Hin. destruct (var_ref_token _ _ Hin) as [Hid (pre & post & Hl)].
  apply negb_true_iff in Hex. unfold excluded in Hex.
  apply orb_false_iff in Hex as [Hex _]. apply orb_false_iff in Hex as [Hex _].
  apply orb_false_iff in Hex as [Hex _]. apply orb_false_iff in Hex as [Hk _].
  split_and!; [done|done|done| | | |done].
  - rewrite Hl. apply contains_app.
  - intros HK. apply Known_known_entity in HK. congruence.
  - unfold known_entity in Hk. apply orb_false_iff in Hk as [_ Hb].
    by apply bool_decide_eq_false in Hb.
Qed.

(** X6.  A text made of blank and comment lines only (the empty text in
    particular) gives the empty context, no diagnostic whatever the context
    of the scan, and is returned unchanged by the analyse-and-fix pipeline. *)
Theorem skipped_text_untouched (code : string) :
  Forall (λ line, skipped line = true) (split_lines code) →
  analyze_code_context code = empty_context ∧
  (∀ c, detect_errors_with_context code c = Some []) ∧
  analyze_and_fix code = Some code.
Proof.
  intros Hall.
  assert (∀ c, detect_errors_with_context code c = Some []) as Hscan.
  { intros c. unfold detect_errors_with_context. revert Hall.
    generalize (split_lines code) at 1 3. generalize 0.
    intros n todo. revert n.
    induction todo as [|line todo IH]; intros n Hall; simpl; [done|].
    apply Forall_cons in Hall as [Hl Hall]. unfold detect_line at 1. rewrite Hl. simpl.
    by rewrite IH. }
  split_and!; [|done|].
  - unfold analyze_code_context. revert Hall. generalize (split_lines code) 0 empty_context.
    induction l as [|line l IH]; intros n c Hall; simpl; [done|].
    apply Forall_cons in Hall as [Hl Hall]. unfold analyze_line at 1. rewrite Hl.
    by apply IH.
  - unfold analyze_and_fix, scan. by rewrite Hscan.
Qed.

Lemma skipped_text_untouched_witness :
  analyze_code_context (join_lines [""; "  # only a comment"; "   "]) = empty_context ∧
  (∀ c, detect_errors_with_context
          (join_lines [""; "  # only a comment"; "   "]) c = Some []) ∧
  analyze_and_fix (join_lines [""; "  # only a comment"; "   "])
    = Some (join_lines [""; "  # only a comment"; "   "]).
Proof.
  apply (skipped_text_untouched (join_lines [""; "  # only a comment"; "   "])).
  vm_compute. repeat constructor.
Defined.

(** ** More on the context builder *)

Module MoreContextFacts.
Import Py PyFacts Re ReFacts Talon Props ScanFacts ContextFacts FixFacts Api MoreProps MoreScanFacts.

(** *** The parameter loop, continued *)

Lemma parse_params_loop_nonempty l : ∀ acc,
  ("" ∉ fst acc) → ("" ∉ fst (foldl param_step acc l)).
Proof.
  induction l as [|param l IH]; intros acc Hacc; simpl; [done|].
  apply IH. unfold param_step.
  destruct (bool_decide _ && bool_decide _) eqn:Hc; [|done]. simpl.
  apply andb_true_iff in Hc as [Hne _]. apply bool_decide_eq_true in Hne.
  rewrite elem_of_app, list_elem_of_singleton. by intros [?|?].
Qed.

Lemma parse_params_nonempty params dv : "" ∉ fst (parse_params params dv).
Proof. apply parse_params_loop_nonempty. simpl. apply not_elem_of_nil. Qed.

(** *** The sets and dicts of the context agree *)

Lemma consistent_grow c dv :
  ctx_consistent c → defined_vars c ⊆ dv →
  ctx_consistent (MkContext dv (imported_modules c) (functions c) (classes c)
                    (loop_vars c) (function_params c) (imports c)).
Proof.
  intros (HF & HC & HL & HP & HI) Hdv. split_and!; simpl.
  - by etrans.
  - by etrans.
  - intros i vs Hvs. etrans; [by eapply HL|done].
  - intros f pl Hpl. destruct (HP _ _ Hpl) as [Hf Hps]. split; [done|].
    intros p Hp. destruct (Hps _ Hp) as (? & ? & ?). split_and!; [by apply Hdv|done..].
  - done.
Qed.

Lemma add_defined_var_consistent x c :
  ctx_consistent c → ctx_consistent (add_defined_var x c).
Proof. intros H. apply (consistent_grow c); [done|]. apply union_subseteq_r. Qed.

Lemma foldl_consistent {A} (f : Context → A → Context) l :
  (∀ c a, ctx_consistent c → ctx_consistent (f c a)) →
  ∀ c, ctx_consistent c → ctx_consistent (foldl f c l).
Proof.
  intros Hf. induction l as [|a l IH]; intros c Hc; simpl; [done|]. by apply IH, Hf.
Qed.

Lemma ctx_import_consistent i s c :
  ctx_consistent c → ctx_consistent (ctx_import i s c).
Proof.
  intros (HF & HC & HL & HP & HI). unfold ctx_import.
  destruct (rmatch re_import s) as [m|]; [|done]. split_and!; simpl; [done..|].
  intros m' i' Hm'. destruct (decide (group 1 m = m')) as [<-|Hne].
  - apply elem_of_union_l. by apply elem_of_singleton.
  - rewrite lookup_insert_ne in Hm' by done. apply elem_of_union_r. by eapply HI.
Qed.

Lemma add_imported_module_consistent x c :
  ctx_consistent c → ctx_consistent (add_imported_module x c).
Proof.
  intros (HF & HC & HL & HP & HI). split_and!; simpl; [done..|].
  intros m i Hm. apply elem_of_union_r. by eapply HI.
Qed.

Lemma ctx_from_import_consistent s c :
  ctx_consistent c → ctx_consistent (ctx_from_import s c).
Proof.
  intros Hc. unfold ctx_from_import. destruct (rmatch re_from_import s) as [m|]; [|done].
  apply foldl_consistent; [intros; by apply add_defined_var_consistent|].
  by apply add_imported_module_consistent.
Qed.

Lemma ctx_func_consistent s c :
  ctx_consistent c → ctx_consistent (ctx_func s c).
Proof.
  intros Hc. unfold ctx_func. destruct (rmatch re_func s) as [m|]; [|done].
  assert (ctx_consistent (add_defined_var (group 1 m) (add_function (group 1 m) c))) as Hc1.
  { destruct Hc as (HF & HC & HL & HP & HI). split_and!; simpl.
    - apply union_mono_l. done.
    - etrans; [exact HC|]. apply union_subseteq_r.
    - intros i vs Hvs. etrans; [by eapply HL|]. apply union_subseteq_r.
    - intros f pl Hpl. destruct (HP _ _ Hpl) as [Hf Hps]. split.
      + by apply elem_of_union_r.
      + intros p Hp. destruct (Hps _ Hp) as (? & ? & ?).
        split_and!; [by apply elem_of_union_r|done..].
    - done. }
  case_bool_decide; [|done].
  set (c1 := add_defined_var (group 1 m) (add_function (group 1 m) c)) in *.
  destruct (parse_params_spec (group 2 m) (defined_vars c1)) as [Hself Hdv].
  pose proof (parse_params_nonempty (group 2 m) (defined_vars c1)) as Hne.
  destruct (parse_params (group 2 m) (defined_vars c1)) as [pl dv]. simpl in *.
  assert (ctx_consistent (MkContext dv (imported_modules c1) (functions c1) (classes c1)
            (loop_vars c1) (function_params c1) (imports c1))) as Hc2.
  { apply consistent_grow; [done|]. rewrite Hdv. apply union_subseteq_r. }
  destruct Hc2 as (HF & HC & HL & HP & HI). split_and!; simpl in *; [done..| |done].
  intros f pl' Hpl'. destruct (decide (group 1 m = f)) as [<-|Hnf].
  - rewrite lookup_insert_eq in Hpl'. injection Hpl' as <-. split.
    + apply elem_of_union_l. by apply elem_of_singleton.
    + intros p Hp. split_and!.
      * rewrite Hdv. apply elem_of_union_l. by apply elem_of_list_to_set.
      * intros ->. done.
      * intros ->. done.
  - rewrite lookup_insert_ne in Hpl' by done. by apply HP.
Qed.

Lemma ctx_class_consistent s c :
  ctx_consistent c → ctx_consistent (ctx_class s c).
Proof.
  intros (HF & HC & HL & HP & HI). unfold ctx_class.
  destruct (rmatch re_class s) as [m|]; [|done]. split_and!; simpl.
  - etrans; [exact HF|]. apply union_subseteq_r.
  - by apply union_mono_l.
  - intros i vs Hvs. etrans; [by eapply HL|]. apply union_subseteq_r.
  - intros f pl Hpl. destruct (HP _ _ Hpl) as [Hf Hps]. split; [done|].
    intros p Hp. destruct (Hps _ Hp) as (? & ? & ?).
    split_and!; [by apply elem_of_union_r|done..].
  - done.
Qed.

Lemma ctx_for_consistent i s c :
  ctx_consistent c → ctx_consistent (ctx_for i s c).
Proof.
  intros Hc. unfold ctx_for. destruct (rmatch re_for s) as [m|]; [|done].
  apply (add_defined_var_consistent (group 1 m)) in Hc.
  destruct Hc as (HF & HC & HL & HP & HI). split_and!; simpl in *; [done|done| |done|done].
  intros j vs Hvs. destruct (decide (i = j)) as [<-|Hne].
  - rewrite lookup_insert_eq in Hvs. injection Hvs as <-.
    apply union_subseteq. split.
    + apply singleton_subseteq_l. apply elem_of_union_l. by apply elem_of_singleton.
    + destruct (loop_vars c !! i) as [vs|] eqn:Hvs; simpl; [by eapply HL|].
      apply empty_subseteq.
  - rewrite lookup_insert_ne in Hvs by done. by eapply HL.
Qed.

Lemma ctx_assign_consistent s c :
  ctx_consistent c → ctx_consistent (ctx_assign s c).
Proof.
  intros Hc. unfold ctx_assign. destruct (rmatch re_assign s); [|done].
  by apply add_defined_var_consistent.
Qed.

Lemma ctx_multi_assign_consistent s c :
  ctx_consistent c → ctx_consistent (ctx_multi_assign s c).
Proof.
  intros Hc. unfold ctx_multi_assign. destruct (rmatch re_multi_assign s); [|done].
  destruct (contains _ _); [|done]. apply foldl_consistent; [|done].
  intros c' var Hc'. destruct (_ && _); [by apply add_defined_var_consistent|done].
Qed.

Lemma analyze_line_consistent i line c :
  ctx_consistent c → ctx_consistent (analyze_line i line c).
Proof.
  intros Hc. unfold analyze_line. destruct (skipped line); [done|].
  by apply ctx_multi_assign_consistent, ctx_assign_consistent, ctx_for_consistent,
    ctx_class_consistent, ctx_func_consistent, ctx_from_import_consistent,
    ctx_import_consistent.
Qed.

Lemma analyze_loop_consistent lines : ∀ i c,
  ctx_consistent c → ctx_consistent (analyze_loop i lines c).
Proof.
  induction lines as [|line lines IH]; intros i c Hc; simpl; [done|].
  by apply IH, analyze_line_consistent.
Qed.


(** *** The line records of the context *)

Lemma analyze_loop_app l1 : ∀ l2 i c,
  analyze_loop i (l1 ++ l2) c = analyze_loop (i + length l1) l2 (analyze_loop i l1 c).
Proof.
  induction l1 as [|x l1 IH]; intros l2 i c; simpl; [by rewrite Nat.add_0_r|].
  rewrite IH. f_equal. lia.
Qed.

Lemma foldl_loop_vars {A} (f : Context → A → Context) l :
  (∀ c a, loop_vars (f c a) = loop_vars c) →
  ∀ c, loop_vars (foldl f c l) = loop_vars c.
Proof.
  intros Hf. induction l as [|a l IH]; intros c; simpl; [done|]. by rewrite IH, Hf.
Qed.

Lemma foldl_imports {A} (f : Context → A → Context) l :
  (∀ c a, imports (f c a) = imports c) →
  ∀ c, imports (foldl f c l) = imports c.
Proof.
  intros Hf. induction l as [|a l IH]; intros c; simpl; [done|]. by rewrite IH, Hf.
Qed.

(** What a line does to [loop_vars]. *)
Lemma analyze_line_loop_vars i line c :
  loop_vars (analyze_line i line c) =
  if skipped line then loop_vars c
  else match rmatch re_for (strip line) with
       | Some m => <[i := {[group 1 m]} ∪ default ∅ (loop_vars c !! i)]> (loop_vars c)
       | None => loop_vars c
       end.
Proof.
  unfold analyze_line. destruct (skipped line); [done|].
  assert (∀ s c, loop_vars (ctx_multi_assign s c) = loop_vars c) as H7.
  { intros s c0. unfold ctx_multi_assign. destruct (rmatch _ _); [|done].
    destruct (contains _ _); [|done]. apply foldl_loop_vars.
    intros c1 a. by destruct (_ && _). }
  assert (∀ s c, loop_vars (ctx_assign s c) = loop_vars c) as H6.
  { intros s c0. unfold ctx_assign. by destruct (rmatch _ _). }
  assert (∀ s c, loop_vars (ctx_class s c) = loop_vars c) as H4.
  { intros s c0. unfold ctx_class. by destruct (rmatch _ _). }
  assert (∀ s c, loop_vars (ctx_func s c) = loop_vars c) as H3.
  { intros s c0. unfold ctx_func. destruct (rmatch _ _); [|done].
    case_bool_decide; [|done]. by destruct (parse_params _ _). }
  assert (∀ s c, loop_vars (ctx_from_import s c) = loop_vars c) as H2.
  { intros s c0. unfold ctx_from_import. destruct (rmatch _ _); [|done].
    by rewrite foldl_loop_vars. }
  assert (∀ s c, loop_vars (ctx_import i s c) = loop_vars c) as H1.
  { intros s c0. unfold ctx_import. by destruct (rmatch _ _). }
  rewrite H7, H6. unfold ctx_for. destruct (rmatch re_for (strip line)) as [m|]; simpl.
  - by rewrite H4, H3, H2, H1.
  - by rewrite H4, H3, H2, H1.
Qed.

(** What a line does to [imports]. *)
Lemma analyze_line_imports i line c :
  imports (analyze_line i line c) =
  if skipped line then imports c
  else match rmatch re_import (strip line) with
       | Some m => <[group 1 m := i]> (imports c)
       | None => imports c
       end.
Proof.
  unfold analyze_line. destruct (skipped line); [done|].
  assert (∀ s c, imports (ctx_multi_assign s c) = imports c) as H7.
  { intros s c0. unfold ctx_multi_assign. destruct (rmatch _ _); [|done].
    destruct (contains _ _); [|done]. apply foldl_imports.
    intros c1 a. by destruct (_ && _). }
  assert (∀ s c, imports (ctx_assign s c) = imports c) as H6.
  { intros s c0. unfold ctx_assign. by destruct (rmatch _ _). }
  assert (∀ s c, imports (ctx_for i s c) = imports c) as H5.
  { intros s c0. unfold ctx_for. by destruct (rmatch _ _). }
  assert (∀ s c, imports (ctx_class s c) = imports c) as H4.
  { intros s c0. unfold ctx_class. by destruct (rmatch _ _). }
  assert (∀ s c, imports (ctx_func s c) = imports c) as H3.
  { intros s c0. unfold ctx_func. destruct (rmatch _ _); [|done].
    case_bool_decide; [|done]. by destruct (parse_params _ _). }
  assert (∀ s c, imports (ctx_from_import s c) = imports c) as H2.
  { intros s c0. unfold ctx_from_import. destruct (rmatch _ _); [|done].
    by rewrite foldl_imports. }
  rewrite H7, H6, H5, H4, H3, H2. unfold ctx_import.
  by destruct (rmatch re_import (strip line)).
Qed.


(** The context after the first [k] lines. *)
Lemma analyze_prefix_step lines k line :
  lines !! k = Some line →
  analyze_loop 0 (take (S k) lines) empty_context
  = analyze_line k line (analyze_loop 0 (take k lines) empty_context).
Proof.
  intros Hk. rewrite (take_S_r _ _ _ Hk), analyze_loop_app. simpl.
  rewrite length_take. apply lookup_lt_Some in Hk.
  by replace (k `min` length lines) with k by lia.
Qed.

Lemma loop_vars_prefix lines k :
  k ≤ length lines →
  ∀ i vs,
    loop_vars (analyze_loop 0 (take k lines) empty_context) !! i = Some vs ↔
    i < k ∧ ∃ line x, lines !! i = Some line ∧ for_line line x ∧ vs = {[x]}.
Proof.
  induction k as [|k IH]; intros Hk i vs.
  - rewrite take_0. simpl. rewrite lookup_empty. split; [done|]. intros [? _]. lia.
  - destruct (lookup_lt_is_Some_2 lines k ltac:(lia)) as [line Hline].
    rewrite (analyze_prefix_step _ _ _ Hline), analyze_line_loop_vars.
    specialize (IH ltac:(lia)).
    set (ck := analyze_loop 0 (take k lines) empty_context) in *.
    assert (loop_vars ck !! k = None) as Hnone.
    { destruct (loop_vars ck !! k) as [vs'|] eqn:Hvs'; [|done].
      apply IH in Hvs' as [? _]. lia. }
    assert (∀ P : Prop, (i < k ∧ P) → i < S k ∧ P) as Hweak by (intros P [? ?]; split; [lia|done]).
    destruct (skipped line) eqn:Hsk.
    { rewrite IH. split; [apply Hweak|]. intros [Hi (line' & x & Hl & Hfor & Hvs)].
      split; [|by exists line', x]. destruct (decide (i = k)) as [->|]; [|lia].
      rewrite Hline in Hl. injection Hl as <-. destruct Hfor as [Hfor _]. congruence. }
    destruct (rmatch re_for (strip line)) as [m|] eqn:Hm.
    + destruct (decide (k = i)) as [<-|Hne].
      * rewrite lookup_insert_eq, Hnone. simpl. rewrite union_empty_r_L. split.
        -- intros [= <-]. split; [lia|]. exists line, (group 1 m).
           split_and!; [done| |done]. split; [done|]. by exists m.
        -- intros [_ (line' & x & Hl & [_ (m' & Hm' & Hx)] & ->)].
           rewrite Hline in Hl. injection Hl as <-. rewrite Hm in Hm'.
           injection Hm' as <-. by rewrite Hx.
      * rewrite lookup_insert_ne by done. rewrite IH. split; [apply Hweak|].
        intros [Hi H]. split; [lia|done].
    + rewrite IH. split; [apply Hweak|]. intros [Hi (line' & x & Hl & Hfor & Hvs)].
      split; [|by exists line', x]. destruct (decide (i = k)) as [->|]; [|lia].
      rewrite Hline in Hl. injection Hl as <-. destruct Hfor as [_ (m & Hm' & _)]. congruence.
Qed.

Lemma imports_prefix lines k :
  k ≤ length lines →
  ∀ module i,
    imports (analyze_loop 0 (take k lines) empty_context) !! module = Some i ↔
    i < k ∧ (∃ line, lines !! i = Some line ∧ import_line line module) ∧
    ∀ j line', i < j < k → lines !! j = Some line' → ¬ import_line line' module.
Proof.
  induction k as [|k IH]; intros Hk module i.
  - rewrite take_0. simpl. rewrite lookup_empty. split; [done|]. intros [? _]. lia.
  - destruct (lookup_lt_is_Some_2 lines k ltac:(lia)) as [line Hline].
    rewrite (analyze_prefix_step _ _ _ Hline), analyze_line_imports.
    specialize (IH ltac:(lia)).
    set (ck := analyze_loop 0 (take k lines) empty_context) in *.
    (* when line k does not import the module, the record is that of the prefix *)
    assert (¬ import_line line module →
            (imports ck !! module = Some i ↔
             i < S k ∧ (∃ line, lines !! i = Some line ∧ import_line line module) ∧
             ∀ j line', i < j < S k → lines !! j = Some line' → ¬ import_line line' module))
      as Hkeep.
    { intros Hnot. rewrite IH. split.
      - intros (Hi & Hex & Hlast). split_and!; [lia|done|].
        intros j line' Hj Hl'. destruct (decide (j = k)) as [->|].
        + rewrite Hline in Hl'. by injection Hl' as <-.
        + apply (Hlast j); [lia|done].
      - intros (Hi & Hex & Hlast). destruct (decide (i = k)) as [->|].
        + destruct Hex as (line' & Hl' & Himp). rewrite Hline in Hl'. by injection Hl' as <-.
        + split_and!; [lia|done|]. intros j line' Hj. apply (Hlast j). lia. }
    destruct (skipped line) eqn:Hsk.
    { apply Hkeep. intros [? _]. congruence. }
    destruct (rmatch re_import (strip line)) as [m|] eqn:Hm.
    + destruct (decide (group 1 m = module)) as [Heq|Hne].
      * rewrite Heq, lookup_insert_eq. split.
        -- intros [= <-]. split_and!; [lia| |intros; lia].
           exists line. split; [done|]. split; [done|]. by exists m.
        -- intros (Hi & Hex & Hlast). destruct (decide (i = k)) as [->|]; [done|].
           exfalso. apply (Hlast k line); [lia|done|]. split; [done|]. by exists m.
      * rewrite lookup_insert_ne by done. apply Hkeep.
        intros [_ (m' & Hm' & Hx)]. congruence.
    + apply Hkeep. intros [_ (m' & Hm' & _)]. congruence.
Qed.


Lemma split_app_sep sep x t :
  split sep (x +:+ String sep t) = split sep x ++ split sep t.
Proof.
  induction x as [|a x IH].
  - rewrite sapp_nil_l. simpl. by rewrite bool_decide_eq_true_2.
  - rewrite sapp_cons. simpl. rewrite IH. case_bool_decide; [done|].
    pose proof (split_nonempty sep x). by destruct (split sep x).
Qed.

(** The known names of a text stay known when lines are added after it. *)
Lemma analyze_code_context_app code more :
  ctx_le (analyze_code_context code)
         (analyze_code_context (code +:+ String newline more)).
Proof.
  unfold analyze_code_context, split_lines. rewrite split_app_sep, analyze_loop_app.
  apply analyze_loop_le.
Qed.

End MoreContextFacts.

(** ** Further properties of the context builder *)

Import MoreContextFacts.


(** X7.  The context of every text is consistent: every function name,
    class name, loop variable and recorded parameter is a defined name,
    every key of [function_params] is a function name, no recorded parameter
    is empty or [self], and every key of [imports] is an imported module. *)
Theorem context_consistent (code : string) :
  ctx_consistent (analyze_code_context code).
Proof.
  apply analyze_loop_consistent. by split_and!.
Qed.

(** X8.  [loop_vars] has one entry for each line that the context builder
    reads as a [for] loop, and no other: the entry of line [i] is the
    singleton of the loop variable of that line. *)
Theorem loop_vars_records (code : string) (i : nat) (vs : gset string) :
  loop_vars (analyze_code_context code) !! i = Some vs ↔
  ∃ line x, split_lines code !! i = Some line ∧ for_line line x ∧ vs = {[x]}.
Proof.
  unfold analyze_code_context.
  rewrite <- (firstn_all (split_lines code)) at 1.
  rewrite (loop_vars_prefix (split_lines code) (length (split_lines code))) by done.
  split.
  - by intros [_ H].
  - intros (line & x & Hl & H). split; [by eapply lookup_lt_Some|]. by exists line, x.
Qed.

(** X9.  [imports] maps a module to the last line that the context builder
    reads as an [import] of it: [imports[m]] is [i] exactly when line [i]
    imports [m] and no later line does. *)
Theorem imports_last_line (code module : string) (i : nat) :
  imports (analyze_code_context code) !! module = Some i ↔
  (∃ line, split_lines code !! i = Some line ∧ import_line line module) ∧
  ∀ j line', i < j → split_lines code !! j = Some line' → ¬ import_line line' module.
Proof.
  unfold analyze_code_context.
  rewrite <- (firstn_all (split_lines code)) at 1.
  rewrite (imports_prefix (split_lines code) (length (split_lines code))) by done.
  split.
  - intros (_ & Hex & Hlast). split; [done|]. intros j line' Hj Hl'.
    apply (Hlast j); [|done]. apply lookup_lt_Some in Hl'. lia.
  - intros ((line & Hl & Himp) & Hlast). split_and!.
    + by eapply lookup_lt_Some.
    + by exists line.
    + intros j line' Hj. apply (Hlast j). lia.
Qed.

(** X10.  Adding lines after a text never makes a name unknown: every name
    that the context of the text knows is known to the context of the
    longer text. *)
Theorem appended_lines_keep_known (code more x : string) :
  Known (analyze_code_context code) x →
  Known (analyze_code_context (code +:+ String newline more)) x.
Proof. apply Known_le, analyze_code_context_app. Qed.

Lemma appended_lines_keep_known_witness :
  Known (analyze_code_context ("total = 1" +:+ String newline "print(total)")) "total".
Proof.
  apply (appended_lines_keep_known "total = 1" "print(total)" "total").
  left. apply (bool_decide_unpack _). vm_compute. exact I.
Defined.

(** ** More on the rewrite engine *)

Module MoreFixFacts.
Import Py PyFacts Re ReFacts Talon Props ScanFacts ContextFacts FixFacts Api MoreProps MoreScanFacts MoreContextFacts.

(** *** Stripping and indentation *)

Lemma lstrip_len s : len (lstrip s) ≤ len s.
Proof.
  induction s as [|a s IH]; [done|]. cbn [lstrip]. destruct (is_space a); [|done].
  rewrite len_cons. lia.
Qed.

Lemma lstrip_head s :
  lstrip s = "" ∨ ∃ a t, lstrip s = String a t ∧ is_space a = false.
Proof.
  induction s as [|a s IH]; [by left|]. simpl.
  destruct (is_space a) eqn:Ha; [done|]. right. by exists a, s.
Qed.

Lemma lstrip_nonspace a t : is_space a = false → lstrip (String a t) = String a t.
Proof. intros Ha. simpl. by rewrite Ha. Qed.

Lemma rstrip_nonspace a t : is_space a = false → ∃ t', rstrip (String a t) = String a t'.
Proof. intros Ha. simpl. rewrite Ha. destruct (rstrip t); by eexists. Qed.

Lemma rstrip_idem s : rstrip (rstrip s) = rstrip s.
Proof.
  induction s as [|a s IH]; [done|]. simpl.
  destruct (rstrip s) as [|b t] eqn:Hr.
  - destruct (is_space a) eqn:Ha; [done|]. simpl. by rewrite Ha.
  - change (rstrip (String a (String b t)))
      with (match rstrip (String b t) with
            | "" => if is_space a then "" else String a ""
            | t' => String a t'
            end).
    by rewrite IH.
Qed.

(** A stripped line is empty or starts with a character that is no
    whitespace. *)
Lemma strip_head s :
  strip s = "" ∨ ∃ a t, strip s = String a t ∧ is_space a = false.
Proof.
  unfold strip. destruct (lstrip_head s) as [->|(a & t & -> & Ha)]; [by left|].
  right. destruct (rstrip_nonspace a t Ha) as [t' ->]. by exists a, t'.
Qed.

Lemma strip_idem s : strip (strip s) = strip s.
Proof.
  destruct (strip_head s) as [->|(a & t & Hs & Ha)]; [done|].
  unfold strip at 1. rewrite Hs, lstrip_nonspace by done. rewrite <- Hs.
  unfold strip. apply rstrip_idem.
Qed.

Lemma get_line_indent_nonspace a t :
  is_space a = false → get_line_indent (String a t) = 0.
Proof. intros Ha. unfold get_line_indent. rewrite lstrip_nonspace by done. lia. Qed.

Lemma get_line_indent_empty : get_line_indent "" = 0.
Proof. done. Qed.

Lemma get_line_indent_strip s : get_line_indent (strip s) = 0.
Proof.
  destruct (strip_head s) as [->|(a & t & -> & Ha)]; [done|].
  by apply get_line_indent_nonspace.
Qed.

Lemma get_line_indent_spaces n s :
  get_line_indent (repeat_char " " n +:+ s) = n + get_line_indent s.
Proof.
  unfold get_line_indent. induction n as [|n IH]; [done|].
  simpl repeat_char. rewrite sapp_cons, len_cons.
  change (lstrip (String " " (repeat_char " " n +:+ s)))
    with (lstrip (repeat_char " " n +:+ s)).
  pose proof (lstrip_len (repeat_char " " n +:+ s)). lia.
Qed.

Lemma all_space_repeat n : all_chars is_space (repeat_char " " n) = true.
Proof. induction n as [|n IH]; [done|]. simpl. exact IH. Qed.

Lemma strip_spaces n s : strip (repeat_char " " n +:+ s) = strip s.
Proof. unfold strip. by rewrite all_space_lstrip by apply all_space_repeat. Qed.

Lemma indent_str_of_spaces line :
  indent_str_of line = repeat_char " " (get_line_indent line).
Proof. done. Qed.

(** The four lines of a wrapping fix: the opening and the middle line have
    the indentation of the original line, the body and the closing line are
    four columns deeper, and the body is the original statement. *)
Lemma wrap_block_indents orig opening middle closing :
  get_line_indent opening = 0 → get_line_indent middle = 0 →
  get_line_indent closing = 4 →
  is_block_of orig (wrap_block orig opening middle closing).
Proof.
  intros Ho Hm Hc. unfold wrap_block. rewrite indent_str_of_spaces.
  eexists _, _, _, _. split; [reflexivity|].
  rewrite !get_line_indent_spaces, Ho, Hm, Hc.
  change ("    " +:+ strip orig) with (repeat_char " " 4 +:+ strip orig).
  rewrite get_line_indent_spaces, get_line_indent_strip.
  rewrite !strip_spaces, strip_idem. split_and!; (lia || done).
Qed.

(** *** The insertion point *)

(** The walk of [find_insertion_point] from line [n - 1] upwards: the
    result is just below the first line at which the walk stops, or 0. *)
Lemma find_insertion_loop_spec lines cur n :
  n ≤ length lines →
  ∃ p, find_insertion_loop lines cur n = Some p ∧ p ≤ n ∧
       (∀ j line, p ≤ j < n → lines !! j = Some line → walk_stops cur line = false) ∧
       (p = 0 ∨ ∃ i line, p = S i ∧ lines !! i = Some line ∧ walk_stops cur line = true).
Proof.
  induction n as [|i IH]; intros Hn; simpl.
  - exists 0. split_and!; [done|done| |by left]. intros; lia.
  - destruct (lookup_lt_is_Some_2 lines i ltac:(lia)) as [line Hline]. rewrite Hline. simpl.
    destruct (IH ltac:(lia)) as (p & Hp & Hle & Hpass & Hstop).
    assert (walk_stops cur line = false →
            ∃ p, find_insertion_loop lines cur i = Some p ∧ p ≤ S i ∧
              (∀ j line, p ≤ j < S i → lines !! j = Some line → walk_stops cur line = false) ∧
              (p = 0 ∨ ∃ i line, p = S i ∧ lines !! i = Some line ∧ walk_stops cur line = true))
      as Hcont.
    { intros Hw. exists p. split_and!; [done|lia| |done].
      intros j line' Hj Hl'. destruct (decide (j = i)) as [->|].
      - rewrite Hline in Hl'. by injection Hl' as <-.
      - apply (Hpass j); [lia|done]. }
    assert (walk_stops cur line = true →
            ∃ p, Some (i + 1) = Some p ∧ p ≤ S i ∧
              (∀ j line, p ≤ j < S i → lines !! j = Some line → walk_stops cur line = false) ∧
              (p = 0 ∨ ∃ i line, p = S i ∧ lines !! i = Some line ∧ walk_stops cur line = true))
      as Hend.
    { intros Hw. exists (S i). split_and!; [f_equal; lia|lia|intros; lia|].
      right. by exists i, line. }
    unfold walk_stops in Hcont, Hend.
    case_bool_decide as Hblank; simpl in *; [by apply Hcont|].
    destruct (get_line_indent line <? cur); simpl in *; [by apply Hend|].
    destruct (_ && _); [by apply Hend|by apply Hcont].
Qed.


(** *** One fix *)

Ltac not_kind H :=
  rewrite bool_decide_eq_false_2 by (rewrite H; discriminate).

(** A [wrap_with_check] or [wrap_division] fix puts a block around the line
    it reads. *)
Lemma apply_fix_wrap c st e fx orig :
  d_fix e = Some fx →
  fix_type fx = "wrap_with_check" ∨ fix_type fx = "wrap_division" →
  has_keys fx → buf st !! d_line e = Some orig →
  ∃ block,
    apply_fix c st e
    = Some (MkFixState (list_splice (d_line e) block (buf st))
              (added_imports st) (fs_defined_vars st)) ∧
    is_block_of orig block.
Proof.
  intros Hfx Hk (_ & Hvar & _) Horig. unfold apply_fix. rewrite Hfx.
  destruct Hk as [Hk|Hk].
  - not_kind Hk. rewrite bool_decide_eq_true_2 by done.
    destruct (Hvar Hk) as [var ->]. simpl. rewrite Horig. simpl.
    eexists. split; [reflexivity|].
    apply (wrap_block_indents orig ("if " +:+ var +:+ " is not None:") "else:"
             ("    print(f'Error: " +:+ var +:+ " is None')"));
      [by apply (get_line_indent_nonspace "i")|done|].
    change ("    print(f'Error: " +:+ var +:+ " is None')")
      with (repeat_char " " 4 +:+ "print(f'Error: " +:+ var +:+ " is None')").
    rewrite get_line_indent_spaces.
    match goal with
    | |- 4 + ?x = 4 =>
        assert (x = 0) as -> by (by apply (get_line_indent_nonspace "p")); done
    end.
  - do 3 not_kind Hk. rewrite bool_decide_eq_true_2 by done.
    rewrite Horig. simpl. eexists. split; [reflexivity|].
    by apply (wrap_block_indents orig "try:" "except ZeroDivisionError:"
                "    result = 0  # Handle division by zero").
Qed.

(** The block of a [safe_file_open] fix on a buffer. *)
Lemma file_block orig filename :
  is_block_of orig
    [ indent_str_of orig +:+ "if os.path.exists('" +:+ filename +:+ "'):";
      indent_str_of orig +:+ "    " +:+ strip orig;
      indent_str_of orig +:+ "else:";
      indent_str_of orig +:+ "    print(f'File not found: " +:+ filename +:+ "')" ].
Proof.
  apply (wrap_block_indents orig ("if os.path.exists('" +:+ filename +:+ "'):") "else:"
           ("    print(f'File not found: " +:+ filename +:+ "')"));
    [by apply (get_line_indent_nonspace "i")|done|].
  change ("    print(f'File not found: " +:+ filename +:+ "')")
    with (repeat_char " " 4 +:+ "print(f'File not found: " +:+ filename +:+ "')").
  rewrite get_line_indent_spaces.
    match goal with
    | |- 4 + ?x = 4 =>
        assert (x = 0) as -> by (by apply (get_line_indent_nonspace "p")); done
    end.
Qed.

Lemma apply_fix_file_known c st e fx orig :
  d_fix e = Some fx → fix_type fx = "safe_file_open" → has_keys fx →
  "os" ∈ imported_modules c ∨ "os" ∈ added_imports st →
  buf st !! d_line e = Some orig →
  ∃ block,
    apply_fix c st e
    = Some (MkFixState (list_splice (d_line e) block (buf st))
              (added_imports st) (fs_defined_vars st)) ∧
    is_block_of orig block.
Proof.
  intros Hfx Hk (_ & _ & _ & Hfn) Hos Horig. unfold apply_fix. rewrite Hfx.
  do 4 not_kind Hk. rewrite bool_decide_eq_true_2 by done.
  destruct (Hfn Hk) as [filename Hf].
  replace (bool_decide ("os" ∉ imported_modules c) && bool_decide ("os" ∉ added_imports st))
    with false.
  2:{ symmetry. apply andb_false_iff.
      destruct Hos; [left|right]; apply bool_decide_eq_false; tauto. }
  rewrite Horig. simpl. rewrite Hf. simpl. eexists. split; [reflexivity|].
  apply file_block.
Qed.

Lemma apply_fix_file_shifted c st e fx :
  d_fix e = Some fx → fix_type fx = "safe_file_open" → has_keys fx →
  "os" ∉ imported_modules c → "os" ∉ added_imports st →
  ∀ orig, ("import os" :: buf st) !! d_line e = Some orig →
  ∃ block,
    apply_fix c st e
    = Some (MkFixState (list_splice (d_line e) block ("import os" :: buf st))
              ({["os"]} ∪ added_imports st) (fs_defined_vars st)) ∧
    is_block_of orig block.
Proof.
  intros Hfx Hk (_ & _ & _ & Hfn) Hos1 Hos2 orig Horig. unfold apply_fix. rewrite Hfx.
  do 4 not_kind Hk. rewrite bool_decide_eq_true_2 by done.
  destruct (Hfn Hk) as [filename Hf].
  rewrite !bool_decide_eq_true_2 by done. simpl.
  change (list_insert_at 0 "import os" (buf st)) with ("import os" :: buf st).
  rewrite Horig. simpl. rewrite Hf. simpl. eexists. split; [reflexivity|].
  apply file_block.
Qed.


(** *** Lines without a newline *)

Lemma all_chars_app p s t :
  all_chars p (s +:+ t) = all_chars p s && all_chars p t.
Proof.
  induction s as [|a s IH]; [done|]. rewrite sapp_cons. simpl. rewrite IH.
  by rewrite andb_assoc.
Qed.

Lemma all_chars_impl (p q : ascii → bool) s :
  (∀ a, p a = true → q a = true) → all_chars p s = true → all_chars q s = true.
Proof.
  intros Hpq. induction s as [|a s IH]; [done|]. simpl.
  intros [Ha Hs]%andb_true_iff. rewrite (Hpq a Ha). by apply IH.
Qed.

Lemma all_chars_lstrip p s : all_chars p s = true → all_chars p (lstrip s) = true.
Proof.
  induction s as [|a s IH]; [done|]. cbn [lstrip]. destruct (is_space a); [|done].
  simpl. intros [_ Hs]%andb_true_iff. by apply IH.
Qed.

Lemma all_chars_rstrip p s : all_chars p s = true → all_chars p (rstrip s) = true.
Proof.
  induction s as [|a s IH]; [done|]. simpl.
  intros [Ha Hs]%andb_true_iff. specialize (IH Hs).
  destruct (rstrip s) as [|b t].
  - destruct (is_space a); [done|]. simpl. by rewrite Ha.
  - simpl in *. by rewrite Ha.
Qed.

Lemma all_chars_strip p s : all_chars p s = true → all_chars p (strip s) = true.
Proof. intros H. by apply all_chars_rstrip, all_chars_lstrip. Qed.

Lemma one_line_app s t : one_line (s +:+ t) ↔ one_line s ∧ one_line t.
Proof. unfold one_line. rewrite all_chars_app. apply andb_true_iff. Qed.

Lemma one_line_spaces n : one_line (repeat_char " " n).
Proof. induction n as [|n IH]; [done|]. exact IH. Qed.

Lemma one_line_word s : all_chars is_word s = true → one_line s.
Proof.
  apply all_chars_impl. intros a Ha. unfold is_dot, not_char, is_char.
  apply negb_true_iff, bool_decide_eq_false. intros ->. by vm_compute in Ha.
Qed.

(** The lines of a text have no newline. *)
Lemma split_one_line sep s :
  Forall (λ x, all_chars (not_char sep) x = true) (split sep s).
Proof.
  induction s as [|a s IH]; simpl; [by repeat constructor|].
  case_bool_decide as Ha; [by constructor|].
  pose proof (split_nonempty sep s).
  destruct (split sep s) as [|x xs]; [done|].
  apply Forall_cons in IH as [Hx Hxs]. constructor; [|done]. simpl.
  rewrite Hx. unfold not_char, is_char. by rewrite bool_decide_eq_false_2.
Qed.

Lemma split_lines_one_line code : Forall one_line (split_lines code).
Proof. apply split_one_line. Qed.

Lemma split_no_sep sep s :
  all_chars (not_char sep) s = true → split sep s = [s].
Proof.
  induction s as [|a s IH]; [done|]. simpl. intros [Ha Hs]%andb_true_iff.
  unfold not_char, is_char in Ha. apply negb_true_iff, bool_decide_eq_false in Ha.
  rewrite bool_decide_eq_false_2 by done. by rewrite IH.
Qed.

(** Splitting a joined buffer of one-line strings gives the buffer back. *)
Lemma split_join sep l :
  l ≠ [] → Forall (λ x, all_chars (not_char sep) x = true) l →
  split sep (join (String sep "") l) = l.
Proof.
  induction l as [|x l IH]; [done|]. intros _ [Hx Hl]%Forall_cons.
  destruct l as [|y l].
  - simpl. by apply split_no_sep.
  - change (join (String sep "") (x :: y :: l))
      with (x +:+ String sep (join (String sep "") (y :: l))).
    rewrite split_app_sep, split_no_sep by done. simpl. f_equal. by apply IH.
Qed.

Lemma split_join_lines l :
  l ≠ [] → Forall one_line l → split_lines (join_lines l) = l.
Proof. apply split_join. Qed.


(** *** What one fix adds *)

Lemma kind_facts e fx :
  d_fix e = Some fx →
  (fix_type fx = "add_comment" →
     defined_name e = None ∧ is_wrap e = false ∧ is_file_fix e = false) ∧
  (fix_type fx = "wrap_with_check" →
     defined_name e = None ∧ is_wrap e = true ∧ is_file_fix e = false) ∧
  (fix_type fx = "define_variable" →
     defined_name e = fix_var fx ∧ is_wrap e = false ∧ is_file_fix e = false) ∧
  (fix_type fx = "wrap_division" →
     defined_name e = None ∧ is_wrap e = true ∧ is_file_fix e = false) ∧
  (fix_type fx = "safe_file_open" →
     defined_name e = None ∧ is_wrap e = true ∧ is_file_fix e = true) ∧
  (fix_type fx ∉ fix_kinds →
     defined_name e = None ∧ is_wrap e = false ∧ is_file_fix e = false).
Proof.
  intros Hfx. unfold defined_name, is_wrap, is_file_fix. rewrite Hfx. simpl.
  split_and!; try (intros ->; by vm_compute).
  unfold fix_kinds. intros Hk. split_and!.
  - rewrite bool_decide_eq_false_2; [done|]. intros K. apply Hk. rewrite K.
    do 2 apply list_elem_of_further. apply list_elem_of_here.
  - apply bool_decide_eq_false. intros Hin. apply Hk.
    apply elem_of_cons in Hin as [->|Hin];
      [apply list_elem_of_further, list_elem_of_here|].
    apply elem_of_cons in Hin as [->|Hin];
      [do 3 apply list_elem_of_further; apply list_elem_of_here|].
    apply list_elem_of_singleton in Hin as ->.
    do 4 apply list_elem_of_further. apply list_elem_of_here.
  - apply bool_decide_eq_false. intros K. apply Hk. rewrite K.
    do 4 apply list_elem_of_further. apply list_elem_of_here.
Qed.

Lemma one_line_insert_at n x l :
  one_line x → Forall one_line l → Forall one_line (list_insert_at n x l).
Proof.
  intros Hx Hl. unfold list_insert_at. apply Forall_app. split.
  - by apply Forall_take.
  - constructor; [done|]. by apply Forall_drop.
Qed.

Lemma one_line_splice n xs l :
  Forall one_line xs → Forall one_line l → Forall one_line (list_splice n xs l).
Proof.
  intros Hx Hl. unfold list_splice. rewrite !Forall_app. split_and!; [|done|].
  - by apply Forall_take.
  - by apply Forall_drop.
Qed.

Lemma one_line_strip s : one_line s → one_line (strip s).
Proof. apply all_chars_strip. Qed.

Lemma one_line_indent_str s : one_line (indent_str_of s).
Proof. apply one_line_spaces. Qed.

Ltac sets :=
  try (apply set_eq; intros ?); set_unfold; simpl; first [tauto | intuition congruence].

Ltac one_line_tac :=
  repeat first
    [ done
    | apply one_line_indent_str
    | apply one_line_spaces
    | by apply one_line_strip
    | apply one_line_app; split ].

(** One well-formed fix: the names and imports that it records, the number
    of lines that it adds, and that it keeps a buffer of one-line strings
    such. *)
Lemma apply_fix_step c n st e :
  wf_diag n e → n ≤ length (buf st) →
  ∃ st', apply_fix c st e = Some st' ∧
    fs_defined_vars st'
      = fs_defined_vars st ∪ (from_option singleton ∅ (defined_name e) ∖ defined_vars c) ∧
    added_imports st'
      = added_imports st ∪
        (if bool_decide ("os" ∉ imported_modules c) && is_file_fix e
         then {["os"]} else ∅) ∧
    length (buf st') + size (fs_defined_vars st) + size (added_imports st)
      = length (buf st) + 3 * (if is_wrap e then 1 else 0)
        + size (fs_defined_vars st') + size (added_imports st') ∧
    (one_line_fix e → Forall one_line (buf st) → Forall one_line (buf st')).
Proof.
  intros Hwf Hn. unfold apply_fix. destruct (d_fix e) as [fx|] eqn:Hfx.
  2:{ exists st. unfold defined_name, is_wrap, is_file_fix. rewrite Hfx. simpl.
      rewrite andb_false_r. split_and!; [done|sets|sets|lia|done]. }
  specialize (Hwf fx Hfx).
  assert (fix_type fx ∈ fix_kinds → d_line e < length (buf st) ∧ has_keys fx) as Hwf'.
  { intros Hk. destruct Hwf as [? ?]; [by apply bool_decide_eq_true|]. split; [lia|done]. }
  clear Hwf. unfold fix_kinds, has_keys in Hwf'.
  destruct (kind_facts e fx Hfx) as (F1 & F2 & F3 & F4 & F5 & F6).
  case_bool_decide as H1.
  { destruct Hwf' as [Hl (Hk & _)]; [rewrite H1; by left|].
    destruct (F1 H1) as (-> & -> & ->). rewrite andb_false_r.
    destruct (Hk H1) as [new_line Hnl]. rewrite Hnl. simpl. unfold list_assign.
    rewrite bool_decide_eq_true_2 by lia. simpl. eexists. split; [done|]. simpl.
    rewrite length_insert. split_and!; [sets|sets|lia|].
    intros Hol Hb. apply Forall_insert; [done|]. destruct (Hol fx Hfx) as (O1 & _). by apply O1. }
  case_bool_decide as H2.
  { destruct Hwf' as [Hl (_ & Hk & _)]; [rewrite H2; right; by left|].
    destruct (F2 H2) as (-> & -> & ->). rewrite andb_false_r.
    destruct (Hk H2) as [var Hvar]. rewrite Hvar. simpl.
    destruct (lookup_lt_is_Some_2 (buf st) (d_line e) Hl) as [ol Hol]. rewrite Hol. simpl.
    eexists. split; [done|]. simpl. rewrite length_list_splice by lia. simpl.
    split_and!; [sets|sets|lia|].
    intros Hof Hb. assert (one_line var) by (destruct (Hof fx Hfx) as (_ & O2 & _); by apply O2).
    assert (one_line ol) by (rewrite Forall_forall in Hb; eapply Hb, list_elem_of_lookup_2, Hol).
    apply one_line_splice; [|done]. repeat constructor; one_line_tac. }
  case_bool_decide as H3.
  { destruct Hwf' as [Hl (_ & _ & Hk & _)]; [rewrite H3; right; right; by left|].
    destruct (F3 H3) as (-> & -> & ->). rewrite andb_false_r.
    destruct (Hk H3) as [var Hvar]. rewrite Hvar. simpl.
    destruct (decide (var ∈ fs_defined_vars st)) as [Hin1|Hin1].
    { rewrite (bool_decide_eq_false_2 (var ∉ fs_defined_vars st)) by tauto. simpl.
      exists st. split_and!; [done|sets|sets|lia|done]. }
    destruct (decide (var ∈ defined_vars c)) as [Hin2|Hin2].
    { rewrite (bool_decide_eq_false_2 (var ∉ defined_vars c)) by tauto.
      rewrite andb_false_r.
      exists st. split_and!; [done|sets|sets|lia|done]. }
    rewrite !bool_decide_eq_true_2 by done. simpl.
    destruct (find_insertion_point_total (buf st) (d_line e) Hl) as [il ->]. simpl.
    destruct (lookup_lt_is_Some_2 (buf st) (d_line e) Hl) as [ol ->]. simpl.
    eexists. split; [done|]. simpl. rewrite length_list_insert_at.
    split_and!; [sets|sets| |].
    - rewrite size_union by sets. rewrite size_singleton. lia.
    - intros Hof Hb. assert (one_line var) by (destruct (Hof fx Hfx) as (_ & O2 & _); by apply O2).
      apply one_line_insert_at; [|done]. one_line_tac. }
  case_bool_decide as H4.
  { destruct Hwf' as [Hl _]; [rewrite H4; right; right; right; by left|].
    destruct (F4 H4) as (-> & -> & ->). rewrite andb_false_r.
    destruct (lookup_lt_is_Some_2 (buf st) (d_line e) Hl) as [ol Hol]. rewrite Hol. simpl.
    eexists. split; [done|]. simpl. rewrite length_list_splice by lia. simpl.
    split_and!; [sets|sets|lia|].
    intros Hof Hb.
    assert (one_line ol) by (rewrite Forall_forall in Hb; eapply Hb, list_elem_of_lookup_2, Hol).
    apply one_line_splice; [|done]. repeat constructor; one_line_tac. }
  case_bool_decide as H5.
  2:{ destruct F6 as (-> & -> & ->).
      { unfold fix_kinds. rewrite !elem_of_cons, elem_of_nil. tauto. }
      rewrite andb_false_r.
      exists st. split_and!; [done|sets|sets|lia|done]. }
  destruct Hwf' as [Hl (_ & _ & _ & Hk)]; [rewrite H5; right; right; right; right; by left|].
  destruct (F5 H5) as (-> & -> & ->). rewrite andb_true_r.
  destruct (Hk H5) as [filename Hfn].
  destruct (decide ("os" ∈ imported_modules c)) as [Hos1|Hos1].
  { rewrite (bool_decide_eq_false_2 ("os" ∉ imported_modules c)) by tauto. simpl.
    destruct (lookup_lt_is_Some_2 (buf st) (d_line e) Hl) as [ol Hol]. rewrite Hol. simpl.
    rewrite Hfn. simpl.
    eexists. split; [done|]. simpl. rewrite length_list_splice by lia. simpl.
    split_and!; [sets|sets|lia|].
    intros Hof Hb. assert (one_line filename) by (destruct (Hof fx Hfx) as (_ & _ & O3); by apply O3).
    assert (one_line ol) by (rewrite Forall_forall in Hb; eapply Hb, list_elem_of_lookup_2, Hol).
    apply one_line_splice; [|done]. repeat constructor; one_line_tac. }
  rewrite (bool_decide_eq_true_2 ("os" ∉ imported_modules c)) by done.
  destruct (decide ("os" ∈ added_imports st)) as [Hos2|Hos2].
  { rewrite (bool_decide_eq_false_2 ("os" ∉ added_imports st)) by tauto. simpl.
    destruct (lookup_lt_is_Some_2 (buf st) (d_line e) Hl) as [ol Hol]. rewrite Hol. simpl.
    rewrite Hfn. simpl.
    eexists. split; [done|]. simpl. rewrite length_list_splice by lia. simpl.
    split_and!; [sets|sets|lia|].
    intros Hof Hb. assert (one_line filename) by (destruct (Hof fx Hfx) as (_ & _ & O3); by apply O3).
    assert (one_line ol) by (rewrite Forall_forall in Hb; eapply Hb, list_elem_of_lookup_2, Hol).
    apply one_line_splice; [|done]. repeat constructor; one_line_tac. }
  rewrite (bool_decide_eq_true_2 ("os" ∉ added_imports st)) by done. simpl.
  assert (d_line e < length (list_insert_at 0 "import os" (buf st))) as Hl'
    by (rewrite length_list_insert_at; lia).
  destruct (lookup_lt_is_Some_2 _ _ Hl') as [ol Hol]. rewrite Hol. simpl. rewrite Hfn. simpl.
  eexists. split; [done|]. simpl.
  rewrite length_list_splice by done. rewrite length_list_insert_at. simpl.
  split_and!; [sets|sets| |].
  - rewrite size_union by sets. rewrite size_singleton. lia.
  - intros Hof Hb. assert (one_line filename) by (destruct (Hof fx Hfx) as (_ & _ & O3); by apply O3).
    assert (Forall one_line (list_insert_at 0 "import os" (buf st))) as Hb'
      by by apply one_line_insert_at.
    assert (one_line ol) by (rewrite Forall_forall in Hb'; eapply Hb', list_elem_of_lookup_2, Hol).
    apply one_line_splice; [|done]. repeat constructor; one_line_tac.
Qed.


(** *** The strings of the scanner's fixes *)

(** The file name of the [open] pattern is a part of the match. *)
Lemma open_inv_sub pv wd post g :
  Matches re_open pv wd post ∅ g → ∃ a b, wd = a +:+ group 1 g +:+ b.
Proof.
  unfold re_open. cbn [Seq foldr]. intros M. inv_matches.
  unfold group. rewrite lookup_insert_eq. simpl.
  match goal with
  | |- ∃ a b, "open" +:+ ?s1 +:+ "(" +:+ ?s2 +:+ ?q +:+ ?nm +:+ ?rest = _ =>
      exists ("open" +:+ s1 +:+ "(" +:+ s2 +:+ q), rest
  end.
  by rewrite !sapp_assoc.
Qed.

Lemma one_line_identifier s : isidentifier s = true → one_line s.
Proof.
  intros H. apply one_line_word. destruct s as [|a s]; [done|]. simpl in *.
  apply andb_true_iff in H as [Ha ->]. unfold is_word. by rewrite Ha.
Qed.

(** The strings that the scanner puts into its fixes have no newline. *)
Lemma scan_one_line_fix code c ds :
  detect_errors_with_context code c = Some ds → Forall one_line_fix ds.
Proof.
  intros Hds. apply Forall_forall. intros d Hd.
  destruct (scan_elem _ _ _ _ Hds Hd) as (i & line & Hi & _ & Hof).
  assert (one_line line) as Hline.
  { pose proof (split_lines_one_line code) as Hall. rewrite Forall_forall in Hall.
    eapply Hall, list_elem_of_lookup_2, Hi. }
  destruct Hof as [H|es H H'|es H H'|es H H'|es H H'].
  - apply detect_import_elem in H as (m & Hm & _ & ->). intros fx [= <-]. simpl.
    split_and!; [|done..]. intros s [= <-].
    apply rmatch_sound in Hm as (wd & post & -> & M).
    apply import_line_inv in M as (name & _ & _ & _ & Hw).
    apply one_line_app; split; [done|]. apply one_line_app; split; [done|].
    by apply one_line_word.
  - destruct (detect_none_attr_elem _ _ _ _ _ H H') as (m & column & Hm & _ & _ & ->).
    intros fx [= <-]. simpl. split_and!; [done| |done]. intros s [= <-].
    apply search_none_attr in Hm as (pre & attr & post & (_ & [_ Hw] & _) & _).
    by apply one_line_word.
  - destruct (detect_undefined_elem _ _ _ _ _ H H') as (var & column & Hin & _ & _ & ->).
    intros fx [= <-]. simpl. split_and!; [done| |done]. intros s [= <-].
    apply var_ref_token in Hin as [Hid _]. by apply one_line_identifier.
  - destruct (detect_division_elem _ _ _ _ _ H H') as (m & column & _ & _ & _ & ->).
    intros fx [= <-]. by simpl.
  - destruct (detect_file_elem _ _ _ _ H H') as (m & column & Hm & _ & ->).
    intros fx [= <-]. simpl. split_and!; [done|done|]. intros s [= <-].
    apply search_sound in Hm as (pre & wd & post & -> & M & _).
    apply open_inv_sub in M as (a & b & ->).
    apply one_line_app in Hline as [_ Hline]. apply one_line_app in Hline as [Hline _].
    apply one_line_app in Hline as [_ Hline]. by apply one_line_app in Hline as [Hline _].
Qed.

(** A name that the scanner reports as undefined is not in [defined_vars]. *)
Lemma scan_defined_names code c ds :
  detect_errors_with_context code c = Some ds →
  defined_names ds ∖ defined_vars c = defined_names ds.
Proof.
  intros Hds. apply set_eq. intros x. rewrite elem_of_difference.
  split; [tauto|]. intros Hx. split; [done|].
  unfold defined_names in Hx. apply elem_of_list_to_set, list_elem_of_omap in Hx
    as (d & Hd & Hname).
  destruct (scan_elem _ _ _ _ Hds Hd) as (i & line & Hi & _ & Hof).
  destruct Hof as [H|es H H'|es H H'|es H H'|es H H'].
  - by apply detect_import_elem in H as (m & _ & _ & ->).
  - by destruct (detect_none_attr_elem _ _ _ _ _ H H') as (m & column & _ & _ & _ & ->).
  - destruct (detect_undefined_elem _ _ _ _ _ H H') as (var & column & _ & Hex & _ & ->).
    injection Hname as <-. unfold excluded, known_entity in Hex.
    repeat (apply orb_false_iff in Hex as [Hex _]).
    by apply bool_decide_eq_false in Hex.
  - by destruct (detect_division_elem _ _ _ _ _ H H') as (m & column & _ & _ & _ & ->).
  - by destruct (detect_file_elem _ _ _ _ H H') as (m & column & _ & _ & ->).
Qed.

(** *** The whole loop *)

Lemma wrap_count_cons e es :
  wrap_count (e :: es) = (if is_wrap e then 1 else 0) + wrap_count es.
Proof.
  unfold wrap_count. rewrite filter_cons.
  destruct (decide (is_wrap e = true)) as [->|Hne]; [done|].
  by apply not_true_is_false in Hne as ->.
Qed.

Lemma defined_names_cons e es :
  defined_names (e :: es) = from_option singleton ∅ (defined_name e) ∪ defined_names es.
Proof.
  unfold defined_names. simpl. destruct (defined_name e); simpl; [done|].
  apply set_eq. intros x. set_unfold. tauto.
Qed.

Lemma existsb_perm {A} (f : A → bool) l1 l2 :
  l1 ≡ₚ l2 → existsb f l1 = existsb f l2.
Proof.
  induction 1 as [|x l1 l2 _ IH|x y l|l1 l2 l3 _ IH1 _ IH2]; simpl.
  - done.
  - by rewrite IH.
  - by destruct (f x), (f y).
  - by rewrite IH1.
Qed.

(** The sort changes none of the three counts. *)
Lemma sort_counts c errors :
  wrap_count (sort_by_line_desc errors) = wrap_count errors ∧
  defined_names (sort_by_line_desc errors) = defined_names errors ∧
  needs_os c (sort_by_line_desc errors) = needs_os c errors.
Proof.
  pose proof (sort_by_line_desc_perm errors) as Hp. split_and!.
  - unfold wrap_count. by rewrite Hp.
  - unfold defined_names. apply set_eq. intros x. rewrite !elem_of_list_to_set.
    by rewrite Hp.
  - unfold needs_os. by rewrite (existsb_perm _ _ _ Hp).
Qed.

Lemma apply_loop_count c n errors : ∀ st,
  Forall (wf_diag n) errors → n ≤ length (buf st) →
  ∃ st', apply_loop c st errors = Some st' ∧
    fs_defined_vars st'
      = fs_defined_vars st ∪ (defined_names errors ∖ defined_vars c) ∧
    added_imports st'
      = added_imports st ∪ (if needs_os c errors then {["os"]} else ∅) ∧
    length (buf st') + size (fs_defined_vars st) + size (added_imports st)
      = length (buf st) + 3 * wrap_count errors
        + size (fs_defined_vars st') + size (added_imports st') ∧
    (Forall one_line_fix errors → Forall one_line (buf st) → Forall one_line (buf st')).
Proof.
  induction errors as [|e errors IH]; intros st Hwf Hn; simpl.
  - exists st. unfold needs_os. simpl. rewrite andb_false_r.
    split_and!; [done| | |unfold wrap_count; simpl; lia|done];
      apply set_eq; intros x; set_unfold; tauto.
  - apply Forall_cons in Hwf as [He Hwf].
    destruct (apply_fix_step c n st e He Hn) as (st1 & Hst1 & Hfs1 & Hai1 & Hlen1 & Hol1).
    destruct (apply_fix_ok c n st e He Hn) as (st1' & Hst1' & Hmono).
    rewrite Hst1 in Hst1'. injection Hst1' as <-. rewrite Hst1. simpl.
    destruct (IH st1 Hwf ltac:(lia)) as (st' & -> & Hfs & Hai & Hlen & Hol).
    exists st'. rewrite wrap_count_cons, defined_names_cons.
    split_and!; [done| | |lia|].
    + rewrite Hfs, Hfs1. apply set_eq. intros x. set_unfold. tauto.
    + rewrite Hai, Hai1. unfold needs_os. simpl.
      destruct (bool_decide ("os" ∉ imported_modules c)), (is_file_fix e),
        (existsb is_file_fix errors); simpl;
        apply set_eq; intros x; set_unfold; tauto.
    + intros [Hf Hfs']%Forall_cons Hb. apply Hol; [done|]. by apply Hol1.
Qed.

(** The rewrite of a well-formed list of diagnostics: the number of lines
    of the buffer that is joined. *)
Lemma apply_smart_fixes_count code errors c :
  Forall (wf_diag (line_count code)) errors →
  ∃ st, apply_loop c (MkFixState (split_lines code) ∅ ∅) (sort_by_line_desc errors)
        = Some st ∧
    length (buf st)
      = line_count code + 3 * wrap_count errors
        + size (defined_names errors ∖ defined_vars c)
        + (if needs_os c errors then 1 else 0) ∧
    (Forall one_line_fix errors → Forall one_line (buf st)).
Proof.
  intros Hwf.
  destruct (apply_loop_count c (line_count code) (sort_by_line_desc errors)
              (MkFixState (split_lines code) ∅ ∅)) as (st & Hst & Hfs & Hai & Hlen & Hol).
  { by apply sort_by_line_desc_Forall. }
  { done. }
  destruct (sort_counts c errors) as (Hw & Hd & Ho). rewrite Hw, Hd, Ho in *.
  cbn [buf fs_defined_vars added_imports] in *. exists st. split_and!; [done| |].
  - rewrite Hfs, Hai in Hlen. rewrite !size_empty in Hlen.
    rewrite !(left_id_L ∅ (∪)) in Hlen.
    destruct (needs_os c errors); rewrite ?size_singleton, ?size_empty in Hlen;
      unfold line_count; lia.
  - intros Hf. apply Hol; [by apply sort_by_line_desc_Forall|].
    apply split_lines_one_line.
Qed.

Lemma apply_smart_fixes_line_count code errors c :
  Forall (wf_diag (line_count code)) errors → Forall one_line_fix errors →
  ∃ out, apply_smart_fixes code errors c = Some out ∧
    line_count out
      = line_count code + 3 * wrap_count errors
        + size (defined_names errors ∖ defined_vars c)
        + (if needs_os c errors then 1 else 0).
Proof.
  intros Hwf Hol. destruct (apply_smart_fixes_count code errors c Hwf) as (st & Hst & Hlen & Hb).
  unfold apply_smart_fixes. rewrite Hst. simpl. eexists. split; [done|].
  unfold line_count at 1. rewrite split_join_lines; [done| |by apply Hb].
  intros Hnil. rewrite Hnil in Hlen. simpl in Hlen.
  pose proof (split_length_pos newline code). unfold line_count, split_lines in Hlen. lia.
Qed.


(** *** Fixes that raise *)

(** A fix that lacks the key of its kind raises, whatever the buffer. *)
Lemma apply_fix_missing_key c st e fx :
  d_fix e = Some fx → missing_key fx → apply_fix c st e = None.
Proof.
  intros Hfx Hk. unfold apply_fix. rewrite Hfx.
  destruct Hk as [[Hk Hn]|[[Hk Hn]|[[Hk Hn]|[Hk Hn]]]].
  - rewrite bool_decide_eq_true_2 by done. by rewrite Hn.
  - not_kind Hk. rewrite bool_decide_eq_true_2 by done. by rewrite Hn.
  - do 2 not_kind Hk. rewrite bool_decide_eq_true_2 by done. by rewrite Hn.
  - do 4 not_kind Hk. rewrite bool_decide_eq_true_2 by done. rewrite Hn.
    by destruct (_ !! _).
Qed.

(** A replacing fix for a line past the end of the buffer raises. *)
Lemma apply_fix_past_end c st e fx :
  d_fix e = Some fx → replaces_line fx → length (buf st) ≤ d_line e →
  apply_fix c st e = None.
Proof.
  intros Hfx Hk Hlen. unfold apply_fix. rewrite Hfx.
  assert (buf st !! d_line e = None) as Hnone by by apply lookup_ge_None_2.
  destruct Hk as [Hk|[Hk|Hk]].
  - rewrite bool_decide_eq_true_2 by done. destruct (fix_new_line fx); [|done]. simpl.
    unfold list_assign. by rewrite bool_decide_eq_false_2 by lia.
  - not_kind Hk. rewrite bool_decide_eq_true_2 by done.
    destruct (fix_var fx); [|done]. simpl. by rewrite Hnone.
  - do 3 not_kind Hk. rewrite bool_decide_eq_true_2 by done. by rewrite Hnone.
Qed.

(** One fix that raises on every buffer makes the loop raise. *)
Lemma apply_loop_fails c e errors :
  e ∈ errors → (∀ st, apply_fix c st e = None) →
  ∀ st, apply_loop c st errors = None.
Proof.
  intros Hin Hnone. induction errors as [|e' errors IH]; intros st.
  - by apply elem_of_nil in Hin.
  - simpl. apply elem_of_cons in Hin as [<-|Hin].
    + by rewrite Hnone.
    + destruct (apply_fix c st e'); simpl; [by apply IH|done].
Qed.

(** The diagnostic with the greatest line is the first of the sorted list. *)
Lemma sort_by_line_desc_head e errors :
  e ∈ errors → (∀ e', e' ∈ errors → e' = e ∨ d_line e' < d_line e) →
  ∃ rest, sort_by_line_desc errors = e :: rest.
Proof.
  intros Hin Hmax.
  pose proof (sort_by_line_desc_perm errors) as Hp.
  pose proof (sort_by_line_desc_sorted errors) as Hs.
  destruct (sort_by_line_desc errors) as [|h rest].
  - rewrite <- Hp in Hin. by apply elem_of_nil in Hin.
  - exists rest. f_equal.
    assert (h ∈ errors) as Hh by (rewrite <- Hp; by left).
    destruct (Hmax h Hh) as [->|Hlt]; [done|].
    rewrite <- Hp in Hin. apply elem_of_cons in Hin as [->|Hin]; [done|].
    apply StronglySorted_inv in Hs as [_ Hall]. rewrite Forall_forall in Hall.
    specialize (Hall e Hin). simpl in Hall. lia.
Qed.

(** *** The definition of an undefined name *)

Lemma find_insertion_point_spec lines error_line cur_line :
  lines !! error_line = Some cur_line →
  ∃ p, find_insertion_point lines error_line = Some p ∧ p ≤ error_line ∧
    (∀ j line, p ≤ j < error_line → lines !! j = Some line →
       walk_stops (get_line_indent cur_line) line = false) ∧
    (p = 0 ∨ ∃ i line, p = S i ∧ lines !! i = Some line ∧
       walk_stops (get_line_indent cur_line) line = true).
Proof.
  intros Hl. unfold find_insertion_point. rewrite Hl. simpl.
  apply find_insertion_loop_spec. apply lookup_lt_Some in Hl. lia.
Qed.

Lemma apply_fix_define c st e fx var line :
  d_fix e = Some fx → fix_type fx = "define_variable" → fix_var fx = Some var →
  var ∉ fs_defined_vars st → var ∉ defined_vars c →
  buf st !! d_line e = Some line →
  ∃ p, find_insertion_point (buf st) (d_line e) = Some p ∧ p ≤ d_line e ∧
    apply_fix c st e
    = Some (MkFixState
              (take p (buf st) ++
               (repeat_char " " (get_line_indent line) +:+ var
                  +:+ " = None  # TODO: Initialize this variable") :: drop p (buf st))
              (added_imports st) ({[var]} ∪ fs_defined_vars st)).
Proof.
  intros Hfx Hk Hvar Hn1 Hn2 Hline.
  destruct (find_insertion_point_spec _ _ _ Hline) as (p & Hp & Hle & _).
  exists p. split_and!; [done..|].
  unfold apply_fix. rewrite Hfx. do 2 not_kind Hk. rewrite bool_decide_eq_true_2 by done.
  rewrite Hvar. simpl. rewrite !bool_decide_eq_true_2 by done. simpl.
  rewrite Hp. simpl. by rewrite Hline.
Qed.

Lemma identifier_head var :
  isidentifier var = true → ∃ a t, var = String a t ∧ is_space a = false.
Proof.
  destruct var as [|a t]; [done|]. simpl. intros [Ha _]%andb_true_iff.
  exists a, t. split; [done|]. destruct (is_space a) eqn:Hs; [|done].
  exfalso. revert Ha Hs. unfold is_alpha_, is_space, within.
  generalize (ord a). intros n Ha Hs.
  repeat (apply orb_true_iff in Ha as [Ha|Ha] || apply andb_true_iff in Ha as [Ha ?]
          || apply orb_true_iff in Hs as [Hs|Hs] || apply andb_true_iff in Hs as [Hs ?]);
    repeat match goal with
           | H : (_ <=? _) = true |- _ => apply Nat.leb_le in H
           | H : (_ =? _) = true |- _ => apply Nat.eqb_eq in H
           end; lia.
Qed.

End MoreFixFacts.

(** ** Further properties of the rewrite engine *)

Import MoreFixFacts.


(** X11.  [find_insertion_point] raises exactly when the flagged line is
    past the end of the buffer.  Otherwise it returns a line [p] at or above
    the flagged line: no line from [p] up to the flagged line stops the
    upward walk, and [p] is 0 or the line just below one that stops it (a
    non-blank line with a smaller indentation than the flagged line, or a
    [def] or [class] header at the same indentation). *)
Theorem insertion_point_walk (lines : list string) (error_line : nat) :
  (length lines ≤ error_line → find_insertion_point lines error_line = None) ∧
  (∀ cur_line, lines !! error_line = Some cur_line →
     ∃ p, find_insertion_point lines error_line = Some p ∧ p ≤ error_line ∧
       (∀ j line, p ≤ j < error_line → lines !! j = Some line →
          walk_stops (get_line_indent cur_line) line = false) ∧
       (p = 0 ∨ ∃ i line, p = S i ∧ lines !! i = Some line ∧
          walk_stops (get_line_indent cur_line) line = true)).
Proof.
  split.
  - intros Hlen. unfold find_insertion_point. by rewrite lookup_ge_None_2.
  - intros cur_line. apply find_insertion_point_spec.
Qed.

(** X12.  A [wrap_with_check] or [wrap_division] fix, and a
    [safe_file_open] fix when [os] is imported or was added before, puts
    four lines in place of the line it reads and leaves every other line
    and both sets as they are.  The first and the third of the four lines
    have the indentation of the replaced line, the second and the fourth
    are four columns deeper, and the second is the replaced statement. *)
Theorem wrap_fix_replaces_line (c : Context) (st : FixState) (e : Diagnostic)
    (fx : Fix) (orig : string) :
  d_fix e = Some fx →
  fix_type fx = "wrap_with_check" ∨ fix_type fx = "wrap_division" ∨
    (fix_type fx = "safe_file_open" ∧
     ("os" ∈ imported_modules c ∨ "os" ∈ added_imports st)) →
  has_keys fx →
  buf st !! d_line e = Some orig →
  ∃ block,
    apply_fix c st e
    = Some (MkFixState
              (take (d_line e) (buf st) ++ block ++ drop (S (d_line e)) (buf st))
              (added_imports st) (fs_defined_vars st)) ∧
    is_block_of orig block.
Proof.
  intros Hfx [Hk|[Hk|[Hk Hos]]] Hkeys Horig.
  - apply (apply_fix_wrap c st e fx orig); auto.
  - apply (apply_fix_wrap c st e fx orig); auto.
  - by apply (apply_fix_file_known c st e fx orig).
Qed.

Lemma wrap_fix_replaces_line_witness :
  ∃ block,
    apply_fix empty_context (MkFixState ["x = None"; "  y = x.a"] ∅ ∅)
      (MkDiagnostic "AttributeError" "'x' might be None" 1 6
         "Check if object is None first"
         (Some (MkFix "wrap_with_check" 1 None (Some "x") (Some "  y = x.a") None)))
    = Some (MkFixState (take 1 ["x = None"; "  y = x.a"] ++ block
                          ++ drop 2 ["x = None"; "  y = x.a"]) ∅ ∅) ∧
    is_block_of "  y = x.a" block.
Proof.
  apply (wrap_fix_replaces_line empty_context
           (MkFixState ["x = None"; "  y = x.a"] ∅ ∅)
           (MkDiagnostic "AttributeError" "'x' might be None" 1 6
              "Check if object is None first"
              (Some (MkFix "wrap_with_check" 1 None (Some "x") (Some "  y = x.a") None)))
           (MkFix "wrap_with_check" 1 None (Some "x") (Some "  y = x.a") None)
           "  y = x.a").
  - reflexivity.
  - left. reflexivity.
  - unfold has_keys. simpl. split_and!; intros; (discriminate || by eexists).
  - reflexivity.
Defined.

(** X13.  A [safe_file_open] fix that adds [import os] reads the buffer
    after the insertion at line 0: for a diagnostic of line 0 the block is
    built around the inserted import, and for a diagnostic of line [k + 1]
    around line [k] of the buffer, the line above the flagged one.  The
    flagged line stays as it is, below the block. *)
Theorem safe_file_open_reads_shifted_line (c : Context) (st : FixState)
    (e : Diagnostic) (fx : Fix) :
  d_fix e = Some fx → fix_type fx = "safe_file_open" → has_keys fx →
  "os" ∉ imported_modules c → "os" ∉ added_imports st →
  (d_line e = 0 →
     ∃ block,
       apply_fix c st e
       = Some (MkFixState (block ++ buf st)
                 ({["os"]} ∪ added_imports st) (fs_defined_vars st)) ∧
       is_block_of "import os" block) ∧
  (∀ k prev, d_line e = S k → buf st !! k = Some prev →
     ∃ block,
       apply_fix c st e
       = Some (MkFixState
                 ("import os" :: take k (buf st) ++ block ++ drop (S k) (buf st))
                 ({["os"]} ∪ added_imports st) (fs_defined_vars st)) ∧
       is_block_of prev block).
Proof.
  intros Hfx Hk Hkeys Hos1 Hos2. split.
  - intros H0.
    destruct (apply_fix_file_shifted c st e fx Hfx Hk Hkeys Hos1 Hos2 "import os")
      as (block & Heq & Hb); [by rewrite H0|].
    exists block. split; [|done]. by rewrite Heq, H0.
  - intros k prev HS Hprev.
    destruct (apply_fix_file_shifted c st e fx Hfx Hk Hkeys Hos1 Hos2 prev)
      as (block & Heq & Hb); [by rewrite HS|].
    exists block. split; [|done]. by rewrite Heq, HS.
Qed.

Lemma safe_file_open_reads_shifted_line_witness :
  let st := MkFixState ["name = 'a.txt'"; "f = open('a.txt')"] ∅ ∅ in
  let fx := MkFix "safe_file_open" 1 None None None (Some "a.txt") in
  let e := MkDiagnostic "FileNotFoundError" "File 'a.txt' might not exist" 1 4
             "Check file exists before opening" (Some fx) in
  (d_line e = 0 →
     ∃ block,
       apply_fix empty_context st e
       = Some (MkFixState (block ++ buf st)
                 ({["os"]} ∪ added_imports st) (fs_defined_vars st)) ∧
       is_block_of "import os" block) ∧
  (∀ k prev, d_line e = S k → buf st !! k = Some prev →
     ∃ block,
       apply_fix empty_context st e
       = Some (MkFixState
                 ("import os" :: take k (buf st) ++ block ++ drop (S k) (buf st))
                 ({["os"]} ∪ added_imports st) (fs_defined_vars st)) ∧
       is_block_of prev block).
Proof.
  intros st fx e.
  apply (safe_file_open_reads_shifted_line empty_context st e fx).
  - reflexivity.
  - reflexivity.
  - unfold has_keys. simpl. split_and!; intros; (discriminate || by eexists).
  - apply (bool_decide_unpack _). vm_compute. exact I.
  - apply (bool_decide_unpack _). vm_compute. exact I.
Defined.

(** X14.  A [define_variable] fix for an identifier that is neither in
    [defined_vars] of the context nor defined by an earlier fix inserts one
    line, [<name> = None  # TODO: Initialize this variable], at the
    insertion point of the flagged line, which is at or above it.  The
    inserted line has the indentation of the flagged line, the flagged line
    moves down by one, and the name is recorded. *)
Theorem define_variable_inserts_above (c : Context) (st : FixState)
    (e : Diagnostic) (fx : Fix) (var line : string) :
  d_fix e = Some fx → fix_type fx = "define_variable" → fix_var fx = Some var →
  isidentifier var = true →
  var ∉ fs_defined_vars st → var ∉ defined_vars c →
  buf st !! d_line e = Some line →
  ∃ p new st',
    find_insertion_point (buf st) (d_line e) = Some p ∧ p ≤ d_line e ∧
    apply_fix c st e = Some st' ∧
    buf st' = take p (buf st) ++ new :: drop p (buf st) ∧
    added_imports st' = added_imports st ∧
    fs_defined_vars st' = {[var]} ∪ fs_defined_vars st ∧
    new = repeat_char " " (get_line_indent line) +:+ var
            +:+ " = None  # TODO: Initialize this variable" ∧
    get_line_indent new = get_line_indent line ∧
    buf st' !! S (d_line e) = Some line.
Proof.
  intros Hfx Hk Hvar Hid Hn1 Hn2 Hline.
  destruct (apply_fix_define c st e fx var line Hfx Hk Hvar Hn1 Hn2 Hline)
    as (p & Hp & Hle & Heq).
  eexists p, _, _. split_and!; [done|done|exact Heq|done|done|done|done| |].
  - rewrite get_line_indent_spaces.
    destruct (identifier_head var Hid) as (a & t & -> & Ha).
    rewrite sapp_cons, get_line_indent_nonspace by done. lia.
  - simpl. pose proof (list_insert_at_later p
      (repeat_char " " (get_line_indent line) +:+ var
         +:+ " = None  # TODO: Initialize this variable") (buf st) (d_line e) Hle) as Hl.
    unfold list_insert_at in Hl. rewrite Hl; [done|].
    apply lookup_lt_Some in Hline. lia.
Qed.

Lemma define_variable_inserts_above_witness :
  let st := MkFixState ["def f():"; "    return total"] ∅ ∅ in
  let fx := MkFix "define_variable" 1 None (Some "total") None None in
  let e := MkDiagnostic "NameError" "'total' is not defined" 1 11
             "Define variable before use" (Some fx) in
  ∃ p new st',
    find_insertion_point (buf st) (d_line e) = Some p ∧ p ≤ d_line e ∧
    apply_fix empty_context st e = Some st' ∧
    buf st' = take p (buf st) ++ new :: drop p (buf st) ∧
    added_imports st' = added_imports st ∧
    fs_defined_vars st' = {["total"]} ∪ fs_defined_vars st ∧
    new = repeat_char " " (get_line_indent "    return total") +:+ "total"
            +:+ " = None  # TODO: Initialize this variable" ∧
    get_line_indent new = get_line_indent "    return total" ∧
    buf st' !! S (d_line e) = Some "    return total".
Proof.
  intros st fx e.
  apply (define_variable_inserts_above empty_context st e fx "total" "    return total").
  - reflexivity.
  - reflexivity.
  - reflexivity.
  - reflexivity.
  - apply (bool_decide_unpack _). vm_compute. exact I.
  - apply (bool_decide_unpack _). vm_compute. exact I.
  - reflexivity.
Defined.


(** X15.  The size of the rewritten text, for a well-formed list of
    diagnostics whose fixes hold no newline: the lines of the input, three
    more for every wrapping fix, one for every distinct name of the
    [define_variable] fixes that is not in [defined_vars] of the context,
    and one for [import os] when the list has a [safe_file_open] fix and
    [os] is not an imported module of the context. *)
Theorem rewrite_line_count (code : string) (errors : list Diagnostic) (c : Context) :
  Forall (wf_diag (line_count code)) errors →
  Forall one_line_fix errors →
  ∃ out, apply_smart_fixes code errors c = Some out ∧
    line_count out
      = line_count code + 3 * wrap_count errors
        + size (defined_names errors ∖ defined_vars c)
        + (if needs_os c errors then 1 else 0).
Proof. apply apply_smart_fixes_line_count. Qed.

Lemma rewrite_line_count_witness :
  let code := join_lines ["f = open(name)"; "print(total, total)"] in
  let errors :=
    [ MkDiagnostic "FileNotFoundError" "" 0 4 ""
        (Some (MkFix "safe_file_open" 0 None None None (Some "a.txt")));
      MkDiagnostic "NameError" "" 1 6 ""
        (Some (MkFix "define_variable" 1 None (Some "total") None None));
      MkDiagnostic "NameError" "" 1 13 ""
        (Some (MkFix "define_variable" 1 None (Some "total") None None)) ] in
  ∃ out, apply_smart_fixes code errors empty_context = Some out ∧
    line_count out
      = line_count code + 3 * wrap_count errors
        + size (defined_names errors ∖ defined_vars empty_context)
        + (if needs_os empty_context errors then 1 else 0).
Proof.
  intros code errors.
  apply (rewrite_line_count code errors empty_context).
  - repeat apply Forall_cons_2; [..|apply Forall_nil_2]; intros fx [= <-] _;
      (split; [vm_compute; lia|]);
      unfold has_keys; simpl; split_and!; intros; (discriminate || by eexists).
  - repeat apply Forall_cons_2; [..|apply Forall_nil_2]; intros fx [= <-]; simpl;
      split_and!; intros s Hs; (discriminate || (injection Hs as <-; reflexivity)).
Defined.

(** X16.  Scanning a text and rewriting it with the diagnostics of the
    scan, under one context, always returns, and the rewritten text has the
    lines of the input, three more for every attribute, division and file
    diagnostic, one for every distinct undefined name, and one for
    [import os] when there is a file diagnostic and [os] is not an imported
    module of the context. *)
Theorem scan_rewrite_line_count (code : string) (c : Context) :
  ∃ ds out,
    detect_errors_with_context code c = Some ds ∧
    apply_smart_fixes code ds c = Some out ∧
    line_count out
      = line_count code + 3 * wrap_count ds + size (defined_names ds)
        + (if needs_os c ds then 1 else 0).
Proof.
  destruct (detect_errors_total code c) as [ds Hds].
  destruct (apply_smart_fixes_line_count code ds c) as (out & Hout & Hlen).
  { by apply detect_errors_wf with c. }
  { by apply scan_one_line_fix with code c. }
  exists ds, out. split_and!; [done|done|].
  by rewrite Hlen, (scan_defined_names code c ds Hds).
Qed.

(** X17.  If any diagnostic of the list has a fix of a known kind without
    the key that its branch reads ([new_line] for [add_comment], [var] for
    [wrap_with_check] and [define_variable], [filename] for
    [safe_file_open]), the rewrite raises, whatever the text, the context
    and the other diagnostics. *)
Theorem missing_key_raises (code : string) (errors : list Diagnostic) (c : Context)
    (e : Diagnostic) (fx : Fix) :
  e ∈ errors → d_fix e = Some fx → missing_key fx →
  apply_smart_fixes code errors c = None.
Proof.
  intros Hin Hfx Hk. unfold apply_smart_fixes.
  rewrite (apply_loop_fails c e); [done| |].
  - by rewrite sort_by_line_desc_perm.
  - intros st. by apply apply_fix_missing_key with fx.
Qed.

Lemma missing_key_raises_witness :
  apply_smart_fixes "y = x.a"
    [ MkDiagnostic "AttributeError" "" 0 4 ""
        (Some (MkFix "wrap_with_check" 0 None None (Some "y = x.a") None)) ]
    empty_context = None.
Proof.
  apply (missing_key_raises "y = x.a" _ empty_context
           (MkDiagnostic "AttributeError" "" 0 4 ""
              (Some (MkFix "wrap_with_check" 0 None None (Some "y = x.a") None)))
           (MkFix "wrap_with_check" 0 None None (Some "y = x.a") None)).
  - apply list_elem_of_here.
  - reflexivity.
  - right. left. split; reflexivity.
Defined.

(** X18.  If the diagnostic with the greatest line has an [add_comment],
    [wrap_with_check] or [wrap_division] fix and its line is past the end
    of the text, the rewrite raises: the descending order makes it the
    first fix, and it indexes the buffer at that line. *)
Theorem line_past_end_raises (code : string) (errors : list Diagnostic) (c : Context)
    (e : Diagnostic) (fx : Fix) :
  e ∈ errors →
  (∀ e', e' ∈ errors → e' = e ∨ d_line e' < d_line e) →
  d_fix e = Some fx → replaces_line fx →
  line_count code ≤ d_line e →
  apply_smart_fixes code errors c = None.
Proof.
  intros Hin Hmax Hfx Hk Hlen. unfold apply_smart_fixes.
  destruct (sort_by_line_desc_head e errors Hin Hmax) as [rest ->]. simpl.
  by rewrite (apply_fix_past_end c _ e fx).
Qed.

Lemma line_past_end_raises_witness :
  apply_smart_fixes (join_lines ["a = 1"; "b = a / 0"])
    [ MkDiagnostic "ZeroDivisionError" "" 2 6 ""
        (Some (MkFix "wrap_division" 2 None None None None)) ]
    empty_context = None.
Proof.
  apply (line_past_end_raises (join_lines ["a = 1"; "b = a / 0"]) _ empty_context
           (MkDiagnostic "ZeroDivisionError" "" 2 6 ""
              (Some (MkFix "wrap_division" 2 None None None None)))
           (MkFix "wrap_division" 2 None None None None)).
  - apply list_elem_of_here.
  - intros e' ->%list_elem_of_singleton. by left.
  - reflexivity.
  - right. right. reflexivity.
  - vm_compute. lia.
Defined.

(** ** The request handler *)

Module ApiFacts.
Import Py PyFacts Re ReFacts Talon Props ScanFacts ContextFacts FixFacts Api MoreProps.

(** *** The key of the usage counter *)

Lemma sapp_inj_r (t : string) : ∀ a b : string, a +:+ t = b +:+ t → a = b.
Proof.
  assert (∀ a : string, len t < len (a +:+ t) → a ≠ "") as Hne.
  { intros a Hlt ->. rewrite sapp_nil_l in Hlt. lia. }
  induction a as [|x a IH]; intros b Heq.
  - destruct b as [|y b]; [done|]. exfalso.
    apply (f_equal len) in Heq. rewrite sapp_nil_l, sapp_cons, len_cons, len_app in Heq. lia.
  - destruct b as [|y b].
    + exfalso. apply (f_equal len) in Heq.
      rewrite sapp_nil_l, sapp_cons, len_cons, len_app in Heq. lia.
    + rewrite !sapp_cons in Heq. injection Heq as -> Heq. f_equal. by apply IH.
Qed.

(** In one month two addresses have the same key only if they are equal. *)
Lemma user_key_of_inj m a b : user_key_of a m = user_key_of b m → a = b.
Proof. unfold user_key_of. apply sapp_inj_r. Qed.

(** *** The analysis of a text *)

(** The three passes never raise on a text. *)
Lemma analyze_text_total code fe :
  ∃ errors out,
    analyze_text code fe = Some (errors, out) ∧
    detect_errors_with_context code (analyze_code_context code) = Some errors ∧
    line_count code ≤ line_count out ∧
    (fe = false ∨ errors = [] → out = code).
Proof.
  unfold analyze_text.
  destruct (detect_errors_total code (analyze_code_context code)) as [errors Hds].
  rewrite Hds. simpl.
  destruct (fe && negb (bool_decide (errors = []))) eqn:Hfe.
  - destruct (apply_smart_fixes_ok code errors (analyze_code_context code))
      as (out & -> & Hlen); [by apply detect_errors_wf with (analyze_code_context code)|].
    simpl. exists errors, out. split_and!; [done|done|done|].
    apply andb_true_iff in Hfe as [-> Hne]. apply negb_true_iff, bool_decide_eq_false in Hne.
    by intros [?|?].
  - exists errors, code. by split_and!.
Qed.

(** *** One request *)

Lemma analyze_code_uncharged m key req db :
  charged m key req = false →
  (analyze_code m req db).2 !! key = db !! key.
Proof.
  unfold charged, analyze_code. intros Hc.
  destruct (is_options req); [done|].
  destruct (body_fails req); [done|].
  destruct (code_is_falsy (code_field req)); [done|]. simpl in Hc.
  apply bool_decide_eq_false in Hc.
  set (k := user_key_of (remote_addr req) m) in *.
  set (db0 := if bool_decide (k ∈ dom db) then db else <[k:=0]> db).
  assert (db0 !! key = db !! key) as H0.
  { unfold db0. case_bool_decide; [done|]. by rewrite lookup_insert_ne. }
  destruct (_ && _); [done|].
  destruct (analysis_response _ _ _); simpl; by rewrite lookup_insert_ne.
Qed.

(** A truthy [code] comes from a body that is an object. *)
Lemma truthy_code_body req :
  code_is_falsy (code_field req) = false → body_fails req = false.
Proof. unfold code_field, body_fails. by destruct (body req). Qed.

(** A request that reaches the rate limiting: it is answered 429 and the
    counters stay, or the counter of its key goes up by one. *)
Lemma analyze_code_charged m req db :
  is_options req = false → code_is_falsy (code_field req) = false →
  let key := user_key_of (remote_addr req) m in
  let count := default 0 (db !! key) in
  if (100 <=? count) && auth_is_falsy (authorization req)
  then analyze_code m req db = (Failure 429 "Free tier limit reached" (Some upgrade_url), db)
  else (analyze_code m req db).2 = <[key := count + 1]> db ∧
       (analyze_code m req db).1
       = from_option id (Failure 500 "Analysis failed" None)
           (analysis_response (code_field req) (fix_errors req) (count + 1)).
Proof.
  intros Ho Hc key count. unfold analyze_code.
  rewrite Ho, (truthy_code_body req Hc), Hc. fold key.
  set (db0 := if bool_decide (key ∈ dom db) then db else <[key:=0]> db).
  assert (default 0 (db0 !! key) = count) as Hcount.
  { unfold db0, count. case_bool_decide as Hd; [done|].
    rewrite lookup_insert_eq. simpl. apply not_elem_of_dom in Hd. by rewrite Hd. }
  rewrite Hcount.
  destruct ((100 <=? count) && auth_is_falsy (authorization req)) eqn:Hlim.
  - f_equal. unfold db0. case_bool_decide as Hd; [done|]. exfalso.
    apply andb_true_iff in Hlim as [Hle _]. apply Nat.leb_le in Hle.
    apply not_elem_of_dom in Hd. unfold count in Hle. rewrite Hd in Hle. simpl in Hle. lia.
  - assert (<[key:=count + 1]> db0 = <[key:=count + 1]> db) as ->.
    { unfold db0. case_bool_decide; [done|]. by rewrite insert_insert_eq. }
    by destruct (analysis_response _ _ _).
Qed.

Lemma analysis_response_not_limited cf fe usage :
  is_rate_limited (from_option id (Failure 500 "Analysis failed" None)
                     (analysis_response cf fe usage)) = false.
Proof.
  destruct cf as [|code|b]; simpl; [done| |done].
  destruct (analyze_text code fe) as [[errors out]|]; by simpl.
Qed.

(** When a request is answered 429. *)
Lemma analyze_code_limited m req db :
  is_rate_limited (analyze_code m req db).1 = true ↔
  is_options req = false ∧ code_is_falsy (code_field req) = false ∧
  auth_is_falsy (authorization req) = true ∧
  100 ≤ default 0 (db !! user_key_of (remote_addr req) m).
Proof.
  destruct (is_options req) eqn:Ho.
  { unfold analyze_code. rewrite Ho. cbn. split; [done|]. by intros (? & _). }
  destruct (code_is_falsy (code_field req)) eqn:Hc.
  { unfold analyze_code. rewrite Ho, Hc. destruct (body_fails req); cbn;
      (split; [done|]; by intros (_ & ? & _)). }
  pose proof (analyze_code_charged m req db Ho Hc) as H. cbv zeta in H.
  destruct (100 <=? _) eqn:Hle; cbn [andb] in H.
  - apply Nat.leb_le in Hle. destruct (auth_is_falsy _) eqn:Ha.
    + rewrite H. by cbn.
    + destruct H as [_ ->]. rewrite analysis_response_not_limited.
      split; [done|]. by intros (_ & _ & ? & _).
  - apply Nat.leb_gt in Hle. destruct H as [_ ->].
    rewrite analysis_response_not_limited. split; [done|]. intros (_ & _ & _ & ?). lia.
Qed.

(** *** A sequence of requests *)

Lemma serve_cons m req reqs db :
  serve m (req :: reqs) db
  = ((analyze_code m req db).1 :: (serve m reqs (analyze_code m req db).2).1,
     (serve m reqs (analyze_code m req db).2).2).
Proof.
  simpl. destruct (analyze_code m req db) as [r db1]. simpl.
  by destruct (serve m reqs db1).
Qed.

Lemma serve_length m reqs : ∀ db, length (serve m reqs db).1 = length reqs.
Proof.
  induction reqs as [|req reqs IH]; intros db; [done|].
  rewrite serve_cons. simpl. by rewrite IH.
Qed.

(** The counter of a key against the number of requests charged to it: the
    two are equal, or both are at least 100. *)
Lemma counter_step m key req db v :
  let a := default 0 (db !! key) in
  let a' := default 0 ((analyze_code m req db).2 !! key) in
  let v' := v + (if charged m key req then 1 else 0) in
  a = v ∨ (100 ≤ a ∧ a ≤ v) → a' = v' ∨ (100 ≤ a' ∧ a' ≤ v').
Proof.
  intros a a' v' Hinv. subst a' v'.
  destruct (charged m key req) eqn:Hch.
  2:{ rewrite analyze_code_uncharged by done. fold a. lia. }
  unfold charged in Hch. apply andb_true_iff in Hch as [Hch Hk].
  apply andb_true_iff in Hch as [Ho Hc].
  apply negb_true_iff in Ho, Hc. apply bool_decide_eq_true in Hk.
  pose proof (analyze_code_charged m req db Ho Hc) as H. cbv zeta in H.
  rewrite Hk in H. fold a in H.
  destruct (100 <=? a) eqn:Hle; cbn [andb] in H.
  - apply Nat.leb_le in Hle. destruct (auth_is_falsy _).
    + rewrite H. simpl. fold a. lia.
    + destruct H as [-> _]. rewrite lookup_insert_eq. simpl. lia.
  - apply Nat.leb_gt in Hle. destruct H as [-> _]. rewrite lookup_insert_eq. simpl. lia.
Qed.

Lemma serve_rate_limit m key : ∀ reqs db v i req resp,
  (default 0 (db !! key) = v ∨ (100 ≤ default 0 (db !! key) ∧ default 0 (db !! key) ≤ v)) →
  reqs !! i = Some req → (serve m reqs db).1 !! i = Some resp →
  user_key_of (remote_addr req) m = key →
  is_rate_limited resp = true ↔
  is_options req = false ∧ code_is_falsy (code_field req) = false ∧
  auth_is_falsy (authorization req) = true ∧
  100 ≤ v + length (filter (λ r, charged m key r = true) (take i reqs)).
Proof.
  induction reqs as [|req0 reqs IH]; intros db v i req resp Hinv Hreq Hresp Hkey; [done|].
  rewrite serve_cons in Hresp. destruct i as [|i]; simpl in Hreq, Hresp.
  - injection Hreq as ->. injection Hresp as <-. simpl.
    rewrite analyze_code_limited, Hkey. split.
    + intros (? & ? & ? & ?). split_and!; [done..|lia].
    + intros (? & ? & ? & ?). split_and!; [done..|lia].
  - rewrite (IH _ (v + (if charged m key req0 then 1 else 0)) i req resp
               (counter_step m key req0 db v Hinv) Hreq Hresp Hkey).
    cbn [take]. rewrite filter_cons.
    destruct (decide (charged m key req0 = true)) as [Hch|Hch].
    + rewrite Hch. cbn [length].
      split; intros (? & ? & ? & ?); split_and!; (done || lia).
    + apply not_true_is_false in Hch. rewrite Hch.
      split; intros (? & ? & ? & ?); split_and!; (done || lia).
Qed.

End ApiFacts.

(** ** Further properties of the request handler *)

Import ApiFacts.


(** X19.  What one request does to the usage counters.  A request that is
    answered 204, 400 or 429 leaves [user_db] as it is; in particular a
    rate-limited request never creates a counter.  A POST whose body does
    not parse, or is a truthy JSON value other than an object, raises on
    line 47 or 48: it is answered 500 and leaves [user_db] as it is, too.
    Every other request sets the counter of its key to one more than before
    (a missing counter counts as 0), also when the analysis then fails with
    500.  The [usage] of an analysis response is the new counter, and its
    tier is [free]. *)
Theorem request_counter_effect (current_month : string) (req : Request)
    (user_db : gmap string nat) :
  let key := user_key_of (remote_addr req) current_month in
  let count := default 0 (user_db !! key) in
  let response := (analyze_code current_month req user_db).1 in
  let user_db' := (analyze_code current_month req user_db).2 in
  (rejected response = true → user_db' = user_db) ∧
  (is_options req = false → body_fails req = true →
     response = Failure 500 "Analysis failed" None ∧ user_db' = user_db) ∧
  (rejected response = false → body_fails req = false →
     user_db' = <[key := count + 1]> user_db) ∧
  (∀ errors n tier usage fixed_code fixes,
     response = Analysis errors n tier usage fixed_code fixes →
     usage = count + 1 ∧ tier = "free" ∧ user_db' !! key = Some usage).
Proof.
  intros key count response user_db'. subst response user_db'.
  destruct (is_options req) eqn:Ho.
  { unfold analyze_code. rewrite Ho. cbn. by split_and!. }
  destruct (body_fails req) eqn:Hb.
  { unfold analyze_code. rewrite Ho, Hb. cbn. by split_and!. }
  destruct (code_is_falsy (code_field req)) eqn:Hc.
  { unfold analyze_code. rewrite Ho, Hb, Hc. cbn. by split_and!. }
  pose proof (analyze_code_charged current_month req user_db Ho Hc) as H. cbv zeta in H.
  fold key in H. fold count in H.
  destruct ((100 <=? count) && auth_is_falsy (authorization req)).
  { rewrite H. cbn. by split_and!. }
  destruct H as [-> ->].
  destruct (code_field req) as [|code|b]; cbn; [by split_and!| |by split_and!].
  destruct (analyze_text code (fix_errors req)) as [[errors out]|]; cbn; [|by split_and!].
  split_and!; [done|done|done|]. intros errors' n tier usage fc fa [= <- <- <- <- <- <-].
  by rewrite lookup_insert_eq.
Qed.

(** X20.  Which requests of a sequence are answered 429: exactly the POST
    requests with a truthy [code] and without an [Authorization] value for
    which the counter of the key at the start, plus the number of earlier
    requests of the sequence charged to that key, is at least 100.  A request
    with a non-empty [Authorization] header is never rate limited. *)
Theorem rate_limit_characterised (current_month : string) (reqs : list Request)
    (user_db : gmap string nat) (i : nat) (req : Request) (response : Response) :
  reqs !! i = Some req →
  (serve current_month reqs user_db).1 !! i = Some response →
  let key := user_key_of (remote_addr req) current_month in
  is_rate_limited response = true ↔
  is_options req = false ∧ code_is_falsy (code_field req) = false ∧
  auth_is_falsy (authorization req) = true ∧
  100 ≤ default 0 (user_db !! key)
        + length (filter (λ r, charged current_month key r = true) (take i reqs)).
Proof.
  intros Hreq Hresp key.
  apply (serve_rate_limit current_month key reqs user_db _ i req response); auto.
Qed.

Lemma rate_limit_characterised_witness :
  let req := MkRequest false (BodyObject (CodeText "x = 1") false) "10.0.0.7" None in
  let user_db : gmap string nat := {[ "10.0.0.7:2024-05" := 99 ]} in
  let key := user_key_of (remote_addr req) "2024-05" in
  is_rate_limited (Failure 429 "Free tier limit reached" (Some upgrade_url)) = true ↔
  is_options req = false ∧ code_is_falsy (code_field req) = false ∧
  auth_is_falsy (authorization req) = true ∧
  100 ≤ default 0 (user_db !! key)
        + length (filter (λ r, charged "2024-05" key r = true) (take 1 [req; req])).
Proof.
  intros req user_db.
  apply (rate_limit_characterised "2024-05" [req; req] user_db 1 req
           (Failure 429 "Free tier limit reached" (Some upgrade_url))).
  - reflexivity.
  - vm_compute. reflexivity.
Defined.

(** X21.  The counters are per address: requests from other addresses, in
    any number and of any kind, leave the counter of an address as it is. *)
Theorem counters_are_per_address (current_month addr : string)
    (reqs : list Request) (user_db : gmap string nat) :
  Forall (λ r, remote_addr r ≠ addr) reqs →
  (serve current_month reqs user_db).2 !! user_key_of addr current_month
  = user_db !! user_key_of addr current_month.
Proof.
  revert user_db. induction reqs as [|req reqs IH]; intros user_db Hall; [done|].
  apply Forall_cons in Hall as [Hne Hall]. rewrite serve_cons. cbn [snd].
  rewrite IH by done. apply analyze_code_uncharged.
  unfold charged. rewrite bool_decide_eq_false_2; [by rewrite andb_false_r|].
  intros Heq. by apply user_key_of_inj in Heq.
Qed.

Lemma counters_are_per_address_witness :
  (serve "2024-05"
     [ MkRequest false (BodyObject (CodeText "x = 1") false) "10.0.0.7" None;
       MkRequest false (BodyObject (CodeText "y = z") true) "10.0.0.8" (Some "Bearer k") ]
     {[ "10.0.0.9:2024-05" := 3 ]}).2 !! user_key_of "10.0.0.9" "2024-05"
  = ({[ "10.0.0.9:2024-05" := 3 ]} : gmap string nat) !! user_key_of "10.0.0.9" "2024-05".
Proof.
  apply (counters_are_per_address "2024-05" "10.0.0.9").
  repeat apply Forall_cons_2; [..|apply Forall_nil_2]; simpl; discriminate.
Defined.

(** X22.  A POST request with a non-empty text that passes the rate limit
    is never answered 500.  The response carries the diagnostics of the scan
    of the text under its own context, the number of lines of the text, the
    tier [free] and the new counter.  Without [fix_errors] there is no
    [fixed_code] and [fixes_applied] is 0; with it, [fixes_applied] is the
    number of diagnostics, [fixed_code] has at least the lines of the text,
    and it is the text itself when there is no diagnostic. *)
Theorem text_request_analysed (current_month : string) (req : Request)
    (user_db : gmap string nat) (code : string) :
  is_options req = false → code_field req = CodeText code → code ≠ "" →
  let count := default 0 (user_db !! user_key_of (remote_addr req) current_month) in
  count < 100 ∨ auth_is_falsy (authorization req) = false →
  ∃ errors fixed_code,
    (analyze_code current_month req user_db).1
    = Analysis errors (line_count code) "free" (count + 1) fixed_code
        (if fix_errors req then length errors else 0) ∧
    scan code = Some errors ∧
    if fix_errors req
    then ∃ out, fixed_code = Some out ∧ line_count code ≤ line_count out ∧
                (errors = [] → out = code)
    else fixed_code = None.
Proof.
  intros Ho Hcf Hne count Hpass.
  assert (code_is_falsy (code_field req) = false) as Hc.
  { rewrite Hcf. simpl. by apply bool_decide_eq_false. }
  pose proof (analyze_code_charged current_month req user_db Ho Hc) as H. cbv zeta in H.
  fold count in H.
  assert ((100 <=? count) && auth_is_falsy (authorization req) = false) as Hlim.
  { apply andb_false_iff. destruct Hpass as [Hlt|Ha]; [left|by right].
    apply Nat.leb_gt. lia. }
  rewrite Hlim in H. destruct H as [_ ->]. rewrite Hcf. cbn [analysis_response].
  destruct (analyze_text_total code (fix_errors req)) as (errors & out & -> & Hds & Hlen & Hsame).
  cbn. exists errors. eexists. split_and!; [reflexivity|done|].
  destruct (fix_errors req).
  - exists out. split_and!; [done|done|]. intros Hnil. apply Hsame. by right.
  - done.
Qed.

Lemma text_request_analysed_witness :
  let req := MkRequest false (BodyObject (CodeText "x = y") true) "10.0.0.7" None in
  let count := default 0 ((∅ : gmap string nat) !! user_key_of (remote_addr req) "2024-05") in
  ∃ errors fixed_code,
    (analyze_code "2024-05" req ∅).1
    = Analysis errors (line_count "x = y") "free" (count + 1) fixed_code
        (if fix_errors req then length errors else 0) ∧
    scan "x = y" = Some errors ∧
    if fix_errors req
    then ∃ out, fixed_code = Some out ∧ line_count "x = y" ≤ line_count out ∧
                (errors = [] → out = "x = y")
    else fixed_code = None.
Proof.
  intros req.
  apply (text_request_analysed "2024-05" req ∅ "x = y").
  - reflexivity.
  - reflexivity.
  - discriminate.
  - left. vm_compute. lia.
Defined.
